(** * Synchronized swarm choreography: scheduler and agent workers

    A shallow embedding of [synchronizedSequenceShow.py]: the command
    model, the choreography table, the scheduler loop ([control_thread])
    that feeds one FIFO queue per agent, and the agent worker
    ([crazyflie_control]) that executes the commands of its queue. *)

From Stdlib Require Import ZArith Lia Bool String Floats Uint63 DecimalString.
From stdpp Require Import base tactics option list sorting.

Set Warnings "-inexact-float".
Set Default Proof Using "Type".

Local Open Scope Z_scope.

(** ** Python values *)

(** The exceptions the modelled code can raise. *)
Inductive exn :=
| IndexError
| ZeroDivisionError
| OverflowError
| ValueError
| TypeError
| AttributeError.

(** A Python number is an [int] (unbounded) or a [float] (binary64). *)
Inductive pynum :=
| PInt (n : Z)
| PFloat (f : float).

(** A value or a raised exception. *)
Inductive result (A : Type) :=
| Val (a : A)
| Exc (e : exn).
Arguments Val {A} a.
Arguments Exc {A} e.

Definition result_bind {A B} (r : result A) (k : A -> result B) : result B :=
  match r with
  | Val a => k a
  | Exc e => Exc e
  end.

(** What the program takes from the C library and the Python runtime and
    the model does not compute: cosine and sine on binary64 (reached
    through [math.cos] and [math.sin]) and the text [str] gives for a
    float. The rest of the runtime is modelled as CPython 3.11 has it by
    default on a 64-bit platform. *)
Class Runtime := {
  libm_cos : float -> float;
  libm_sin : float -> float;
  float_str : float -> string
}.

(** ** Python arithmetic *)

Module Py.

(** [math.pi] *)
Definition pi : float := 0x1.921fb54442d18p+1%float.

(** An int below 2^53 in magnitude is a binary64 value. *)
Definition exact_float (n : Z) : float :=
  if n <? 0 then (- of_uint63 (Uint63.of_Z (- n)))%float
  else of_uint63 (Uint63.of_Z n).

Definition is_exact (n : Z) : bool := Z.abs n <? 2 ^ 53.

(** An int as an operand of binary64 rounding and division. *)
Definition SF_of_int (n : Z) : spec_float :=
  match n with
  | Z0 => S754_zero false
  | Zpos p => S754_finite false p 0
  | Zneg p => S754_finite true p 0
  end.

(** A result of rounding, which Python refuses when it is infinite. *)
Definition checked (sf : spec_float) : result float :=
  match sf with
  | S754_infinity _ => Exc OverflowError
  | _ => Val (SF2Prim sf)
  end.

(** [float(n)] for an int: the nearest binary64 value, ties to even;
    [OverflowError] when that is out of range. *)
Definition float_of_int (n : Z) : result float :=
  if is_exact n then Val (exact_float n)
  else checked (binary_normalize prec emax n 0 false).

(** The conversion of an operand of mixed arithmetic to [float]. *)
Definition to_float (x : pynum) : result float :=
  match x with
  | PInt n => float_of_int n
  | PFloat f => Val f
  end.

(** [x / y] for ints, [y] not zero: the quotient rounded once. *)
Definition int_true_divide (x y : Z) : result float :=
  if is_exact x && is_exact y then Val (exact_float x / exact_float y)%float
  else checked (SFdiv prec emax (SF_of_int x) (SF_of_int y)).

Definition is_zero (x : pynum) : bool :=
  match x with
  | PInt n => n =? 0
  | PFloat f => (f =? 0)%float
  end.

(** Float arithmetic after conversion of both operands, left one first. *)
Definition float_op (op : float -> float -> float) (x y : pynum) : result pynum :=
  result_bind (to_float x) (fun a =>
  result_bind (to_float y) (fun b =>
  Val (PFloat (op a b)))).

Definition add (x y : pynum) : result pynum :=
  match x, y with
  | PInt a, PInt b => Val (PInt (a + b))
  | _, _ => float_op PrimFloat.add x y
  end.

Definition sub (x y : pynum) : result pynum :=
  match x, y with
  | PInt a, PInt b => Val (PInt (a - b))
  | _, _ => float_op PrimFloat.sub x y
  end.

Definition mul (x y : pynum) : result pynum :=
  match x, y with
  | PInt a, PInt b => Val (PInt (a * b))
  | _, _ => float_op PrimFloat.mul x y
  end.

(** [x / y], true division. *)
Definition truediv (x y : pynum) : result pynum :=
  match x, y with
  | PInt a, PInt b =>
      if b =? 0 then Exc ZeroDivisionError
      else result_bind (int_true_divide a b) (fun q => Val (PFloat q))
  | _, _ =>
      result_bind (to_float x) (fun a =>
      result_bind (to_float y) (fun b =>
      if is_zero y then Exc ZeroDivisionError
      else Val (PFloat (a / b))))
  end.

(** [int(x)]: an int as it is, a float truncated towards zero;
    [ValueError] for a NaN and [OverflowError] for an infinity. *)
Definition int (x : pynum) : result Z :=
  match x with
  | PInt n => Val n
  | PFloat f =>
      match Prim2SF f with
      | S754_zero _ => Val 0
      | S754_finite s m e => Val (cond_Zopp s (Z.shiftl (Zpos m) e))
      | S754_infinity _ => Exc OverflowError
      | S754_nan => Exc ValueError
      end
  end.

(** The conversion of an int to decimal text refuses an int of more
    than 4300 digits with a [ValueError]: [str_limit] is 10^4300, the
    least int it refuses. *)
Definition str_limit : Z := Eval vm_compute in 10 ^ 4300.

Definition int_prints (n : Z) : bool := Z.abs n <? str_limit.

(** A number whose text can be made: any float, an int within the
    limit. *)
Definition prints (x : pynum) : bool :=
  match x with
  | PInt n => int_prints n
  | PFloat _ => true
  end.

(** The decimal text of an int. *)
Definition decimal (n : Z) : string := NilZero.string_of_int (Z.to_int n).

(** The text of a number that prints. *)
Definition text `{Runtime} (x : pynum) : string :=
  match x with
  | PInt n => decimal n
  | PFloat f => float_str f
  end.

(** [str(x)] *)
Definition str `{Runtime} (x : pynum) : result string :=
  if prints x then Val (text x) else Exc ValueError.

(** The wrapper of the [math] module around a libm function that cannot
    overflow: a NaN for an argument that is none, or an infinity for a
    finite argument, is a [ValueError] (math domain error). *)
Definition math_1 (func : float -> float) (x : float) : result float :=
  let r := func x in
  if is_nan r && negb (is_nan x) then Exc ValueError
  else if is_infinity r && is_finite x then Exc ValueError
  else Val r.

(** [math.cos(x)] and [math.sin(x)] *)
Definition cos `{Runtime} (x : pynum) : result pynum :=
  result_bind (to_float x) (fun a =>
  result_bind (math_1 libm_cos a) (fun r => Val (PFloat r))).

Definition sin `{Runtime} (x : pynum) : result pynum :=
  result_bind (to_float x) (fun a =>
  result_bind (math_1 libm_sin a) (fun r => Val (PFloat r))).

(** What [time.sleep(x)] raises instead of sleeping, if anything. The
    duration is converted to a signed 64-bit count of nanoseconds: an int
    is multiplied by 10^9, and the product must fit; a float that is no
    NaN is multiplied by 1e9 in binary64 and must lie between -2^63 and
    2^63 (its rounding to a whole number, away from zero, changes
    neither that nor its sign). A count that does not fit is an
    [OverflowError]; a NaN and a negative count are a [ValueError], and
    so is the float count 2^63, which the conversion takes to the most
    negative count. *)
Definition sleep_error (x : pynum) : option exn :=
  match x with
  | PInt n =>
      if (n <? - 9223372036) || (9223372036 <? n) then Some OverflowError
      else if n <? 0 then Some ValueError
      else None
  | PFloat f =>
      if is_nan f then Some ValueError
      else
        let ns := (f * 1e9)%float in
        if negb ((- 0x1p+63 <=? ns) && (ns <=? 0x1p+63))%float then Some OverflowError
        else if (ns <? 0)%float || (ns =? 0x1p+63)%float then Some ValueError
        else None
  end.

(** [range(lo, hi)] as the list it runs through; both bounds must be
    ints. *)
Definition range (lo hi : pynum) : result (list Z) :=
  match lo, hi with
  | PInt a, PInt b => Val (map (fun k => a + Z.of_nat k) (seq 0 (Z.to_nat (b - a))))
  | _, _ => Exc TypeError
  end.

(** *** The values of operations that do not raise *)

(** The float nearest to an int, ties to even; an infinity for an int
    that [float] refuses. *)
Definition nearest_float (n : Z) : float :=
  if is_exact n then exact_float n
  else SF2Prim (binary_normalize prec emax n 0 false).

(** The binary64 value of a number: a float itself, the nearest float of
    an int. *)
Definition as_float (x : pynum) : float :=
  match x with
  | PInt n => nearest_float n
  | PFloat f => f
  end.

(** The quotient of two ints, rounded once. *)
Definition quotient (a b : Z) : float :=
  if is_exact a && is_exact b then (exact_float a / exact_float b)%float
  else SF2Prim (SFdiv prec emax (SF_of_int a) (SF_of_int b)).

(** [x / y] as a float: the quotient of two ints rounded once, the
    binary64 quotient otherwise. *)
Definition ratio (x y : pynum) : float :=
  match x, y with
  | PInt a, PInt b => quotient a b
  | _, _ => (as_float x / as_float y)%float
  end.

(** The conversion of [x] to [float] does not raise. *)
Definition converts (x : pynum) : Prop := to_float x = Val (as_float x).

(** [hi - lo] as the float it is used as: the float nearest to the exact
    difference of two ints, the binary64 difference otherwise. *)
Definition span (hi lo : pynum) : float :=
  match hi, lo with
  | PInt a, PInt b => nearest_float (a - b)
  | _, _ => (as_float hi - as_float lo)%float
  end.

(** A colour channel, in [0, 255], and an intensity, in [0, 1]. *)
Definition channel (x : pynum) : Prop :=
  match x with
  | PInt n => 0 <= n <= 255
  | PFloat f => (0 <=? f)%float = true /\ (f <=? 255)%float = true
  end.

Definition unit_interval (x : pynum) : Prop :=
  match x with
  | PInt n => 0 <= n <= 1
  | PFloat f => (0 <=? f)%float = true /\ (f <=? 1)%float = true
  end.

(** [x + 1] *)
Definition succ (x : pynum) : pynum :=
  match x with
  | PInt n => PInt (n + 1)
  | PFloat f => PFloat (f + 1)%float
  end.

End Py.

(** ** Command model *)

(** The namedtuples of the source, with their fields in declaration order.
    [Other] stands for any object that is none of them; it carries the text
    that [str] gives for it. *)
Inductive command :=
| Takeoff (height time : pynum)
| Land (time : pynum)
| Goto (x y z time : pynum)
| Ring (r g b intensity time : pynum)
| Helix (d z zf theta0 circle_period No_setpoints time : pynum)
| Quit
| Other (repr : string).

(** The text of a command can be made, as [format] and [print] need it:
    a namedtuple shows its fields, so each int among them must be within
    the limit of the conversion to text. *)
Definition command_prints (c : command) : bool :=
  match c with
  | Takeoff height time => Py.prints height && Py.prints time
  | Land time => Py.prints time
  | Goto x y z time => Py.prints x && Py.prints y && Py.prints z && Py.prints time
  | Ring r g b intensity time =>
      Py.prints r && Py.prints g && Py.prints b && Py.prints intensity && Py.prints time
  | Helix d z zf theta0 circle_period No_setpoints time =>
      Py.prints d && Py.prints z && Py.prints zf && Py.prints theta0
      && Py.prints circle_period && Py.prints No_setpoints && Py.prints time
  | Quit => true
  | Other _ => true
  end.

(** One line of the choreography table: [(step, cf_id, action)]. *)
Definition entry : Type := Z * Z * command.

Definition entry_step (e : entry) : Z := e.1.1.
Definition entry_cf_id (e : entry) : Z := e.1.2.
Definition entry_command (e : entry) : command := e.2.

(** Time for one step, in seconds. *)
Definition STEP_TIME : Z := 1.

(** ** Outcomes of a run *)

Inductive outcome (A : Type) :=
| Ok (a : A)
| Raise (e : exn)
| OutOfFuel.
Arguments Ok {A} a.
Arguments Raise {A} e.
Arguments OutOfFuel {A}.

(** ** The scheduler *)

Module Scheduler.

(** What the scheduler does to the outside, in program order. *)
Inductive event :=
| PrintStep (step : Z)                      (* print('Step {}:'.format(step)) *)
| PrintRunning (c : command) (cf_id : Z)    (* print(' - Running: {} on {}'...) *)
| PrintEnd                                  (* print('Reaching the end ...') *)
| QueuePut (i : nat) (c : command)          (* controlQueues[...].put(c), resolved slot *)
| Sleep (seconds : Z).                      (* time.sleep(...) *)

(** The shared store: one FIFO queue per agent, oldest command first. *)
Abbreviation queues := (list (list command)).

(** Python list indexing, [l[i]] for a list of length [len]: a negative
    index counts from the end, anything outside [-len, len) raises
    [IndexError]. *)
Definition py_index (len : nat) (i : Z) : option nat :=
  if (0 <=? i) && (i <? Z.of_nat len) then Some (Z.to_nat i)
  else if (- Z.of_nat len <=? i) && (i <? 0) then Some (Z.to_nat (Z.of_nat len + i))
  else None.

(** A scheduler computation reads and updates the queues, emits events and
    ends with an outcome. *)
Definition prog (A : Type) : Type := queues -> list event * queues * outcome A.

Definition ret {A} (a : A) : prog A := fun qs => ([], qs, Ok a).

Definition bind {A B} (m : prog A) (k : A -> prog B) : prog B :=
  fun qs =>
    match m qs with
    | (evs, qs', Ok a) =>
        match k a qs' with
        | (evs', qs'', r) => (evs ++ evs', qs'', r)
        end
    | (evs, qs', Raise e) => (evs, qs', Raise e)
    | (evs, qs', OutOfFuel) => (evs, qs', OutOfFuel)
    end.

Definition emit (ev : event) : prog unit := fun qs => ([ev], qs, Ok tt).
Definition raise {A} (e : exn) : prog A := fun qs => ([], qs, Raise e).
Definition out_of_fuel {A} : prog A := fun qs => ([], qs, OutOfFuel).

Declare Scope prog_scope.
Delimit Scope prog_scope with prog.
Notation "x <- m ;; k" := (bind m (fun x => k))
  (at level 100, m at next level, right associativity) : prog_scope.
Notation "m ;; k" := (bind m (fun _ => k))
  (at level 100, right associativity) : prog_scope.
Local Open Scope prog_scope.

(** [print('Step {}:'.format(step))] *)
Definition print_step (step : Z) : prog unit :=
  if Py.int_prints step then emit (PrintStep step) else raise ValueError.

(** [print(' - Running: {} on {}'.format(command, cf_id))] *)
Definition print_running (command : command) (cf_id : Z) : prog unit :=
  if command_prints command && Py.int_prints cf_id
  then emit (PrintRunning command cf_id)
  else raise ValueError.

(** [controlQueues[cf_id].put(command)] *)
Definition queue_put (cf_id : Z) (c : command) : prog unit :=
  fun qs =>
    match py_index (length qs) cf_id with
    | None => ([], qs, Raise IndexError)
    | Some i => ([QueuePut i c], alter (fun q => q ++ [c]) i qs, Ok tt)
    end.

(** [for ctrl in controlQueues: ctrl.put(Quit())] *)
Definition put_quit_all : prog unit :=
  fun qs =>
    (map (fun i => QueuePut i Quit) (seq 0 (length qs)),
     map (fun q => q ++ [Quit]) qs, Ok tt).

Section ControlThread.

Variable sequence : list entry.

(** [sequence[pointer]] for a non-negative [pointer]. *)
Definition sequence_at (pointer : nat) : prog entry :=
  match sequence !! pointer with
  | Some e => ret e
  | None => raise IndexError
  end.

(** The inner loop, [while sequence[pointer][0] <= step: ...]. It returns
    the cursor and the [stop] flag it leaves behind; one unit of fuel is
    one evaluation of the loop condition. *)
Fixpoint inner_while (fuel : nat) (pointer : nat) (step : Z) : prog (nat * bool) :=
  match fuel with
  | O => out_of_fuel
  | S fuel' =>
      e <- sequence_at pointer ;;
      if entry_step e <=? step then
        let cf_id := entry_cf_id e in
        let command := entry_command e in
        print_running command cf_id ;;
        queue_put cf_id command ;;
        let pointer := S pointer in
        if (length sequence <=? pointer)%nat then
          emit PrintEnd ;;
          ret (pointer, true)
        else inner_while fuel' pointer step
      else ret (pointer, false)
  end.

(** The outer loop, [while not stop: ...]; one unit of fuel is one
    evaluation of its condition. The inner loop gets more fuel than the
    table has entries. *)
Fixpoint outer_while (fuel : nat) (pointer : nat) (step : Z) (stop : bool) : prog unit :=
  match fuel with
  | O => out_of_fuel
  | S fuel' =>
      if stop then ret tt
      else
        print_step step ;;
        r <- inner_while (S (length sequence)) pointer step ;;
        let '(pointer, stop) := r in
        let step := step + 1 in
        emit (Sleep STEP_TIME) ;;
        outer_while fuel' pointer step stop
  end.

(** The largest step of the table (0 for a table without positive steps). *)
Definition last_step (es : list entry) : Z :=
  foldr (fun e m => Z.max (entry_step e) m) 0 es.

(** The scheduler loop proper: the clock starts at step 0 with the cursor
    on the first entry. The fuel covers every tick up to the last step of
    the table. *)
Definition clock_loop : prog unit :=
  outer_while (Z.to_nat (last_step sequence) + 2)%nat 0%nat 0 false.

(** [control_thread()] *)
Definition control_thread : prog unit :=
  clock_loop ;;
  put_quit_all.

End ControlThread.

(** [controlQueues = [Queue() for _ in range(len(uris))]] *)
Definition fresh_queues (agents : nat) : queues := replicate agents [].

(** The log of a scheduler run over [agents] empty queues. *)
Definition run (sequence : list entry) (agents : nat) : list event * queues * outcome unit :=
  control_thread sequence (fresh_queues agents).

(** *** What a run has done, read off its results *)

(** The queue slot an entry addresses among [agents] queues, if any. *)
Definition slot (agents : nat) (e : entry) : option nat :=
  py_index agents (entry_cf_id e).

Definition addressable (agents : nat) (e : entry) : Prop :=
  is_Some (slot agents e).

(** The line that announces the dispatch of an entry can be printed. *)
Definition announced (e : entry) : bool :=
  command_prints (entry_command e) && Py.int_prints (entry_cf_id e).

(** A clock that stands at [step] reaches the step of the entry while it
    can still print its steps. *)
Definition in_time (step : Z) (e : entry) : bool :=
  Z.max step (entry_step e) <? Py.str_limit.

(** An entry whose step and whose announcement the scheduler can print:
    its step is below the limit, and so is every int among its agent id
    and the fields of its command. *)
Definition printed (e : entry) : Prop :=
  in_time 0 e = true /\ announced e = true.

(** An entry that the scheduler can deliver when it gets to it: its step
    is reached, its dispatch is announced and it addresses a queue. *)
Definition deliverable (agents : nat) (e : entry) : Prop :=
  in_time 0 e = true /\ announced e = true /\ addressable agents e.

(** The queues after the commands of [es] have been put, in order. *)
Definition deliver (es : list entry) (qs : queues) : queues :=
  foldl (fun qs e =>
           match slot (length qs) e with
           | Some i => alter (fun q => q ++ [entry_command e]) i qs
           | None => qs
           end) qs es.

(** The commands of [es] that land in slot [a] among [agents] queues. *)
Definition commands_for (agents a : nat) (es : list entry) : list command :=
  map entry_command (filter (fun e => slot agents e = Some a) es).

(** The enqueue operations of a log, each with the clock value printed
    last before it ([cur] when none was): tick, slot and command. *)
Fixpoint dispatch_log (cur : Z) (evs : list event) : list (Z * nat * command) :=
  match evs with
  | [] => []
  | PrintStep s :: evs' => dispatch_log s evs'
  | QueuePut i c :: evs' => (cur, i, c) :: dispatch_log cur evs'
  | _ :: evs' => dispatch_log cur evs'
  end.

(** The clock value printed last in a log ([cur] when none was). *)
Fixpoint clock (cur : Z) (evs : list event) : Z :=
  match evs with
  | [] => cur
  | PrintStep s :: evs' => clock s evs'
  | _ :: evs' => clock cur evs'
  end.

(** The entries of [es] with the tick at which a clock that starts at [t]
    and never runs backwards reaches each of them in table order. *)
Fixpoint timed (agents : nat) (t : Z) (es : list entry) : list (Z * nat * command) :=
  match es with
  | [] => []
  | e :: es' =>
      let t' := Z.max t (entry_step e) in
      (t', default 0%nat (slot agents e), entry_command e) :: timed agents t' es'
  end.

(** The two events of one dispatch. *)
Definition dispatch_events (agents : nat) (es : list entry) : list event :=
  flat_map (fun e => [PrintRunning (entry_command e) (entry_cf_id e);
                      QueuePut (default 0%nat (slot agents e)) (entry_command e)]) es.

End Scheduler.

(** ** The agent worker *)

Module Worker.

(** What a worker does to the outside, in program order. *)
Inductive call :=
| param_set_value (name value : string)        (* cf.param.set_value(name, value) *)
| commander_takeoff (height time : pynum)          (* commander.takeoff(height, time) *)
| commander_land (height time : pynum)             (* commander.land(height, time) *)
| commander_go_to (x y z yaw time : pynum)         (* commander.go_to(x, y, z, yaw, time) *)
| time_sleep (seconds : pynum)           (* time.sleep(seconds), when it sleeps *)
| print_warning (command uri : string).  (* print('Warning! unknown command {} for uri {}'...) *)

(** A worker computation emits calls and ends with a value or an
    exception. *)
Definition act (A : Type) : Type := list call * result A.

Definition ret {A} (a : A) : act A := ([], Val a).

Definition bind {A B} (m : act A) (k : A -> act B) : act B :=
  match m with
  | (cs, Val a) => match k a with (cs', r) => (cs ++ cs', r) end
  | (cs, Exc e) => (cs, Exc e)
  end.

Definition do (c : call) : act unit := ([c], Val tt).

(** The evaluation of an expression: no call, a value or an exception. *)
Definition eval {A} (r : result A) : act A := ([], r).

(** [time.sleep(seconds)] *)
Definition sleep (seconds : pynum) : act unit :=
  match Py.sleep_error seconds with
  | Some e => ([], Exc e)
  | None => do (time_sleep seconds)
  end.

Declare Scope act_scope.
Delimit Scope act_scope with act.
Notation "x <- m ;; k" := (bind m (fun x => k))
  (at level 100, m at next level, right associativity) : act_scope.
Notation "m ;; k" := (bind m (fun _ => k))
  (at level 100, right associativity) : act_scope.

(** Python expressions over numbers: an operand that raised makes the
    expression raise, operands are evaluated from left to right. *)
Definition lift2 (op : pynum -> pynum -> result pynum)
    (a b : result pynum) : result pynum :=
  result_bind a (fun x => result_bind b (fun y => op x y)).

Declare Scope py_scope.
Delimit Scope py_scope with py.
Notation "a + b" := (lift2 Py.add a b) : py_scope.
Notation "a - b" := (lift2 Py.sub a b) : py_scope.
Notation "a * b" := (lift2 Py.mul a b) : py_scope.
Notation "a / b" := (lift2 Py.truediv a b) : py_scope.
Notation "# x" := (Val x) (at level 5, format "# x") : py_scope.
Notation "'cos' ( a )" := (result_bind a Py.cos) : py_scope.
Notation "'sin' ( a )" := (result_bind a Py.sin) : py_scope.

Section WithRuntime.

Context `{Runtime}.

Local Open Scope act_scope.

(** [activate_mellinger_controller(scf, use_mellinger)] *)
Definition activate_mellinger_controller (use_mellinger : bool) : act unit :=
  let controller := 1 in
  let controller := if use_mellinger then 2 else controller in
  value <- eval (Py.str (PInt controller)) ;;
  do (param_set_value "stabilizer.controller" value).

(** [set_ring_color(cf, r, g, b, intensity, time)] *)
Definition set_ring_color (r g b intensity time : pynum) : act unit :=
  fade <- eval (Py.str time) ;;
  do (param_set_value "ring.fadeTime" fade) ;;
  r <- eval (#r * #intensity)%py ;;
  g <- eval (#g * #intensity)%py ;;
  b <- eval (#b * #intensity)%py ;;
  ir <- eval (Py.int r) ;;
  ig <- eval (Py.int g) ;;
  ib <- eval (Py.int b) ;;
  let color := Z.lor (Z.lor (Z.shiftl ir 16) (Z.shiftl ig 8)) ib in
  value <- eval (Py.str (PInt color)) ;;
  do (param_set_value "ring.fadeColor" value).

(** The body of [for counter in range(1, No_setpoints+1)] in the Helix
    branch. *)
Definition helix_setpoint (d z zf theta0 No_setpoints setpoint_period : pynum)
    (counter : Z) : act unit :=
  let pi := PFloat Py.pi in
  let counter := PInt counter in
  x_setpoint <- eval (#d / #(PFloat 2)
                      * cos (#(PInt 2) * #pi * #counter / #No_setpoints + #theta0))%py ;;
  y_setpoint <- eval (#d / #(PFloat 2)
                      * sin (#(PInt 2) * #pi * #counter / #No_setpoints + #theta0))%py ;;
  z_setpoint <- eval (#z + #counter / #No_setpoints * (#zf - #z))%py ;;
  psi_setpoint <- eval (#theta0 + #(PInt 2) * #pi * #counter / #No_setpoints
                        - #pi / #(PFloat 2))%py ;;
  do (commander_go_to x_setpoint y_setpoint z_setpoint psi_setpoint setpoint_period) ;;
  sleep setpoint_period.

Fixpoint for_each {A} (xs : list A) (body : A -> act unit) : act unit :=
  match xs with
  | [] => ret tt
  | x :: xs' => body x ;; for_each xs' body
  end.

(** The Helix branch. *)
Definition helix (d z zf theta0 circle_period No_setpoints time : pynum) : act unit :=
  let pi := PFloat Py.pi in
  setpoint_period <- eval (#circle_period / #No_setpoints)%py ;;
  x_setpoint <- eval (#d / #(PFloat 2) * cos (#theta0))%py ;;
  y_setpoint <- eval (#d / #(PFloat 2) * sin (#theta0))%py ;;
  let z_setpoint := z in
  psi_setpoint <- eval (#theta0 - #pi / #(PFloat 2))%py ;;
  do (commander_go_to x_setpoint y_setpoint z_setpoint psi_setpoint time) ;;
  seconds <- eval (#time + #(PInt 1))%py ;;
  sleep seconds ;;
  last <- eval (#No_setpoints + #(PInt 1))%py ;;
  counters <- eval (Py.range (PInt 1) last) ;;
  for_each counters
    (helix_setpoint d z zf theta0 No_setpoints setpoint_period).

(** *** The Helix expansion in the words of the specification *)

(** The angle of way-point [counter]: theta0 + 2 pi counter / steps. *)
Definition helix_theta (theta0 : pynum) (steps counter : Z) : float :=
  (Py.as_float theta0
   + 2 * Py.pi * Py.nearest_float counter / Py.nearest_float steps)%float.

(** The entry point: (d/2 cos theta0, d/2 sin theta0, zStart), yaw
    theta0 - pi/2, with the full duration. *)
Definition helix_entry (d z theta0 duration : pynum) : call :=
  commander_go_to
    (PFloat (Py.as_float d / 2 * libm_cos (Py.as_float theta0)))
    (PFloat (Py.as_float d / 2 * libm_sin (Py.as_float theta0)))
    z
    (PFloat (Py.as_float theta0 - Py.pi / 2))
    duration.

(** Way-point [counter] of the sweep: (d/2 cos theta, d/2 sin theta,
    zStart + counter/steps (zEnd - zStart)), yaw theta - pi/2, with
    duration period/steps. *)
Definition helix_waypoint (d z zf theta0 period : pynum) (steps counter : Z) : call :=
  let theta := helix_theta theta0 steps counter in
  commander_go_to
    (PFloat (Py.as_float d / 2 * libm_cos theta))
    (PFloat (Py.as_float d / 2 * libm_sin theta))
    (PFloat (Py.as_float z + Py.quotient counter steps * Py.span zf z))
    (PFloat (theta - Py.pi / 2))
    (PFloat (Py.ratio period (PInt steps))).

(** The counters 1, ..., steps. *)
Definition counters (steps : Z) : list Z :=
  map (fun k => 1 + Z.of_nat k) (seq 0 (Z.to_nat steps)).

(** The whole expansion: the entry point, a pause of duration + 1, then
    the way-points 1, ..., steps, each followed by a pause of
    period/steps. *)
Definition helix_expansion (d z zf theta0 period : pynum) (steps : Z)
    (duration : pynum) : list call :=
  helix_entry d z theta0 duration
    :: time_sleep (Py.succ duration)
    :: flat_map (fun counter =>
                   [helix_waypoint d z zf theta0 period steps counter;
                    time_sleep (PFloat (Py.ratio period (PInt steps)))])
         (counters steps).

(** [math.cos] and [math.sin] return a value at [a]. *)
Definition trig_defined (a : float) : Prop :=
  Py.math_1 libm_cos a = Val (libm_cos a) /\
  Py.math_1 libm_sin a = Val (libm_sin a).

Definition is_go_to (c : call) : bool :=
  match c with
  | commander_go_to _ _ _ _ _ => true
  | _ => false
  end.

(** How a worker ends: it returned on [Quit] and left [rest] unread in its
    queue, it waits for ever on a queue that gets no more commands, or it
    died of an exception. *)
Inductive exit :=
| Returned (rest : list command)
| Blocked
| Died (e : exn).

(** The attribute read [cf.uri]. The Crazyflie object of cflib, whose
    link is [link_uri], has the attribute [link_uri], which the first
    statement of [crazyflie_control] reads; it has no attribute [uri],
    and nothing in the source gives it one: the read raises
    [AttributeError]. *)
Definition cf_uri (link_uri : string) : result string := Exc AttributeError.

(** The loop of [crazyflie_control], [while True: command = control.get()
    ...], over the commands [control] that are put on the worker's queue,
    oldest first. [uri] names the drone, by the uri of its link. *)
Fixpoint command_loop (uri : string) (control : list command) : list call * exit :=
  match control with
  | [] => ([], Blocked)
  | command :: control' =>
      let continue (body : act unit) :=
        match body with
        | (cs, Val _) =>
            match command_loop uri control' with
            | (cs', x) => (cs ++ cs', x)
            end
        | (cs, Exc e) => (cs, Died e)
        end in
      match command with
      | Quit => ([], Returned control')
      | Takeoff height time => continue (do (commander_takeoff height time))
      | Land time => continue (do (commander_land (PFloat 0) time))
      | Goto x y z time => continue (do (commander_go_to x y z (PInt 0) time))
      | Helix d z zf theta0 circle_period No_setpoints time =>
          continue (helix d z zf theta0 circle_period No_setpoints time)
      | Ring r g b intensity time =>
          continue (set_ring_color r g b intensity time)
      | Other repr =>
          continue (value <- eval (cf_uri uri) ;; do (print_warning repr value))
      end
  end.

(** [crazyflie_control(scf)] for the worker whose queue gets [control]. *)
Definition crazyflie_control (uri : string) (control : list command) : list call * exit :=
  match
    (activate_mellinger_controller false ;;
     (* Set fade to color effect and reset to Led-ring OFF *)
     set_ring_color (PInt 0) (PInt 0) (PInt 0) (PInt 0) (PInt 0) ;;
     do (param_set_value "ring.effect" "14"))
  with
  | (cs, Val _) =>
      match command_loop uri control with
      | (cs', x) => (cs ++ cs', x)
      end
  | (cs, Exc e) => (cs, Died e)
  end.

End WithRuntime.

End Worker.

(** ** The show of the source *)

Module Choreography.

Definition uris : list string :=
  ["radio://0/80/2M/E7E7E7E701"; "radio://0/80/2M/E7E7E7E702";
   "radio://0/80/2M/E7E7E7E704"; "radio://0/80/2M/E7E7E7E705";
   "radio://0/80/2M/E7E7E7E706"; "radio://0/80/2M/E7E7E7E707";
   "radio://0/80/2M/E7E7E7E708"; "radio://0/80/2M/E7E7E7E709";
   "radio://0/80/2M/E7E7E7E710"]%string.

Definition F (f : float) : pynum := PFloat f.
Definition I (n : Z) : pynum := PInt n.

Definition sequence : list entry :=
  Eval cbv in
  let pi := Py.pi in
  [ (0, 0, Takeoff (F 0.5) (I 2));
    (0, 2, Takeoff (F 0.5) (I 2));
    (0, 3, Takeoff (F 0.8) (I 2));
    (0, 4, Takeoff (F 0.8) (I 2));

    (1, 1, Takeoff (F 1.2) (I 2));

    (2, 0, Goto (F (-0.4)) (F (-0.4)) (F 0.5) (I 1));
    (2, 2, Goto (F 0.4) (F 0.4) (F 0.5) (I 1));
    (2, 3, Goto (F 0.9) (F (-0.9)) (F 0.8) (I 1));
    (2, 4, Goto (F (-0.9)) (F 0.9) (F 0.8) (I 1));

    (3, 1, Goto (I 0) (I 0) (F 1.2) (I 1));

    (5, 0, Goto (F 0.4) (F (-0.4)) (F 0.5) (I 2));
    (5, 2, Goto (F (-0.4)) (F 0.4) (F 0.5) (I 2));
    (5, 3, Goto (F (-0.9)) (F (-0.9)) (F 0.8) (I 2));
    (5, 4, Goto (F 0.9) (F 0.9) (F 0.8) (I 2));

    (7, 0, Goto (F 0.4) (F 0.4) (F 0.5) (I 2));
    (7, 2, Goto (F (-0.4)) (F (-0.4)) (F 0.5) (I 2));
    (7, 3, Goto (F (-0.9)) (F 0.9) (F 0.8) (I 2));
    (7, 4, Goto (F 0.9) (F (-0.9)) (F 0.8) (I 2));

    (9, 0, Goto (F (-0.4)) (F 0.4) (F 0.5) (I 2));
    (9, 2, Goto (F 0.4) (F (-0.4)) (F 0.5) (I 2));
    (9, 3, Goto (F 0.9) (F 0.9) (F 0.8) (I 2));
    (9, 4, Goto (F (-0.9)) (F (-0.9)) (F 0.8) (I 2));

    (11, 0, Goto (F (-0.4)) (F (-0.4)) (F 0.5) (I 2));
    (11, 2, Goto (F 0.4) (F 0.4) (F 0.5) (I 2));
    (11, 3, Goto (F 0.9) (F (-0.9)) (F 0.8) (I 2));
    (11, 4, Goto (F (-0.9)) (F 0.9) (F 0.8) (I 2));

    (13, 0, Goto (F (-0.4)) (F (-0.4)) (F 0.5) (I 3));
    (13, 2, Goto (F 0.4) (F 0.4) (F 0.5) (I 3));
    (13, 3, Goto (F (-0.9)) (F 0.9) (F 0.8) (I 3));
    (13, 4, Goto (F 0.9) (F (-0.9)) (F 0.8) (I 3));

    (16, 0, Goto (I 0) (F (-0.4)) (F 0.5) (I 2));
    (16, 1, Goto (I 0) (I 0) (F 0.5) (I 2));
    (16, 2, Goto (I 0) (F 0.4) (F 0.5) (I 2));
    (16, 3, Goto (I 0) (F 0.9) (F 0.5) (I 2));
    (16, 4, Goto (I 0) (F (-0.9)) (F 0.5) (I 2));

    (18, 0, Land (I 2));
    (18, 2, Land (I 2));
    (18, 3, Land (I 2));
    (18, 4, Land (I 2));

    (18, 5, Takeoff (F 0.4) (I 2));
    (18, 6, Takeoff (F 0.4) (I 2));
    (18, 7, Takeoff (F 0.4) (I 2));
    (18, 8, Takeoff (F 0.4) (I 2));

    (19, 1, Goto (I 0) (I 0) (F 1.2) (I 1));

    (20, 5, Helix (F 1.5) (F 0.3) (F 1.3) (I 0) (I 10) (I 30) (I 3));
    (20, 6, Helix (F 1.5) (F 0.5) (F 1.5) (F (pi / 2)) (I 10) (I 30) (I 3));
    (20, 7, Helix (F 1.5) (F 0.7) (F 1.7) (F pi) (I 10) (I 30) (I 3));
    (20, 8, Helix (F 1.5) (F 0.9) (F 1.9) (F (3 * pi / 2)) (I 10) (I 30) (I 3));

    (34, 1, Goto (I 0) (I 0) (F 0.5) (I 2));
    (34, 5, Goto (F 0.4) (I 0) (F 0.5) (I 2));
    (34, 6, Goto (F 0.9) (I 0) (F 0.5) (I 2));
    (34, 7, Goto (F (-0.4)) (I 0) (F 0.5) (I 2));
    (34, 8, Goto (F (-0.9)) (I 0) (F 0.5) (I 2));

    (36, 1, Land (I 2));
    (36, 5, Land (I 2));
    (36, 6, Land (I 2));
    (36, 7, Land (I 2));
    (36, 8, Land (I 2)) ].

End Choreography.

(** ** Data for examples *)

Module Examples.

(** The end-to-end scenario of the specification: two agents take off at
    step 0 and land at step 2. *)
Definition scenario : list entry :=
  [ (0, 0, Takeoff (PFloat 0.5) (PInt 2));
    (0, 1, Takeoff (PFloat 0.5) (PInt 2));
    (2, 0, Land (PInt 2));
    (2, 1, Land (PInt 2)) ].

(** A table whose second entry has a lower step than its first. *)
Definition out_of_order : list entry :=
  [ (5, 0, Takeoff (PFloat 0.5) (PInt 2));
    (2, 0, Land (PInt 2)) ].

(** A table whose second entry names agent 5 of two. *)
Definition unknown_agent : list entry :=
  [ (0, 0, Takeoff (PFloat 0.5) (PInt 2));
    (1, 5, Takeoff (PFloat 0.5) (PInt 2));
    (2, 0, Land (PInt 2)) ].

(** A table whose first entry names agent -1. *)
Definition negative_agent : list entry :=
  [ (0, -1, Takeoff (PFloat 0.5) (PInt 2));
    (2, 0, Land (PInt 2)) ].

(** The first Helix of the show, and one that descends from 1.5 to 0.2. *)
Definition show_helix : command :=
  Helix (PFloat 1.5) (PFloat 0.3) (PFloat 1.3) (PInt 0) (PInt 10) (PInt 30) (PInt 3).

Definition descent : command :=
  Helix (PFloat 1.5) (PFloat 1.5) (PFloat 0.2) (PInt 0) (PInt 10) (PInt 30) (PInt 3).

(** A Helix with a diameter too large for a float, one with a negative
    duration, and one with an infinite start angle. *)
Definition huge_helix : command :=
  Helix (PInt (10 ^ 400)) (PFloat 0.3) (PFloat 1.3) (PInt 0) (PInt 10) (PInt 30) (PInt 3).

Definition hasty_helix : command :=
  Helix (PFloat 1.5) (PFloat 0.3) (PFloat 1.3) (PInt 0) (PInt 10) (PInt 30) (PInt (-5)).

Definition endless_helix : command :=
  Helix (PFloat 1.5) (PFloat 0.3) (PFloat 1.3) (PFloat infinity) (PInt 10) (PInt 30) (PInt 3).

(** A Helix with a duration of 10^10 seconds, and one whose number of
    set-points is the float 30.0. *)
Definition lengthy_helix : command :=
  Helix (PFloat 1.5) (PFloat 0.3) (PFloat 1.3) (PInt 0) (PInt 10) (PInt 30) (PInt (10 ^ 10)).

Definition float_helix : command :=
  Helix (PFloat 1.5) (PFloat 0.3) (PFloat 1.3) (PInt 0) (PInt 10) (PFloat 30) (PInt 3).

(** An int of 4301 digits, the least that has no text, and a table whose
    only entry holds it. *)
Definition wordy : Z := 10 ^ 4300.

Definition wordy_table : list entry :=
  [ (0, 0, Takeoff (PInt wordy) (PInt 2)) ].

(** A table whose second entry names an agent by that int. *)
Definition wordy_agent : list entry :=
  [ (0, 0, Takeoff (PFloat 0.5) (PInt 2));
    (1, wordy, Takeoff (PFloat 0.5) (PInt 2)) ].

(** A runtime to evaluate examples with; the properties below hold for
    every runtime. This one is not libm: it takes the cosine of every
    finite angle to be 1 and its sine to be 0, gives NaN at the
    infinities and at NaN as libm does, and prints every float as [?]. *)
Definition runtime : Runtime :=
  {| libm_cos := fun x => if is_finite x then 1%float else nan;
     libm_sin := fun x => if is_finite x then 0%float else nan;
     float_str := fun _ => "?"%string |}.

End Examples.

(** ** Start-up of the program and of a worker *)

Module Startup.
Import Worker.

(** [activate_high_level_commander(scf)] *)
Definition activate_high_level_commander : act unit :=
  do (param_set_value "commander.enHighLevel" "1").

(** [l.index(x)] for a list of strings: the position of the first element
    equal to [x], [ValueError] when there is none. *)
Fixpoint list_index (x : string) (l : list string) : result nat :=
  match l with
  | [] => Exc ValueError
  | y :: l' =>
      if String.eqb y x then Val 0%nat
      else result_bind (list_index x l') (fun k => Val (S k))
  end.

(** [controlQueues[uris.index(cf.link_uri)]], the first statement of
    [crazyflie_control]: the slot, among [queues] queues, of the queue the
    worker reads for the rest of its life. *)
Definition control_queue (uris : list string) (queues : nat) (link_uri : string)
    : result nat :=
  result_bind (list_index link_uri uris) (fun k =>
  match Scheduler.py_index queues (Z.of_nat k) with
  | Some i => Val i
  | None => Exc IndexError
  end).

Section WithRuntime.

Context `{Runtime}.

(** [crazyflie_control(scf)] from its first statement on, for the drone
    whose [cf.link_uri] is [link_uri] and which the loop knows as [uri];
    [controlQueues] holds, for every queue, the commands that are put on
    it, oldest first. *)
Definition worker (uris : list string) (controlQueues : list (list command))
    (link_uri uri : string) : list call * exit :=
  match control_queue uris (length controlQueues) link_uri with
  | Exc e => ([], Died e)
  | Val i =>
      match controlQueues !! i with
      | Some control => crazyflie_control uri control
      | None => ([], Died IndexError)
      end
  end.

End WithRuntime.

End Startup.

(** ** What a log of the scheduler shows of its clock *)

Module Trace.
Import Scheduler.

(** The clock values a log prints, in order. *)
Definition printed_steps (evs : list event) : list Z :=
  omap (fun ev => match ev with PrintStep s => Some s | _ => None end) evs.

(** The seconds a log sleeps, in total. *)
Definition slept (evs : list event) : Z :=
  foldr (fun ev total => match ev with Sleep s => s + total | _ => total end) 0 evs.

End Trace.

(** ** What the calls of a worker show of the parameters it writes *)

Module Calls.
Import Worker.

(** The names of the parameters a list of calls writes, in order. *)
Definition parameters_written (cs : list call) : list string :=
  omap (fun c => match c with param_set_value name _ => Some name | _ => None end) cs.

End Calls.

(** ** More data for examples *)

Module MoreExamples.

(** A table that uses the reserved [Quit]: agent 0 gets it between its
    take-off and its landing. *)
Definition early_quit : list entry :=
  [ (0, 0, Takeoff (PFloat 0.5) (PInt 2));
    (1, 0, Quit);
    (2, 0, Land (PInt 2)) ].

(** A table with steps out of order and a negative step. *)
Definition shuffled : list entry :=
  [ (-3, 0, Takeoff (PFloat 0.5) (PInt 2));
    (4, 1, Takeoff (PFloat 0.5) (PInt 2));
    (2, 0, Land (PInt 2));
    (6, 1, Land (PInt 2)) ].

(** Two drones configured with the same uri, and a third. *)
Definition shared_uris : list string := ["radio://a"; "radio://a"; "radio://b"]%string.

End MoreExamples.

(** * Properties of the scheduler *)

Module SchedulerFacts.
Import Scheduler.
Local Open Scope prog_scope.

Lemma py_index_lt len i k : py_index len i = Some k -> (k < len)%nat.
Proof.
  unfold py_index. intros H.
  destruct (0 <=? i) eqn:H0, (i <? Z.of_nat len) eqn:H1; simpl in H;
    try (destruct ((- Z.of_nat len <=? i) && (i <? 0)) eqn:H2; simpl in H;
         [apply andb_prop in H2 as [H2 H3]|]);
    simplify_eq; lia.
Qed.

Lemma py_index_nonneg len i :
  0 <= i < Z.of_nat len -> py_index len i = Some (Z.to_nat i).
Proof.
  intros [H0 H1]. unfold py_index.
  apply Z.leb_le in H0. apply Z.ltb_lt in H1. by rewrite H0, H1.
Qed.

Lemma py_index_None len i :
  py_index len i = None <-> i < - Z.of_nat len \/ Z.of_nat len <= i.
Proof.
  unfold py_index.
  destruct (0 <=? i) eqn:H0, (i <? Z.of_nat len) eqn:H1,
    (- Z.of_nat len <=? i) eqn:H2, (i <? 0) eqn:H3; simpl; split; intros H;
    try done; lia.
Qed.

Lemma deliver_length es qs : length (deliver es qs) = length qs.
Proof.
  revert qs. induction es as [|e es IH]; intros qs; [done|].
  simpl. rewrite IH. destruct (slot (length qs) e); [|done].
  by rewrite length_alter.
Qed.

Lemma deliver_cons e es qs :
  deliver (e :: es) qs =
  deliver es (match slot (length qs) e with
              | Some i => alter (fun q => q ++ [entry_command e]) i qs
              | None => qs
              end).
Proof. done. Qed.

Lemma deliver_app es1 es2 qs :
  deliver (es1 ++ es2) qs = deliver es2 (deliver es1 qs).
Proof. unfold deliver. by rewrite foldl_app. Qed.

Lemma deliver_lookup es qs a q :
  qs !! a = Some q ->
  deliver es qs !! a = Some (q ++ commands_for (length qs) a es).
Proof.
  revert qs q. induction es as [|e es IH]; intros qs q Hq.
  { simpl. by rewrite app_nil_r. }
  rewrite deliver_cons. unfold commands_for. rewrite filter_cons.
  destruct (slot (length qs) e) as [i|] eqn:Hs.
  - destruct (decide (i = a)) as [->|Hne].
    + erewrite IH; last by rewrite list_lookup_alter_eq, Hq.
      rewrite length_alter. rewrite decide_True by done.
      simpl. by rewrite <- app_assoc.
    + erewrite IH; last by rewrite list_lookup_alter_ne, Hq.
      rewrite length_alter. rewrite decide_False by congruence. done.
  - erewrite IH by done. rewrite decide_False by congruence. done.
Qed.

Lemma dispatch_events_app agents es1 es2 :
  dispatch_events agents (es1 ++ es2) =
  dispatch_events agents es1 ++ dispatch_events agents es2.
Proof. unfold dispatch_events. by rewrite flat_map_app. Qed.

Lemma dispatch_log_events agents cur disp tl :
  dispatch_log cur (dispatch_events agents disp ++ tl) =
  map (fun e => (cur, default 0%nat (slot agents e), entry_command e)) disp
    ++ dispatch_log cur tl.
Proof.
  induction disp as [|e disp IH]; [done|].
  unfold dispatch_events in *. simpl. by rewrite IH.
Qed.

Lemma timed_due agents t disp rest :
  Forall (fun e => entry_step e <= t) disp ->
  timed agents t (disp ++ rest) =
  map (fun e => (t, default 0%nat (slot agents e), entry_command e)) disp
    ++ timed agents t rest.
Proof.
  induction 1 as [|e disp He _ IH]; [done|].
  simpl. rewrite Z.max_l by done. by rewrite IH.
Qed.

Lemma timed_not_due agents t e es :
  t < entry_step e ->
  timed agents t (e :: es) = timed agents (t + 1) (e :: es).
Proof. intros Hlt. simpl. by rewrite !Z.max_r by lia. Qed.

Lemma last_step_cons e es : entry_step e <= last_step (e :: es).
Proof. unfold last_step. simpl. lia. Qed.

Lemma last_step_app es1 es2 : last_step es2 <= last_step (es1 ++ es2).
Proof.
  induction es1 as [|e es1 IH]; [simpl; lia|].
  unfold last_step in *. simpl. lia.
Qed.

Lemma last_step_nonneg es : 0 <= last_step es.
Proof. induction es as [|e es IH]; unfold last_step in *; simpl; lia. Qed.

Section Loops.

Variable sequence : list entry.

Lemma sequence_at_middle pre e rest qs :
  sequence = pre ++ e :: rest ->
  sequence_at sequence (length pre) qs = ([], qs, Ok e).
Proof.
  intros ->. unfold sequence_at. by rewrite list_lookup_middle.
Qed.

(** One evaluation of the inner loop's condition and body, with the cursor
    on entry [e]. *)
Lemma inner_while_step fuel pre e rest step qs :
  sequence = pre ++ e :: rest ->
  inner_while sequence (S fuel) (length pre) step qs =
    if entry_step e <=? step then
      if announced e then
        match slot (length qs) e with
        | None => ([PrintRunning (entry_command e) (entry_cf_id e)], qs, Raise IndexError)
        | Some i =>
            let qs1 := alter (fun q => q ++ [entry_command e]) i qs in
            match rest with
            | [] => ([PrintRunning (entry_command e) (entry_cf_id e);
                      QueuePut i (entry_command e); PrintEnd], qs1,
                     Ok (length sequence, true))
            | _ :: _ =>
                match inner_while sequence fuel (S (length pre)) step qs1 with
                | (evs, qs', r) =>
                    (PrintRunning (entry_command e) (entry_cf_id e)
                       :: QueuePut i (entry_command e) :: evs, qs', r)
                end
            end
        end
      else ([], qs, Raise ValueError)
    else ([], qs, Ok (length pre, false)).
Proof.
  intros Hseq. cbn [inner_while]. unfold bind at 1.
  rewrite (sequence_at_middle pre e rest qs Hseq).
  destruct (entry_step e <=? step); [|done].
  unfold bind at 1, print_running at 1. fold (announced e).
  destruct (announced e); [|done]. unfold emit at 1.
  unfold bind at 1, queue_put at 1.
  fold (slot (length qs) e).
  destruct (slot (length qs) e) as [i|]; [|done].
  assert (Hlen : length sequence = (length pre + S (length rest))%nat).
  { rewrite Hseq, length_app. done. }
  destruct rest as [|e' rest'].
  - assert (Hend : (length sequence <=? S (length pre))%nat = true).
    { apply Nat.leb_le. simpl in Hlen. lia. }
    rewrite Hend. unfold bind, emit, ret. simpl.
    do 3 f_equal. simpl in Hlen. lia.
  - assert (Hend : (length sequence <=? S (length pre))%nat = false).
    { apply Nat.leb_gt. simpl in Hlen. lia. }
    rewrite Hend. simpl.
    by destruct (inner_while sequence fuel (S (length pre)) step _) as [[? ?] [?|?|]].
Qed.

(** One pass of the inner loop over the entries that are left: it
    dispatches a run [disp] of due entries that are announced and address
    a queue, and then either reaches the end of the table, meets an entry
    that is not due yet, fails on an entry whose agent id addresses no
    queue, or fails on an entry that it cannot announce. *)
Lemma inner_while_spec rest : forall pre step qs fuel,
  sequence = pre ++ rest ->
  rest <> [] ->
  (length rest <= fuel)%nat ->
  exists disp rest',
    rest = disp ++ rest' /\
    Forall (fun e => entry_step e <= step /\ announced e = true /\
                     addressable (length qs) e) disp /\
    ((rest' = [] /\
      inner_while sequence fuel (length pre) step qs =
        (dispatch_events (length qs) disp ++ [PrintEnd], deliver disp qs,
         Ok (length sequence, true)))
     \/ (exists e r, rest' = e :: r /\ step < entry_step e /\
         inner_while sequence fuel (length pre) step qs =
           (dispatch_events (length qs) disp, deliver disp qs,
            Ok (length (pre ++ disp), false)))
     \/ (exists e r, rest' = e :: r /\ entry_step e <= step /\
         announced e = true /\ ~ addressable (length qs) e /\
         inner_while sequence fuel (length pre) step qs =
           (dispatch_events (length qs) disp ++
              [PrintRunning (entry_command e) (entry_cf_id e)],
            deliver disp qs, Raise IndexError))
     \/ (exists e r, rest' = e :: r /\ entry_step e <= step /\
         announced e = false /\
         inner_while sequence fuel (length pre) step qs =
           (dispatch_events (length qs) disp, deliver disp qs, Raise ValueError))).
Proof.
  induction rest as [|e rest IH]; intros pre step qs fuel Hseq Hne Hfuel; [done|].
  destruct fuel as [|fuel]; [simpl in Hfuel; lia|].
  simpl in Hfuel.
  rewrite (inner_while_step fuel pre e rest step qs Hseq).
  destruct (entry_step e <=? step) eqn:Hstep.
  2:{ exists [], (e :: rest). split; [done|]. split; [constructor|].
      right; left. exists e, rest. rewrite app_nil_r.
      split; [done|]. split; [lia|]. done. }
  apply Z.leb_le in Hstep.
  destruct (announced e) eqn:Hann.
  2:{ exists [], (e :: rest). split; [done|]. split; [constructor|].
      right; right; right. exists e, rest. done. }
  destruct (slot (length qs) e) as [i|] eqn:Hslot.
  2:{ exists [], (e :: rest). split; [done|]. split; [constructor|].
      right; right; left. exists e, rest.
      split; [done|]. split; [done|]. split; [done|]. split; [|done].
      unfold addressable. rewrite Hslot. by intros [? ?]. }
  cbv zeta.
  set (qs1 := alter (fun q => q ++ [entry_command e]) i qs).
  assert (Hlen1 : length qs1 = length qs) by apply length_alter.
  assert (Hdel : forall disp, deliver (e :: disp) qs = deliver disp qs1).
  { intros disp. rewrite deliver_cons. by rewrite Hslot. }
  assert (Hev : forall disp, dispatch_events (length qs) (e :: disp) =
            PrintRunning (entry_command e) (entry_cf_id e)
              :: QueuePut i (entry_command e) :: dispatch_events (length qs) disp).
  { intros disp. unfold dispatch_events. simpl. by rewrite Hslot. }
  assert (Hadd : entry_step e <= step /\ announced e = true /\ addressable (length qs) e).
  { split; [done|]. split; [done|]. unfold addressable. by rewrite Hslot. }
  destruct rest as [|e' rest'].
  - exists [e], []. split; [done|]. split; [by constructor|].
    left. split; [done|]. rewrite Hdel, Hev. done.
  - destruct (IH (pre ++ [e]) step qs1 fuel) as (disp & rest1 & Hsplit & Hall & Hcases).
    { by rewrite <- app_assoc. }
    { done. }
    { lia. }
    assert (Hptr : length (pre ++ [e]) = S (length pre)).
    { rewrite length_app. simpl. lia. }
    rewrite Hptr in Hcases. rewrite Hlen1 in Hall, Hcases.
    exists (e :: disp), rest1. split; [by rewrite Hsplit|].
    split; [by constructor|].
    rewrite Hdel, Hev.
    destruct Hcases as [[-> Hrun] | [(e1 & r1 & -> & Hlt & Hrun)
      | [(e1 & r1 & -> & Hle & Ha1 & Hbad & Hrun) | (e1 & r1 & -> & Hle & Ha1 & Hrun)]]];
      rewrite Hrun.
    + left. done.
    + right; left. exists e1, r1. split; [done|]. split; [done|].
      replace (length (pre ++ e :: disp)) with (length ((pre ++ [e]) ++ disp)); [done|].
      by rewrite <- app_assoc.
    + right; right; left. exists e1, r1. done.
    + right; right; right. exists e1, r1. done.
Qed.

(** One evaluation of the outer loop's condition and body. *)
Lemma outer_while_step fuel pointer step qs :
  outer_while sequence (S fuel) pointer step false qs =
    if Py.int_prints step then
      match inner_while sequence (S (length sequence)) pointer step qs with
      | (evs, qs', Ok (pointer', stop)) =>
          match outer_while sequence fuel pointer' (step + 1) stop qs' with
          | (evs', qs'', r) =>
              (PrintStep step :: evs ++ Sleep STEP_TIME :: evs', qs'', r)
          end
      | (evs, qs', Raise e) => (PrintStep step :: evs, qs', Raise e)
      | (evs, qs', OutOfFuel) => (PrintStep step :: evs, qs', OutOfFuel)
      end
    else ([], qs, Raise ValueError).
Proof.
  cbn [outer_while]. unfold bind at 1, print_step at 1.
  destruct (Py.int_prints step); [|done]. unfold emit at 1. unfold bind at 1.
  destruct (inner_while sequence (S (length sequence)) pointer step qs)
    as [[evs qs'] [[pointer' stop]|e|]]; [|done..].
  unfold bind at 1, emit at 1.
  by destruct (outer_while sequence fuel pointer' (step + 1) stop qs')
    as [[evs' qs''] [?|?|]].
Qed.

Lemma outer_while_stopped fuel pointer step qs :
  outer_while sequence (S fuel) pointer step true qs = ([], qs, Ok tt).
Proof. done. Qed.

(** A step that is printed is below the limit, and so is whatever is due
    at it. *)
Lemma int_prints_nonneg step :
  0 <= step -> Py.int_prints step = (step <? Py.str_limit).
Proof. intros Hs. unfold Py.int_prints. by rewrite Z.abs_eq. Qed.

Lemma in_time_due step e :
  0 <= step -> Py.int_prints step = true -> entry_step e <= step ->
  in_time step e = true.
Proof.
  intros Hs Hp He. rewrite int_prints_nonneg in Hp by done.
  unfold in_time. rewrite Z.max_l by done. done.
Qed.

Lemma in_time_earlier step e :
  in_time (step + 1) e = true -> in_time step e = true.
Proof. unfold in_time. rewrite !Z.ltb_lt. lia. Qed.

(** The scheduler loop from any cursor and clock value, with fuel for all
    the ticks up to the last step: it dispatches the entries [disp] that
    are left and that it reaches in time, announces and can enqueue, each
    at the tick [timed] gives it, and then either has reached the end of
    the table, or fails on the first entry that addresses no queue, or
    fails on the first entry whose step or whose announcement it cannot
    print. *)
Lemma outer_while_spec fuel : forall pre rest step qs,
  sequence = pre ++ rest ->
  rest <> [] ->
  0 <= step ->
  (Z.to_nat (last_step rest - step) + 2 <= fuel)%nat ->
  exists evs disp rest',
    rest = disp ++ rest' /\
    Forall (fun e => in_time step e = true /\ announced e = true /\
                     addressable (length qs) e) disp /\
    (forall cur, dispatch_log cur evs = timed (length qs) step disp) /\
    ((rest' = [] /\
      outer_while sequence fuel (length pre) step false qs =
        (evs, deliver disp qs, Ok tt))
     \/ (exists e r, rest' = e :: r /\ in_time step e = true /\
         announced e = true /\ ~ addressable (length qs) e /\
         outer_while sequence fuel (length pre) step false qs =
           (evs, deliver disp qs, Raise IndexError))
     \/ (exists e r, rest' = e :: r /\
         (in_time step e = false \/ announced e = false) /\
         outer_while sequence fuel (length pre) step false qs =
           (evs, deliver disp qs, Raise ValueError))).
Proof.
  induction fuel as [|fuel IH]; intros pre rest step qs Hseq Hne Hstep Hfuel; [lia|].
  rewrite outer_while_step.
  destruct (Py.int_prints step) eqn:Hprint.
  2:{ destruct rest as [|e r]; [done|].
      exists [], [], (e :: r). split; [done|]. split; [constructor|]. split; [done|].
      right; right. exists e, r. split; [done|]. split; [|done].
      left. rewrite int_prints_nonneg in Hprint by done.
      unfold in_time. apply Z.ltb_ge. apply Z.ltb_ge in Hprint. lia. }
  destruct (inner_while_spec rest pre step qs (S (length sequence)))
    as (disp & rest' & Hsplit & Hall & Hcases); [done|done| |].
  { rewrite Hseq, length_app. lia. }
  assert (Hdue : Forall (fun e => entry_step e <= step) disp).
  { eapply Forall_impl; [exact Hall|]. by intros e (? & ? & ?). }
  assert (Hadd : Forall (fun e => in_time step e = true /\ announced e = true /\
                                  addressable (length qs) e) disp).
  { eapply Forall_impl; [exact Hall|]. intros e (? & ? & ?).
    split; [by apply in_time_due|done]. }
  destruct Hcases as [[-> Hrun] | [(e1 & r1 & -> & Hlt & Hrun)
    | [(e1 & r1 & -> & Hle & Ha1 & Hbad & Hrun) | (e1 & r1 & -> & Hle & Ha1 & Hrun)]]];
    rewrite Hrun.
  - (* end of the table *)
    destruct fuel as [|fuel]; [lia|]. rewrite outer_while_stopped.
    eexists _, disp, []. split; [done|]. split; [done|]. split; [|by left].
    intros cur. simpl. rewrite <- app_assoc, dispatch_log_events. simpl.
    rewrite <- (app_nil_r disp) at 2. rewrite timed_due by done.
    by rewrite !app_nil_r.
  - (* the next entry is not due yet: tick *)
    assert (Hlast : entry_step e1 <= last_step rest).
    { rewrite Hsplit. etrans; [apply last_step_cons|apply last_step_app]. }
    assert (Hlast' : last_step (e1 :: r1) <= last_step rest).
    { rewrite Hsplit. apply last_step_app. }
    destruct (IH (pre ++ disp) (e1 :: r1) (step + 1) (deliver disp qs))
      as (evs' & disp' & rest'' & Hsplit' & Hadd' & Hlog' & Hcases').
    { by rewrite <- app_assoc, <- Hsplit. }
    { done. }
    { lia. }
    { pose proof (last_step_cons e1 r1). lia. }
    rewrite deliver_length in Hadd', Hlog', Hcases'.
    assert (Hadd'' : Forall (fun e => in_time step e = true /\ announced e = true /\
                                      addressable (length qs) e) disp').
    { eapply Forall_impl; [exact Hadd'|]. intros e (? & ? & ?).
      split; [by apply in_time_earlier|done]. }
    assert (Htimed : timed (length qs) step (disp ++ disp') =
              map (fun e => (step, default 0%nat (slot (length qs) e), entry_command e)) disp
                ++ timed (length qs) (step + 1) disp').
    { rewrite timed_due by done. f_equal.
      destruct disp' as [|d disp']; [done|].
      simpl in Hsplit'. injection Hsplit' as <- _.
      by apply timed_not_due. }
    assert (Hlog : forall evs1 cur,
              dispatch_log cur (PrintStep step :: dispatch_events (length qs) disp
                                  ++ Sleep STEP_TIME :: evs1) =
              map (fun e => (step, default 0%nat (slot (length qs) e), entry_command e)) disp
                ++ dispatch_log step evs1).
    { intros evs1 cur. simpl. by rewrite dispatch_log_events. }
    destruct Hcases' as [[-> Hrun'] | [(e2 & r2 & -> & Hin2 & Ha2 & Hbad & Hrun')
                                      | (e2 & r2 & -> & Hno & Hrun')]]; rewrite Hrun'.
    + eexists _, (disp ++ disp'), []. split.
      { by rewrite Hsplit, Hsplit', !app_nil_r. }
      split; [by apply Forall_app|]. split.
      { intros cur. by rewrite Hlog, Hlog', Htimed. }
      left. split; [done|]. by rewrite deliver_app.
    + eexists _, (disp ++ disp'), (e2 :: r2). split.
      { by rewrite Hsplit, Hsplit', app_assoc. }
      split; [by apply Forall_app|]. split.
      { intros cur. by rewrite Hlog, Hlog', Htimed. }
      right; left. exists e2, r2. split; [done|].
      split; [by apply in_time_earlier|]. split; [done|]. split; [done|].
      by rewrite deliver_app.
    + eexists _, (disp ++ disp'), (e2 :: r2). split.
      { by rewrite Hsplit, Hsplit', app_assoc. }
      split; [by apply Forall_app|]. split.
      { intros cur. by rewrite Hlog, Hlog', Htimed. }
      right; right. exists e2, r2. split; [done|].
      split; [|by rewrite deliver_app].
      destruct Hno as [Hno|Hno]; [left|by right].
      unfold in_time in *. apply Z.ltb_ge. apply Z.ltb_ge in Hno.
      destruct disp' as [|d disp'].
      * simpl in Hsplit'. injection Hsplit' as <- _. lia.
      * apply Forall_cons in Hadd' as [(Hd & _) _].
        apply Z.ltb_lt in Hd. lia.
  - (* an entry that addresses no queue *)
    eexists _, disp, (e1 :: r1). split; [done|]. split; [done|]. split.
    2:{ right; left. exists e1, r1. split; [done|].
        split; [by apply in_time_due|]. done. }
    intros cur. simpl. rewrite dispatch_log_events. simpl.
    rewrite <- (app_nil_r disp) at 2. rewrite timed_due by done.
    done.
  - (* an entry that cannot be announced *)
    eexists _, disp, (e1 :: r1). split; [done|]. split; [done|]. split.
    2:{ right; right. exists e1, r1. split; [done|]. split; [by right|done]. }
    intros cur. simpl.
    rewrite <- (app_nil_r (dispatch_events _ disp)), dispatch_log_events.
    rewrite <- (app_nil_r disp) at 2. rewrite timed_due by done.
    done.
Qed.

End Loops.

(** The first entry that cannot be delivered is where a split of the
    table into deliverable entries and a rest must fall. *)
Lemma first_bad_unique {A} (P : A -> Prop) disp : forall pre rest bad post,
  disp ++ rest = pre ++ bad :: post ->
  Forall P disp -> Forall P pre -> ~ P bad ->
  (rest = [] \/ exists e r, rest = e :: r /\ ~ P e) ->
  disp = pre /\ rest = bad :: post.
Proof.
  induction disp as [|d disp IH]; intros pre rest bad post Heq Hd Hp Hbad Hrest.
  - simpl in Heq. subst rest. destruct pre as [|p pre]; [done|].
    destruct Hrest as [?|(e & r & Heq & He)]; [done|].
    injection Heq as <- _. by inversion Hp.
  - destruct pre as [|p pre].
    + simpl in Heq. injection Heq as -> _. by inversion Hd.
    + simpl in Heq. injection Heq as -> Heq.
      inversion Hd; inversion Hp; subst.
      destruct (IH pre rest bad post) as [-> ->]; done.
Qed.

(** The scheduler loop on a table: it delivers the longest run [disp] of
    deliverable entries the table starts with, and ends normally when
    that is the whole table; otherwise it dies at the entry [e] behind
    [disp], of an [IndexError] when [e] is reached and announced and
    addresses no queue, of a [ValueError] when a step on the way to [e]
    or the announcement of [e] cannot be printed. *)
Lemma clock_loop_spec sequence qs :
  sequence <> [] ->
  exists evs disp rest' out,
    sequence = disp ++ rest' /\
    Forall (deliverable (length qs)) disp /\
    (forall cur, dispatch_log cur evs = timed (length qs) 0 disp) /\
    clock_loop sequence qs = (evs, deliver disp qs, out) /\
    ((rest' = [] /\ out = Ok tt)
     \/ (exists e r, rest' = e :: r /\ in_time 0 e = true /\
         announced e = true /\ ~ addressable (length qs) e /\
         out = Raise IndexError)
     \/ (exists e r, rest' = e :: r /\
         (in_time 0 e = false \/ announced e = false) /\
         out = Raise ValueError)).
Proof.
  intros Hne. unfold clock_loop.
  destruct (outer_while_spec sequence (Z.to_nat (last_step sequence) + 2)
              [] sequence 0 qs) as (evs & disp & rest' & Hsplit & Hall & Hlog & Hcases);
    [done|done|done|rewrite Z.sub_0_r; lia|].
  simpl length in Hcases.
  destruct Hcases as [[-> Hrun] | [(e & r & -> & Hin & Ha & Hbad & Hrun)
                                  | (e & r & -> & Hno & Hrun)]];
    rewrite Hrun; exists evs, disp; eexists _, _;
    (split; [done|]); (split; [done|]); (split; [done|]); (split; [done|]).
  - by left.
  - right; left. by exists e, r.
  - right; right. by exists e, r.
Qed.

(** An entry at which the loop dies is not deliverable. *)
Lemma not_deliverable_unaddressable agents e :
  ~ addressable agents e -> ~ deliverable agents e.
Proof. by intros Hbad (_ & _ & ?). Qed.

Lemma not_deliverable_unprinted agents e :
  in_time 0 e = false \/ announced e = false -> ~ deliverable agents e.
Proof. intros [Hno|Hno] (Hin & Ha & _); congruence. Qed.

(** A non-empty table whose entries are all deliverable: the loop
    dispatches every entry, then every queue gets its [Quit]. *)
Lemma control_thread_deliverable sequence qs :
  sequence <> [] ->
  Forall (deliverable (length qs)) sequence ->
  exists evs,
    (forall cur, dispatch_log cur evs = timed (length qs) 0 sequence) /\
    clock_loop sequence qs = (evs, deliver sequence qs, Ok tt) /\
    control_thread sequence qs =
      (evs ++ map (fun i => QueuePut i Quit) (seq 0 (length qs)),
       map (fun q => q ++ [Quit]) (deliver sequence qs), Ok tt).
Proof.
  intros Hne Hall.
  destruct (clock_loop_spec sequence qs Hne)
    as (evs & disp & rest' & out & Hsplit & Hadd & Hlog & Hrun & Hcases).
  assert (Hhead : forall e r, rest' = e :: r -> deliverable (length qs) e).
  { intros e r ->. rewrite Hsplit in Hall.
    apply Forall_app in Hall as [_ Hall]. by inversion Hall. }
  destruct Hcases as [[-> ->] | [(e & r & Hr & _ & _ & Hbad & _) | (e & r & Hr & Hno & _)]].
  - rewrite app_nil_r in Hsplit. subst disp. exists evs.
    split; [done|]. split; [done|].
    unfold control_thread, bind. rewrite Hrun. unfold put_quit_all.
    by rewrite deliver_length.
  - exfalso. by apply (not_deliverable_unaddressable (length qs) e Hbad), (Hhead e r).
  - exfalso. by apply (not_deliverable_unprinted (length qs) e Hno), (Hhead e r).
Qed.

(** A table whose first entry that is not deliverable is reached and
    announced but addresses no queue: the entries before it are
    dispatched, then the thread dies of an [IndexError]; no [Quit] is
    put. *)
Lemma control_thread_unaddressable pre bad post qs :
  Forall (deliverable (length qs)) pre ->
  in_time 0 bad = true -> announced bad = true ->
  ~ addressable (length qs) bad ->
  exists evs,
    (forall cur, dispatch_log cur evs = timed (length qs) 0 pre) /\
    clock_loop (pre ++ bad :: post) qs = (evs, deliver pre qs, Raise IndexError) /\
    control_thread (pre ++ bad :: post) qs = (evs, deliver pre qs, Raise IndexError).
Proof.
  intros Hpre Hin Ha Hbad.
  destruct (clock_loop_spec (pre ++ bad :: post) qs)
    as (evs & disp & rest' & out & Hsplit & Hadd & Hlog & Hrun & Hcases).
  { by destruct pre. }
  destruct (first_bad_unique (deliverable (length qs)) disp pre rest' bad post)
    as [-> ->]; [done|done|done|by apply not_deliverable_unaddressable| |].
  { destruct Hcases as [[-> _] | [(e & r & -> & _ & _ & He & _) | (e & r & -> & He & _)]];
      [by left|right; exists e, r..].
    - split; [done|]. by apply not_deliverable_unaddressable.
    - split; [done|]. by apply not_deliverable_unprinted. }
  exists evs. split; [done|].
  destruct Hcases as [[? _] | [(e & r & _ & _ & _ & _ & ->) | (e & r & [= <- <-] & Hno & _)]];
    [done| |destruct Hno; congruence].
  split; [done|]. unfold control_thread, bind. by rewrite Hrun.
Qed.

(** A table whose first entry that is not deliverable has a step the
    clock cannot print, or cannot be announced: the entries before it
    are dispatched, then the thread dies of a [ValueError]; no [Quit] is
    put. *)
Lemma control_thread_unprinted pre bad post qs :
  Forall (deliverable (length qs)) pre ->
  in_time 0 bad = false \/ announced bad = false ->
  exists evs,
    (forall cur, dispatch_log cur evs = timed (length qs) 0 pre) /\
    clock_loop (pre ++ bad :: post) qs = (evs, deliver pre qs, Raise ValueError) /\
    control_thread (pre ++ bad :: post) qs = (evs, deliver pre qs, Raise ValueError).
Proof.
  intros Hpre Hno.
  destruct (clock_loop_spec (pre ++ bad :: post) qs)
    as (evs & disp & rest' & out & Hsplit & Hadd & Hlog & Hrun & Hcases).
  { by destruct pre. }
  destruct (first_bad_unique (deliverable (length qs)) disp pre rest' bad post)
    as [-> ->]; [done|done|done|by apply not_deliverable_unprinted| |].
  { destruct Hcases as [[-> _] | [(e & r & -> & _ & _ & He & _) | (e & r & -> & He & _)]];
      [by left|right; exists e, r..].
    - split; [done|]. by apply not_deliverable_unaddressable.
    - split; [done|]. by apply not_deliverable_unprinted. }
  exists evs. split; [done|].
  destruct Hcases as [[? _] | [(e & r & [= <- <-] & Hin & Ha & _) | (e & r & _ & _ & ->)]];
    [done|destruct Hno; congruence|].
  split; [done|]. unfold control_thread, bind. by rewrite Hrun.
Qed.

(** The fuel of [control_thread] is never used up: the model is total. *)
Lemma control_thread_total sequence qs :
  (control_thread sequence qs).2 <> OutOfFuel.
Proof.
  destruct sequence as [|e0 es]; [done|].
  destruct (clock_loop_spec (e0 :: es) qs)
    as (evs & disp & rest' & out & _ & _ & _ & Hrun & Hcases); [done|].
  unfold control_thread, bind. rewrite Hrun.
  destruct Hcases as [[_ ->] | [(e & r & _ & _ & _ & _ & ->) | (e & r & _ & _ & ->)]]; done.
Qed.

(** With agent ids in [0, agents), the slot of an entry is its agent id. *)
Lemma slot_in_range agents e :
  0 <= entry_cf_id e < Z.of_nat agents ->
  slot agents e = Some (Z.to_nat (entry_cf_id e)).
Proof. apply py_index_nonneg. Qed.

Lemma commands_for_in_range agents a es :
  Forall (fun e => 0 <= entry_cf_id e < Z.of_nat agents) es ->
  commands_for agents a es =
  map entry_command (filter (fun e => entry_cf_id e = Z.of_nat a) es).
Proof.
  unfold commands_for. induction 1 as [|e es He _ IH]; [done|].
  rewrite !filter_cons, (slot_in_range _ _ He).
  destruct (decide (entry_cf_id e = Z.of_nat a)) as [Heq|Hne].
  - rewrite decide_True; [simpl; by rewrite IH|]. f_equal. lia.
  - rewrite decide_False; [done|]. intros [= Heq]. lia.
Qed.

Lemma fresh_queues_length agents : length (fresh_queues agents) = agents.
Proof. apply length_replicate. Qed.

Lemma fresh_queues_lookup agents a :
  (a < agents)%nat -> fresh_queues agents !! a = Some [].
Proof. intros Hlt. by apply lookup_replicate_2. Qed.

(** In a table sorted by step, the clock reaches every entry at its own
    step (or at the clock's start value when that is later). *)
Lemma timed_sorted agents es : forall t,
  StronglySorted (fun e1 e2 => entry_step e1 <= entry_step e2) es ->
  timed agents t es =
  map (fun e => (Z.max t (entry_step e), default 0%nat (slot agents e),
                 entry_command e)) es.
Proof.
  induction es as [|e es IH]; intros t Hs; [done|].
  inversion Hs as [|? ? Hs' Hle]; subst. simpl. rewrite IH by done.
  f_equal. apply map_ext_Forall. eapply Forall_impl; [exact Hle|].
  intros e' He'. simpl in He'. do 2 f_equal. lia.
Qed.

(** In any table the clock reaches an entry no earlier than its own step
    and no earlier than the step of any entry before it. *)
Lemma timed_lookup agents es : forall t j ej,
  es !! j = Some ej ->
  exists tj, timed agents t es !! j =
               Some (tj, default 0%nat (slot agents ej), entry_command ej) /\
    t <= tj /\ entry_step ej <= tj /\
    forall i ei, (i <= j)%nat -> es !! i = Some ei -> entry_step ei <= tj.
Proof.
  induction es as [|e es IH]; intros t j ej Hj; [done|].
  destruct j as [|j]; simpl in Hj.
  - injection Hj as ->. exists (Z.max t (entry_step ej)).
    split; [done|]. split; [lia|]. split; [lia|].
    intros i ei Hi Hei. assert (i = 0%nat) as -> by lia.
    simpl in Hei. injection Hei as ->. lia.
  - destruct (IH (Z.max t (entry_step e)) j ej Hj) as (tj & Hl & Ht & Hs & Hprev).
    exists tj. split; [done|]. split; [lia|]. split; [done|].
    intros i ei Hi Hei. destruct i as [|i]; simpl in Hei.
    + injection Hei as ->. lia.
    + apply (Hprev i); [lia|done].
Qed.

Lemma sorted_lookup_le es : forall i j ei ej,
  StronglySorted (fun e1 e2 => entry_step e1 <= entry_step e2) es ->
  (i <= j)%nat -> es !! i = Some ei -> es !! j = Some ej ->
  entry_step ei <= entry_step ej.
Proof.
  induction es as [|e es IH]; intros i j ei ej Hs Hij Hi Hj; [done|].
  inversion Hs as [|? ? Hs' Hle]; subst.
  destruct i as [|i], j as [|j]; simpl in Hi, Hj; simplify_eq; try lia.
  - rewrite Forall_forall in Hle. apply Hle. eapply list_elem_of_lookup_2. done.
  - apply (IH i j); [done|lia|done|done].
Qed.

(** An entry placed after an entry with a higher step is enqueued later
    than its own step, at a tick no earlier than that higher step. *)
Lemma late_dispatch agents es i j ei ej :
  (i < j)%nat -> es !! i = Some ei -> es !! j = Some ej ->
  entry_step ej < entry_step ei ->
  exists tj, timed agents 0 es !! j =
               Some (tj, default 0%nat (slot agents ej), entry_command ej) /\
    entry_step ej < tj /\ entry_step ei <= tj.
Proof.
  intros Hij Hi Hj Hlt.
  destruct (timed_lookup agents es 0 j ej Hj) as (tj & Hl & _ & _ & Hprev).
  exists tj. split; [done|].
  assert (entry_step ei <= tj) by (apply (Hprev i); [lia|done]).
  lia.
Qed.

Lemma dispatch_log_app cur evs1 evs2 :
  dispatch_log cur (evs1 ++ evs2) =
  dispatch_log cur evs1 ++ dispatch_log (clock cur evs1) evs2.
Proof.
  revert cur. induction evs1 as [|ev evs1 IH]; intros cur; [done|].
  destruct ev; simpl; by rewrite IH.
Qed.

Lemma timed_length agents t es : length (timed agents t es) = length es.
Proof. revert t. induction es as [|e es IH]; intros t; simpl; by rewrite ?IH. Qed.

(** A deliverable entry that has only such entries before it is
    enqueued, on the queue it addresses. *)
Lemma control_thread_reaches pre e post qs i :
  Forall (deliverable (length qs)) pre ->
  in_time 0 e = true -> announced e = true ->
  slot (length qs) e = Some i ->
  exists t,
    dispatch_log 0 (control_thread (pre ++ e :: post) qs).1.1 !! length pre =
      Some (t, i, entry_command e).
Proof.
  intros Hpre Hin Ha He.
  destruct (clock_loop_spec (pre ++ e :: post) qs)
    as (evs & disp & rest' & out & Hsplit & Hadd & Hlog & Hrun & Hcases);
    [by destruct pre|].
  assert (Hlook : forall k x, (k <= length pre)%nat ->
            (pre ++ e :: post) !! k = Some x -> deliverable (length qs) x).
  { intros k x Hk Hx. destruct (decide (k = length pre)) as [->|Hne].
    - rewrite list_lookup_middle in Hx by done. injection Hx as <-.
      split; [done|]. split; [done|]. unfold addressable. by rewrite He.
    - rewrite lookup_app_l in Hx by lia.
      rewrite Forall_lookup in Hpre. by apply (Hpre k). }
  assert (Hlen : (length pre < length disp)%nat).
  { destruct (decide (length pre < length disp)%nat) as [|Hge]; [done|exfalso].
    assert (Hhead : forall b r, rest' = b :: r -> deliverable (length qs) b).
    { intros b r ->. apply (Hlook (length disp)); [lia|].
      rewrite Hsplit. by apply list_lookup_middle. }
    destruct Hcases as [[-> _] | [(b & r & Hr & _ & _ & Hbad & _) | (b & r & Hr & Hno & _)]].
    - apply (f_equal length) in Hsplit.
      rewrite app_nil_r, length_app in Hsplit. simpl in Hsplit. lia.
    - by apply (not_deliverable_unaddressable (length qs) b Hbad), (Hhead b r).
    - by apply (not_deliverable_unprinted (length qs) b Hno), (Hhead b r). }
  assert (Hd : disp !! length pre = Some e).
  { rewrite <- (lookup_app_l disp rest') by done.
    rewrite <- Hsplit. by apply list_lookup_middle. }
  destruct (timed_lookup (length qs) disp 0 (length pre) e Hd) as (t & Ht & _).
  rewrite He in Ht. simpl in Ht. exists t.
  assert (Hevs : exists tl, (control_thread (pre ++ e :: post) qs).1.1 = evs ++ tl).
  { unfold control_thread, Scheduler.bind. rewrite Hrun.
    destruct out as [[]|x|]; [by eexists|exists []; by rewrite app_nil_r..]. }
  destruct Hevs as [tl ->].
  rewrite dispatch_log_app, Hlog, lookup_app_l; [done|].
  by rewrite timed_length.
Qed.

(** Entries with agent ids in [0, agents) that print are deliverable. *)
Lemma deliverable_in_range agents es :
  Forall (fun e => 0 <= entry_cf_id e < Z.of_nat agents) es ->
  Forall printed es ->
  Forall (deliverable agents) es.
Proof.
  intros Hids Hprinted. apply Forall_forall. intros e He.
  rewrite Forall_forall in Hids, Hprinted.
  destruct (Hprinted e He) as [Hin Ha]. split; [done|]. split; [done|].
  unfold addressable. rewrite slot_in_range by by apply Hids. done.
Qed.

Lemma deliverable_printed agents e : deliverable agents e -> printed e.
Proof. by intros (? & ? & _). Qed.

Lemma deliverable_intro agents e :
  printed e -> addressable agents e -> deliverable agents e.
Proof. by intros [? ?] ?. Qed.

End SchedulerFacts.

(** * Properties of binary64 rounding *)

Module FloatFacts.

Lemma digits2_size p : digits2_pos p = Pos.size p.
Proof. induction p as [p IH|p IH|]; simpl; by rewrite ?IH. Qed.

Lemma digits2_upper p : Zpos p < 2 ^ Zpos (digits2_pos p).
Proof.
  rewrite digits2_size. pose proof (Pos.size_gt p) as Hgt.
  apply Pos2Z.pos_lt_pos in Hgt. by rewrite Pos2Z.inj_pow in Hgt.
Qed.

Lemma digits2_lower p : 2 ^ Zpos (digits2_pos p) <= 2 * Zpos p.
Proof.
  rewrite digits2_size. pose proof (Pos.size_le p) as Hle.
  apply Pos2Z.pos_le_pos in Hle. by rewrite Pos2Z.inj_pow in Hle.
Qed.

(** A positive number below 2^k has at most k digits. *)
Lemma digits2_le p k : 0 <= k -> Zpos p < 2 ^ k -> Zpos (digits2_pos p) <= k.
Proof.
  intros Hk Hp. pose proof (digits2_lower p) as Hl.
  destruct (Z.le_gt_cases (Zpos (digits2_pos p)) k) as [|Hgt]; [done|].
  assert (2 ^ (k + 1) <= 2 ^ Zpos (digits2_pos p)).
  { apply Z.pow_le_mono_r; lia. }
  rewrite Z.pow_add_r in * by lia. lia.
Qed.

Lemma iter_pos_nat {A} (f : A -> A) p : forall x,
  SpecFloat.iter_pos f p x = Nat.iter (Pos.to_nat p) f x.
Proof.
  induction p as [p IH|p IH|]; intros x; cbn [SpecFloat.iter_pos].
  - rewrite !IH. rewrite <- Nat.iter_succ_r, <- Nat.iter_add. f_equal. lia.
  - rewrite !IH. rewrite <- Nat.iter_add. f_equal. lia.
  - done.
Qed.

Lemma shr_1_m mrs : 0 <= shr_m mrs -> shr_m (shr_1 mrs) = shr_m mrs / 2.
Proof.
  destruct mrs as [m r s]. simpl. intros Hm.
  destruct m as [|p|p]; [done| |lia].
  destruct p as [p|p|]; simpl.
  - rewrite Pos2Z.inj_xI. apply Z.div_unique with 1; lia.
  - rewrite Pos2Z.inj_xO. apply Z.div_unique with 0; lia.
  - done.
Qed.

Lemma shr_iter_m n : forall mrs,
  0 <= shr_m mrs -> shr_m (Nat.iter n shr_1 mrs) = shr_m mrs / 2 ^ Z.of_nat n.
Proof.
  induction n as [|n IH]; intros mrs Hm.
  - simpl. by rewrite Z.div_1_r.
  - rewrite Nat.iter_succ_r, IH, shr_1_m by (rewrite ?shr_1_m by done; try apply Z.div_pos; lia).
    rewrite Nat2Z.inj_succ, Z.pow_succ_r by lia.
    rewrite Z.div_div by lia. done.
Qed.

Lemma shr_1_even k :
  0 <= k ->
  shr_1 {| shr_m := 2 * k; shr_r := false; shr_s := false |} =
    {| shr_m := k; shr_r := false; shr_s := false |}.
Proof. intros Hk. destruct k as [|p|p]; [done|done|lia]. Qed.

Lemma shr_iter_exact n : forall k,
  0 <= k ->
  Nat.iter n shr_1 {| shr_m := k * 2 ^ Z.of_nat n; shr_r := false; shr_s := false |} =
    {| shr_m := k; shr_r := false; shr_s := false |}.
Proof.
  induction n as [|n IH]; intros k Hk.
  - simpl. by rewrite Z.mul_1_r.
  - rewrite Nat.iter_succ_r, Nat2Z.inj_succ, Z.pow_succ_r by lia.
    replace (k * (2 * 2 ^ Z.of_nat n)) with (2 * (k * 2 ^ Z.of_nat n)) by lia.
    rewrite shr_1_even by (apply Z.mul_nonneg_nonneg; lia). by apply IH.
Qed.

Lemma round_nearest_even_bounds m l :
  m <= round_nearest_even m l <= m + 1.
Proof.
  destruct l as [|[| |]]; simpl; try lia.
  destruct (Z.even m); lia.
Qed.

Lemma shr_spec mrs e n :
  shr mrs e n = (Nat.iter (Z.to_nat (Z.max 0 n)) shr_1 mrs, e + Z.max 0 n).
Proof.
  destruct n as [|p|p]; simpl.
  - by rewrite Z.add_0_r.
  - by rewrite iter_pos_nat.
  - by rewrite Z.add_0_r.
Qed.

(** Shifting out [n] bits and rounding to nearest does not exceed a bound
    that is a multiple of the new unit. *)
Lemma shr_round_le B m n :
  0 <= m -> 0 <= n -> m <= B * 2 ^ n ->
  let mrs := Nat.iter (Z.to_nat n) shr_1
               {| shr_m := m; shr_r := false; shr_s := false |} in
  0 <= round_nearest_even (shr_m mrs) (loc_of_shr_record mrs) <= B.
Proof.
  intros Hm Hn Hle mrs.
  assert (Hpow : 0 < 2 ^ n) by (apply Z.pow_pos_nonneg; lia).
  assert (Hq : shr_m mrs = m / 2 ^ n).
  { unfold mrs. rewrite shr_iter_m by done. simpl. by rewrite Z2Nat.id. }
  assert (Hq0 : 0 <= m / 2 ^ n) by (apply Z.div_pos; lia).
  assert (HqB : m / 2 ^ n <= B).
  { apply Z.div_le_upper_bound; lia. }
  pose proof (round_nearest_even_bounds (shr_m mrs) (loc_of_shr_record mrs)) as Hr.
  destruct (Z.eq_dec (m / 2 ^ n) B) as [Heq|Hne]; [|lia].
  assert (Hm' : m = B * 2 ^ n).
  { pose proof (Z.mul_div_le m (2 ^ n) Hpow). rewrite Heq in *. lia. }
  assert (Hex : mrs = {| shr_m := B; shr_r := false; shr_s := false |}).
  { unfold mrs. rewrite Hm'.
    pose proof (shr_iter_exact (Z.to_nat n) B ltac:(lia)) as Hex.
    by rewrite Z2Nat.id in Hex. }
  rewrite Hex. simpl. lia.
Qed.

Lemma fexp_le_0 d : d <= 53 -> fexp prec emax d <= 0.
Proof. unfold fexp, SpecFloat.emin, prec, emax. lia. Qed.

(** Rounding a positive value that is at most [B 2^-e], for an integer
    [B] below 2^53, gives zero or a positive float that is at most that
    bound; it does not overflow. *)
Lemma pow2_split a b : 0 <= a -> 0 <= b -> 2 ^ (a + b) = 2 ^ a * 2 ^ b.
Proof. intros. by apply Z.pow_add_r. Qed.

(** A value that is at most [B 2^-e] with [B] below 2^53 has at most
    [53 - e] digits. *)
Lemma digits_bound B m e :
  0 <= B < 2 ^ 53 -> 0 <= m -> e <= 0 -> m <= B * 2 ^ (- e) ->
  Zdigits2 m + e <= 53.
Proof.
  intros HB Hm He Hle. destruct m as [|p|p]; [simpl; lia| |lia].
  simpl. assert (Zpos (digits2_pos p) <= 53 - e); [|lia].
  apply digits2_le; [lia|].
  replace (53 - e) with (53 + - e) by lia. rewrite pow2_split by lia.
  assert (0 < 2 ^ (- e)) by (apply Z.pow_pos_nonneg; lia).
  nia.
Qed.

Lemma shr_fexp_spec m e :
  shr_fexp prec emax m e loc_Exact =
    (Nat.iter (Z.to_nat (Z.max 0 (fexp prec emax (Zdigits2 m + e) - e))) shr_1
       {| shr_m := m; shr_r := false; shr_s := false |},
     e + Z.max 0 (fexp prec emax (Zdigits2 m + e) - e)).
Proof. unfold shr_fexp. by rewrite shr_spec. Qed.

(** Rounding a positive value that is at most [B 2^-e], for an integer
    [B] below 2^53, gives zero or a positive float that is at most that
    bound; it does not overflow. *)
Lemma binary_round_aux_le B m e :
  0 <= B < 2 ^ 53 -> 0 < m -> e <= 0 -> m <= B * 2 ^ (- e) ->
  match binary_round_aux prec emax false m e loc_Exact with
  | S754_zero s => s = false
  | S754_finite s m' e' => s = false /\ e' <= 0 /\ Zpos m' <= B * 2 ^ (- e')
  | _ => False
  end.
Proof.
  intros HB Hm He Hle.
  unfold binary_round_aux. rewrite shr_fexp_spec.
  set (n1 := Z.max 0 (fexp prec emax (Zdigits2 m + e) - e)).
  set (mrs1 := Nat.iter (Z.to_nat n1) shr_1 _).
  set (m1 := round_nearest_even (shr_m mrs1) (loc_of_shr_record mrs1)).
  assert (He1 : e + n1 <= 0).
  { pose proof (fexp_le_0 _ (digits_bound B m e HB ltac:(lia) He Hle)). lia. }
  assert (Hm1 : 0 <= m1 <= B * 2 ^ (- (e + n1))).
  { apply shr_round_le; [lia|lia|].
    rewrite <- Z.mul_assoc, <- pow2_split by lia.
    by replace (- (e + n1) + n1) with (- e) by lia. }
  rewrite shr_fexp_spec.
  set (n2 := Z.max 0 (fexp prec emax (Zdigits2 m1 + (e + n1)) - (e + n1))).
  set (mrs2 := Nat.iter (Z.to_nat n2) shr_1 _).
  assert (He2 : e + n1 + n2 <= 0).
  { pose proof (fexp_le_0 _ (digits_bound B m1 (e + n1) HB ltac:(lia) He1 ltac:(lia))). lia. }
  assert (Hm2 : 0 <= shr_m mrs2 <= B * 2 ^ (- (e + n1 + n2))).
  { unfold mrs2. rewrite shr_iter_m by (simpl; lia). simpl.
    rewrite Z2Nat.id by lia.
    assert (0 < 2 ^ n2) by (apply Z.pow_pos_nonneg; lia).
    split; [apply Z.div_pos; lia|].
    apply Z.div_le_upper_bound; [lia|].
    rewrite (Z.mul_comm (2 ^ n2)), <- Z.mul_assoc, <- pow2_split by lia.
    replace (- (e + n1 + n2) + n2) with (- (e + n1)) by lia. lia. }
  destruct (shr_m mrs2) as [|p|p]; [done| |lia].
  assert (Hfin : (e + n1 + n2 <=? emax - prec) = true).
  { apply Z.leb_le. unfold emax, prec. lia. }
  rewrite Hfin. split; [done|]. split; [done|]. lia.
Qed.

Lemma canonical_lt m e :
  bounded prec emax m e = true -> Zpos m < 2 ^ 53.
Proof.
  unfold bounded, canonical_mantissa. intros Hb.
  apply andb_prop in Hb as [Hc _]. apply Z.eqb_eq in Hc.
  assert (Zpos (digits2_pos m) <= 53).
  { unfold fexp, SpecFloat.emin, prec, emax in Hc. lia. }
  pose proof (digits2_upper m).
  assert (2 ^ Zpos (digits2_pos m) <= 2 ^ 53) by (apply Z.pow_le_mono_r; lia).
  lia.
Qed.

(** A float between 0 and a positive normal float [c] is a zero or a
    positive float whose value is at most that of [c]. *)
Lemma float_between (x c : float) mc ec :
  Prim2SF c = S754_finite false mc ec ->
  2 ^ 52 <= Zpos mc ->
  (0 <=? x)%float = true -> (x <=? c)%float = true ->
  match Prim2SF x with
  | S754_zero _ => True
  | S754_finite s m e =>
      s = false /\ e <= ec /\ Zpos m <= Zpos mc * 2 ^ (ec - e)
  | _ => False
  end.
Proof.
  intros Hc Hmc H0 Hle. rewrite FloatAxioms.leb_spec in H0, Hle. rewrite Hc in Hle.
  assert (Hz : Prim2SF 0 = S754_zero false) by done. rewrite Hz in H0.
  pose proof (Prim2SF_valid x) as Hv.
  destruct (Prim2SF x) as [s|s| |s m e]; [done| | |].
  - by destruct s.
  - done.
  - destruct s; [done|]. split; [done|].
    simpl in Hv. apply canonical_lt in Hv.
    unfold SFleb, SFcompare in Hle.
    destruct (Z.compare_spec e ec) as [->|Hlt|Hgt]; [| |done].
    + split; [lia|]. rewrite Z.sub_diag, Z.mul_1_r.
      rewrite Pos.compare_cont_spec in Hle. simpl in Hle.
      destruct (Pos.compare_spec m mc); try done; lia.
    + split; [lia|].
      assert (2 ^ 1 <= 2 ^ (ec - e)) by (apply Z.pow_le_mono_r; lia).
      assert (2 ^ 53 = 2 * 2 ^ 52) by done. nia.
Qed.

(** The product of a float in [0, 255] and a float in [0, 1] is a zero or
    a positive float of value at most 255. *)
Lemma mul_channel (x y : float) :
  (0 <=? x)%float = true -> (x <=? 255)%float = true ->
  (0 <=? y)%float = true -> (y <=? 1)%float = true ->
  match Prim2SF (x * y) with
  | S754_zero _ => True
  | S754_finite s m e => s = false /\ e <= 0 /\ Zpos m <= 255 * 2 ^ (- e)
  | _ => False
  end.
Proof.
  intros Hx0 Hx Hy0 Hy.
  pose proof (float_between x 255 8972014882652160 (-45) eq_refl ltac:(done) Hx0 Hx) as Rx.
  pose proof (float_between y 1 4503599627370496 (-52) eq_refl ltac:(done) Hy0 Hy) as Ry.
  rewrite FloatAxioms.mul_spec. unfold SF64mul, SFmul.
  destruct (Prim2SF x) as [sx|sx| |sx mx ex]; [|done|done|];
    destruct (Prim2SF y) as [sy|sy| |sy my ey]; try done.
  destruct Rx as (-> & Hex & Hmx), Ry as (-> & Hey & Hmy). simpl xorb.
  pose proof (binary_round_aux_le 255 (Zpos (mx * my)) (ex + ey)) as Hr.
  destruct (binary_round_aux prec emax false (Zpos (mx * my)) (ex + ey) loc_Exact)
    as [s|s| |s m e]; [done|..]; apply Hr; try done; try lia.
  all: rewrite Pos2Z.inj_mul.
  all: replace (- (ex + ey)) with ((- 45 - ex) + 45 + (- 52 - ey) + 52) by lia.
  all: rewrite !pow2_split by lia.
  all: assert (0 < 2 ^ (- 45 - ex)) by (apply Z.pow_pos_nonneg; lia).
  all: assert (0 < 2 ^ (- 52 - ey)) by (apply Z.pow_pos_nonneg; lia).
  all: change (2 ^ 45) with 35184372088832 in *.
  all: change (2 ^ 52) with 4503599627370496 in *.
  all: nia.
Qed.

End FloatFacts.

(** * Properties of the Python arithmetic *)

Module PyFacts.
Import Py.

Lemma is_exact_bound n : Z.abs n < 2 ^ 53 -> is_exact n = true.
Proof. intros Hn. unfold is_exact. by apply Z.ltb_lt. Qed.

(** *** Conversion to [float] *)

Lemma float_of_int_exact n : is_exact n = true -> float_of_int n = Val (exact_float n).
Proof. intros Hn. unfold float_of_int. by rewrite Hn. Qed.

Lemma nearest_float_exact n : is_exact n = true -> nearest_float n = exact_float n.
Proof. intros Hn. unfold nearest_float. by rewrite Hn. Qed.

Lemma checked_val sf a : checked sf = Val a -> a = SF2Prim sf.
Proof. destruct sf; simpl; congruence. Qed.

(** A conversion that does not raise gives the nearest float. *)
Lemma float_of_int_val n a : float_of_int n = Val a -> a = nearest_float n.
Proof.
  unfold float_of_int, nearest_float. destruct (is_exact n); [congruence|].
  apply checked_val.
Qed.

Lemma to_float_val x a : to_float x = Val a -> a = as_float x.
Proof. destruct x as [n|f]; simpl; [apply float_of_int_val|congruence]. Qed.

Lemma to_float_converts x a : to_float x = Val a -> converts x.
Proof. intros Hx. unfold converts. by rewrite Hx, (to_float_val x a Hx). Qed.

Lemma converts_float f : converts (PFloat f).
Proof. done. Qed.

Lemma converts_int n : Z.abs n < 2 ^ 53 -> converts (PInt n).
Proof.
  intros Hn. apply is_exact_bound in Hn. unfold converts. simpl.
  by rewrite float_of_int_exact, nearest_float_exact.
Qed.

Lemma as_float_int n : Z.abs n < 2 ^ 53 -> as_float (PInt n) = exact_float n.
Proof. intros Hn. simpl. by apply nearest_float_exact, is_exact_bound. Qed.

(** Binary64 addition is commutative. *)
Lemma SFadd_comm x y : SF64add x y = SF64add y x.
Proof.
  unfold SF64add, SFadd.
  destruct x as [sx|sx| |sx mx ex], y as [sy|sy| |sy my ey]; try done;
    try (by destruct sx, sy).
  rewrite (Z.min_comm ex ey). f_equal. apply Z.add_comm.
Qed.

Lemma float_add_comm (a b : float) : (a + b)%float = (b + a)%float.
Proof. apply Prim2SF_inj. by rewrite !FloatAxioms.add_spec, SFadd_comm. Qed.

(** *** Arithmetic on numbers that convert *)

Lemma mul_float_l a y :
  converts y -> mul (PFloat a) y = Val (PFloat (a * as_float y)).
Proof. intros Hy. unfold mul, float_op. simpl. by rewrite Hy. Qed.

Lemma mul_float_r x b :
  converts x -> mul x (PFloat b) = Val (PFloat (as_float x * b)).
Proof. intros Hx. destruct x; unfold mul, float_op; by rewrite Hx. Qed.

Lemma add_float_l a y :
  converts y -> add (PFloat a) y = Val (PFloat (a + as_float y)).
Proof. intros Hy. unfold add, float_op. simpl. by rewrite Hy. Qed.

Lemma sub_float_r x b :
  converts x -> sub x (PFloat b) = Val (PFloat (as_float x - b)).
Proof. intros Hx. destruct x; unfold sub, float_op; by rewrite Hx. Qed.

Lemma truediv_float_r x b :
  converts x -> (b =? 0)%float = false ->
  truediv x (PFloat b) = Val (PFloat (as_float x / b)).
Proof.
  intros Hx Hb. destruct x; unfold truediv; rewrite Hx; simpl; by rewrite Hb.
Qed.

Lemma add_succ x : add x (PInt 1) = Val (succ x).
Proof. by destruct x. Qed.

Lemma exact_float_2 : exact_float 2 = 2%float.
Proof. done. Qed.

(** *** The values of operations that do not raise *)

Lemma result_bind_val {A B} (r : result A) (k : A -> result B) b :
  result_bind r k = Val b -> exists a, r = Val a /\ k a = Val b.
Proof. destruct r as [a|e]; simpl; [by exists a|done]. Qed.

Lemma float_op_val op x y v :
  float_op op x y = Val v -> v = PFloat (op (as_float x) (as_float y)).
Proof.
  unfold float_op. intros Hv.
  apply result_bind_val in Hv as (a & Ha & Hv).
  apply result_bind_val in Hv as (b & Hb & Hv).
  apply to_float_val in Ha, Hb. congruence.
Qed.

Lemma mul_float_l_val a y v :
  mul (PFloat a) y = Val v -> v = PFloat (a * as_float y).
Proof. apply (float_op_val PrimFloat.mul (PFloat a) y). Qed.

Lemma add_float_l_val a y v :
  add (PFloat a) y = Val v -> v = PFloat (a + as_float y).
Proof. apply (float_op_val PrimFloat.add (PFloat a) y). Qed.

Lemma add_float_r_val x b v :
  add x (PFloat b) = Val v -> v = PFloat (as_float x + b).
Proof. destruct x; apply (float_op_val PrimFloat.add _ (PFloat b)). Qed.

Lemma sub_float_r_val x b v :
  sub x (PFloat b) = Val v -> v = PFloat (as_float x - b).
Proof. destruct x; apply (float_op_val PrimFloat.sub _ (PFloat b)). Qed.

Lemma int_true_divide_val a b q :
  int_true_divide a b = Val q -> q = quotient a b.
Proof.
  unfold int_true_divide, quotient. destruct (is_exact a && is_exact b); [congruence|].
  apply checked_val.
Qed.

Lemma truediv_val x y v : truediv x y = Val v -> v = PFloat (ratio x y).
Proof.
  assert (Hmixed : forall x y,
            result_bind (to_float x) (fun a =>
            result_bind (to_float y) (fun b =>
            if is_zero y then Exc ZeroDivisionError else Val (PFloat (a / b)))) = Val v ->
            v = PFloat (as_float x / as_float y)).
  { intros x' y' Hv.
    apply result_bind_val in Hv as (a & Ha & Hv).
    apply result_bind_val in Hv as (b & Hb & Hv).
    apply to_float_val in Ha, Hb. destruct (is_zero y'); [done|]. congruence. }
  destruct x as [a|a], y as [b|b]; unfold truediv, ratio; try apply Hmixed.
  destruct (b =? 0); [done|]. intros Hv.
  apply result_bind_val in Hv as (q & Hq & Hv).
  apply int_true_divide_val in Hq. congruence.
Qed.

Lemma truediv_float_r_val x b v :
  truediv x (PFloat b) = Val v -> v = PFloat (as_float x / b).
Proof. intros Hv. apply truediv_val in Hv. by destruct x. Qed.

Lemma truediv_float_l_val a y v :
  truediv (PFloat a) y = Val v -> v = PFloat (a / as_float y).
Proof. intros Hv. apply truediv_val in Hv. by destruct y. Qed.

Lemma sub_val hi lo w : sub hi lo = Val w -> as_float w = span hi lo.
Proof.
  destruct hi as [a|a], lo as [b|b]; unfold sub, span;
    try (intros Hw; apply float_op_val in Hw; by subst w).
  by intros [= <-].
Qed.

(** *** Scaling and packing colour channels *)

Lemma int_of_bounded f :
  match Prim2SF f with
  | S754_zero _ => True
  | S754_finite s m e => s = false /\ e <= 0 /\ Zpos m <= 255 * 2 ^ (- e)
  | _ => False
  end ->
  exists c, int (PFloat f) = Val c /\ 0 <= c <= 255.
Proof.
  unfold int. destruct (Prim2SF f) as [s|s| |s m e]; [|done|done|].
  - intros _. exists 0. split; [done|lia].
  - intros (-> & He & Hm). exists (Z.shiftl (Zpos m) e). split; [done|].
    rewrite Z.shiftl_div_pow2 by done.
    assert (0 < 2 ^ (- e)) by (apply Z.pow_pos_nonneg; lia).
    split; [apply Z.div_pos; lia|].
    apply Z.div_le_upper_bound; lia.
Qed.

Lemma exact_channel n :
  0 <= n <= 255 ->
  (0 <=? exact_float n)%float = true /\ (exact_float n <=? 255)%float = true.
Proof.
  intros Hn.
  assert (Hall : forallb (fun k => (0 <=? exact_float (Z.of_nat k))%float
                                   && (exact_float (Z.of_nat k) <=? 255)%float)
                   (seq 0 256) = true) by (vm_compute; reflexivity).
  rewrite forallb_forall in Hall.
  specialize (Hall (Z.to_nat n)). rewrite Z2Nat.id in Hall by lia.
  apply andb_prop. apply Hall. apply in_seq. lia.
Qed.

Lemma channel_bound n : 0 <= n <= 255 -> Z.abs n < 2 ^ 53.
Proof. intros Hn. assert (255 < 2 ^ 53) by done. lia. Qed.

(** A channel scaled by an intensity and truncated is an int in
    [0, 255]. *)
Lemma scaled_channel r i :
  channel r -> unit_interval i ->
  exists c, result_bind (mul r i) int = Val c /\ 0 <= c <= 255.
Proof.
  intros Hr Hi. destruct r as [n|x], i as [k|y]; simpl in Hr, Hi.
  - exists (n * k). split; [done|nia].
  - destruct (exact_channel n Hr) as [Hn0 Hn].
    rewrite mul_float_r by (by apply converts_int, channel_bound).
    rewrite as_float_int by (by apply channel_bound).
    cbn [result_bind]. apply int_of_bounded.
    apply FloatFacts.mul_channel; tauto.
  - rewrite mul_float_l by (apply converts_int; assert (1 < 2 ^ 53) by done; lia).
    rewrite as_float_int by (assert (1 < 2 ^ 53) by done; lia).
    cbn [result_bind]. apply int_of_bounded.
    apply FloatFacts.mul_channel; try tauto;
      assert (k = 0 \/ k = 1) as [-> | ->] by lia; done.
  - unfold mul, float_op. cbn [to_float result_bind]. apply int_of_bounded.
    apply FloatFacts.mul_channel; tauto.
Qed.

Lemma lor_le_add a b : 0 <= a -> 0 <= b -> 0 <= Z.lor a b <= a + b.
Proof.
  intros Ha Hb. split; [by apply Z.lor_nonneg|].
  pose proof (Z.add_lor_land a b).
  assert (0 <= Z.land a b) by (apply Z.land_nonneg; lia). lia.
Qed.

(** Three channels packed as [(r << 16) | (g << 8) | b] make a 24-bit
    value. *)
Lemma packed_bound cr cg cb :
  0 <= cr <= 255 -> 0 <= cg <= 255 -> 0 <= cb <= 255 ->
  0 <= Z.lor (Z.lor (Z.shiftl cr 16) (Z.shiftl cg 8)) cb < 2 ^ 24.
Proof.
  intros Hr Hg Hb. rewrite !Z.shiftl_mul_pow2 by lia.
  change (2 ^ 16) with 65536. change (2 ^ 8) with 256. change (2 ^ 24) with 16777216.
  pose proof (lor_le_add (cr * 65536) (cg * 256) ltac:(lia) ltac:(lia)).
  pose proof (lor_le_add (Z.lor (cr * 65536) (cg * 256)) cb ltac:(lia) ltac:(lia)).
  lia.
Qed.

(** *** Text *)

(** An int below 2^63 in magnitude has a text. *)
Lemma int_prints_small n : Z.abs n < 2 ^ 63 -> int_prints n = true.
Proof.
  intros Hn. unfold int_prints. apply Z.ltb_lt.
  assert (Hlimit : 2 ^ 63 <= str_limit) by (apply Z.leb_le; vm_compute; reflexivity).
  lia.
Qed.

Lemma str_prints `{Runtime} x : prints x = true -> str x = Val (text x).
Proof. intros Hx. unfold str. by rewrite Hx. Qed.

Lemma str_int `{Runtime} n : Z.abs n < 2 ^ 63 -> str (PInt n) = Val (decimal n).
Proof. intros Hn. apply str_prints. by apply int_prints_small. Qed.

End PyFacts.

Module WorkerFacts.
Import Py PyFacts Worker.

(** *** Computations that do not raise *)

Lemma bind_val {A B} (m : act A) (k : A -> act B) b :
  (Worker.bind m k).2 = Val b ->
  exists a, m.2 = Val a /\ (k a).2 = Val b /\
    Worker.bind m k = (m.1 ++ (k a).1, Val b).
Proof.
  unfold Worker.bind. destruct m as [cs [a|e]]; [|done].
  destruct (k a) as [cs' r] eqn:Hk. simpl. intros ->.
  exists a. rewrite Hk. done.
Qed.

Lemma lift2_val op a b v :
  lift2 op a b = Val v -> exists x y, a = Val x /\ b = Val y /\ op x y = Val v.
Proof.
  unfold lift2. intros Hv.
  apply result_bind_val in Hv as (x & Hx & Hv).
  apply result_bind_val in Hv as (y & Hy & Hv).
  by exists x, y.
Qed.

Lemma sleep_ok x :
  Py.sleep_error x = None -> sleep x = ([time_sleep x], Val tt).
Proof. intros Hx. unfold sleep. by rewrite Hx. Qed.

Lemma sleep_val x :
  (sleep x).2 = Val tt -> sleep x = ([time_sleep x], Val tt).
Proof. unfold sleep. by destruct (Py.sleep_error x). Qed.

Lemma math_1_val func x r : math_1 func x = Val r -> r = func x.
Proof.
  unfold math_1. destruct (is_nan (func x) && negb (is_nan x)); [done|].
  destruct (is_infinity (func x) && is_finite x); [done|]. congruence.
Qed.

Section WithRuntime.
Context `{Runtime}.

Lemma cos_val x v : Py.cos x = Val v -> v = PFloat (libm_cos (as_float x)).
Proof.
  unfold Py.cos. intros Hv.
  apply result_bind_val in Hv as (a & Ha & Hv).
  apply result_bind_val in Hv as (r & Hr & Hv).
  apply to_float_val in Ha. apply math_1_val in Hr. congruence.
Qed.

Lemma sin_val x v : Py.sin x = Val v -> v = PFloat (libm_sin (as_float x)).
Proof.
  unfold Py.sin. intros Hv.
  apply result_bind_val in Hv as (a & Ha & Hv).
  apply result_bind_val in Hv as (r & Hr & Hv).
  apply to_float_val in Ha. apply math_1_val in Hr. congruence.
Qed.

Lemma cos_converts x :
  converts x -> trig_defined (as_float x) ->
  Py.cos x = Val (PFloat (libm_cos (as_float x))).
Proof. intros Hx [Hc _]. unfold Py.cos. rewrite Hx. simpl. by rewrite Hc. Qed.

Lemma sin_converts x :
  converts x -> trig_defined (as_float x) ->
  Py.sin x = Val (PFloat (libm_sin (as_float x))).
Proof. intros Hx [_ Hs]. unfold Py.sin. rewrite Hx. simpl. by rewrite Hs. Qed.

(** *** The values of the expressions of the Helix branch *)

Lemma two_pi : Py.mul (PInt 2) (PFloat Py.pi) = Val (PFloat (2 * Py.pi)).
Proof. done. Qed.

Lemma half_pi : Py.truediv (PFloat Py.pi) (PFloat 2) = Val (PFloat (Py.pi / 2)).
Proof. done. Qed.

(** [2*math.pi*counter/No_setpoints] *)
Lemma helix_turn_val n c v :
  (#(PInt 2) * #(PFloat Py.pi) * #(PInt c) / #(PInt n))%py = Val v ->
  v = PFloat (2 * Py.pi * nearest_float c / nearest_float n).
Proof.
  intros Hv. apply lift2_val in Hv as (x & y & Hx & [= <-] & Hv).
  apply lift2_val in Hx as (x' & y' & Hx' & [= <-] & Hx).
  cbn [lift2 result_bind] in Hx'. rewrite two_pi in Hx'. injection Hx' as <-.
  apply mul_float_l_val in Hx. subst x.
  apply truediv_float_l_val in Hv. by subst v.
Qed.

(** [2*math.pi*counter/No_setpoints + theta0], the angle as the code
    computes it for the position, with the summands in the other
    order. *)
Lemma helix_angle_val theta0 n c v :
  (#(PInt 2) * #(PFloat Py.pi) * #(PInt c) / #(PInt n) + #theta0)%py = Val v ->
  v = PFloat (helix_theta theta0 n c).
Proof.
  intros Hv. apply lift2_val in Hv as (x & y & Hx & [= <-] & Hv).
  apply helix_turn_val in Hx. subst x.
  apply add_float_l_val in Hv. subst v.
  unfold helix_theta. by rewrite float_add_comm.
Qed.

(** [theta0 + 2*math.pi*counter/No_setpoints - math.pi/2.0] *)
Lemma helix_yaw_val theta0 n c v :
  (#theta0 + #(PInt 2) * #(PFloat Py.pi) * #(PInt c) / #(PInt n)
   - #(PFloat Py.pi) / #(PFloat 2))%py = Val v ->
  v = PFloat (helix_theta theta0 n c - Py.pi / 2).
Proof.
  intros Hv. apply lift2_val in Hv as (x & y & Hx & Hy & Hv).
  cbn [lift2 result_bind] in Hy. rewrite half_pi in Hy. injection Hy as <-.
  apply lift2_val in Hx as (x' & y' & [= <-] & Hy' & Hx).
  apply helix_turn_val in Hy'. subst y'.
  apply add_float_r_val in Hx. subst x.
  apply sub_float_r_val in Hv. by subst v.
Qed.

(** [z + counter/No_setpoints * (zf - z)] *)
Lemma helix_height_val z zf n c v :
  (#z + #(PInt c) / #(PInt n) * (#zf - #z))%py = Val v ->
  v = PFloat (as_float z + quotient c n * span zf z).
Proof.
  intros Hv. apply lift2_val in Hv as (x & y & [= <-] & Hy & Hv).
  apply lift2_val in Hy as (q & w & Hq & Hw & Hy).
  cbn [lift2 result_bind] in Hq, Hw.
  apply truediv_val in Hq. subst q. apply sub_val in Hw.
  apply mul_float_l_val in Hy. subst y. rewrite Hw in Hv.
  apply add_float_r_val in Hv. by subst v.
Qed.

(** [d / 2.0 * trig(angle)] *)
Lemma helix_coordinate_val (trig : pynum -> result pynum) (func : float -> float)
    d (angle : result pynum) theta v :
  (forall x w, trig x = Val w -> w = PFloat (func (as_float x))) ->
  (forall a, angle = Val a -> as_float a = theta) ->
  lift2 Py.mul (#d / #(PFloat 2))%py (result_bind angle trig) = Val v ->
  v = PFloat (as_float d / 2 * func theta).
Proof.
  intros Htrig Hangle Hv.
  apply lift2_val in Hv as (x & y & Hx & Hy & Hv).
  cbn [lift2 result_bind] in Hx. apply truediv_float_r_val in Hx. subst x.
  apply result_bind_val in Hy as (a & Ha & Hy).
  apply Htrig in Hy. rewrite (Hangle a Ha) in Hy. subst y.
  apply mul_float_l_val in Hv. by subst v.
Qed.

(** *** The Helix branch when no operation raises *)

(** One pass of the sweep. *)
Lemma helix_setpoint_val d z zf theta0 period n c :
  (helix_setpoint d z zf theta0 (PInt n) (PFloat (ratio period (PInt n))) c).2 = Val tt ->
  helix_setpoint d z zf theta0 (PInt n) (PFloat (ratio period (PInt n))) c =
    ([helix_waypoint d z zf theta0 period n c;
      time_sleep (PFloat (ratio period (PInt n)))], Val tt).
Proof.
  unfold helix_setpoint. intros Hrun.
  apply bind_val in Hrun as (x & Hx & Hrun & ->).
  apply bind_val in Hrun as (y & Hy & Hrun & ->).
  apply bind_val in Hrun as (zs & Hz & Hrun & ->).
  apply bind_val in Hrun as (psi & Hpsi & Hrun & ->).
  apply bind_val in Hrun as ([] & _ & Hrun & ->).
  rewrite (sleep_val _ Hrun).
  cbn [eval snd] in Hx, Hy, Hz, Hpsi.
  apply (helix_coordinate_val Py.cos libm_cos d _ (helix_theta theta0 n c)) in Hx;
    [|apply cos_val|intros a Ha; by rewrite (helix_angle_val _ _ _ _ Ha)].
  apply (helix_coordinate_val Py.sin libm_sin d _ (helix_theta theta0 n c)) in Hy;
    [|apply sin_val|intros a Ha; by rewrite (helix_angle_val _ _ _ _ Ha)].
  apply helix_height_val in Hz. apply helix_yaw_val in Hpsi.
  subst x y zs psi. done.
Qed.

Lemma for_each_val {A} (xs : list A) (body : A -> act unit) (calls : A -> list call) :
  (forall x, (body x).2 = Val tt -> body x = (calls x, Val tt)) ->
  (for_each xs body).2 = Val tt ->
  for_each xs body = (flat_map calls xs, Val tt).
Proof.
  intros Hbody. induction xs as [|x xs IH]; [done|].
  cbn [for_each]. intros Hrun.
  apply bind_val in Hrun as ([] & Hx & Hrun & ->).
  rewrite (Hbody x Hx), (IH Hrun). done.
Qed.

Lemma range_counters n : Py.range (PInt 1) (PInt (n + 1)) = Val (counters n).
Proof. unfold Py.range, counters. by replace (n + 1 - 1) with n by lia. Qed.

(** The Helix branch with an int number of set-points, when it does not
    raise, does what the specification says. *)
Lemma helix_val d z zf theta0 period n time :
  (helix d z zf theta0 period (PInt n) time).2 = Val tt ->
  helix d z zf theta0 period (PInt n) time =
    (helix_expansion d z zf theta0 period n time, Val tt).
Proof.
  unfold helix. intros Hrun.
  apply bind_val in Hrun as (sp & Hsp & Hrun & ->).
  apply bind_val in Hrun as (x & Hx & Hrun & ->).
  apply bind_val in Hrun as (y & Hy & Hrun & ->).
  apply bind_val in Hrun as (psi & Hpsi & Hrun & ->).
  apply bind_val in Hrun as ([] & _ & Hrun & ->).
  apply bind_val in Hrun as (seconds & Hsec & Hrun & ->).
  apply bind_val in Hrun as ([] & Hsleep & Hrun & ->).
  apply bind_val in Hrun as (last & Hlast & Hrun & ->).
  apply bind_val in Hrun as (cs & Hcs & Hrun & ->).
  cbn [eval snd] in Hsp, Hx, Hy, Hpsi, Hsec, Hlast, Hcs.
  cbn [lift2 result_bind] in Hsp, Hpsi, Hsec, Hlast.
  apply truediv_val in Hsp. subst sp.
  apply (helix_coordinate_val Py.cos libm_cos d _ (as_float theta0)) in Hx;
    [|apply cos_val|by intros a [= <-]].
  apply (helix_coordinate_val Py.sin libm_sin d _ (as_float theta0)) in Hy;
    [|apply sin_val|by intros a [= <-]].
  rewrite half_pi in Hpsi. cbn [result_bind] in Hpsi.
  apply sub_float_r_val in Hpsi.
  rewrite add_succ in Hsec. injection Hsec as <-.
  injection Hlast as <-. rewrite range_counters in Hcs. injection Hcs as <-.
  rewrite (sleep_val _ Hsleep).
  rewrite (for_each_val _ _
             (fun c => [helix_waypoint d z zf theta0 period n c;
                        time_sleep (PFloat (ratio period (PInt n)))]))
    by (done || intros c; apply helix_setpoint_val).
  subst x y psi. done.
Qed.

(** The [go_to] calls of the expansion: the entry point and one way-point
    per counter. *)
Lemma helix_expansion_go_to d z zf theta0 period n time :
  filter (fun c => is_go_to c = true) (helix_expansion d z zf theta0 period n time) =
    helix_entry d z theta0 time
      :: map (helix_waypoint d z zf theta0 period n) (counters n).
Proof.
  unfold helix_expansion, helix_entry.
  rewrite filter_cons, decide_True by done. f_equal.
  rewrite filter_cons, decide_False by done.
  induction (counters n) as [|c cs IH]; [done|].
  simpl. rewrite filter_cons, decide_True by done.
  rewrite filter_cons, decide_False by done. by rewrite IH.
Qed.

Lemma counters_length n : length (counters n) = Z.to_nat n.
Proof. unfold counters. by rewrite length_map, length_seq. Qed.

(** The loop of the worker at a Helix and at a Ring that do not raise. *)
Lemma command_loop_helix uri d z zf theta0 period steps time control cs :
  helix d z zf theta0 period steps time = (cs, Val tt) ->
  command_loop uri (Helix d z zf theta0 period steps time :: control) =
    (cs ++ (command_loop uri control).1, (command_loop uri control).2).
Proof.
  intros Hbody. cbn [command_loop]. rewrite Hbody.
  by destruct (command_loop uri control).
Qed.

Lemma command_loop_ring uri r g b intensity time control cs :
  set_ring_color r g b intensity time = (cs, Val tt) ->
  command_loop uri (Ring r g b intensity time :: control) =
    (cs ++ (command_loop uri control).1, (command_loop uri control).2).
Proof.
  intros Hbody. cbn [command_loop]. rewrite Hbody.
  by destruct (command_loop uri control).
Qed.

(** [set_ring_color] when the fade time has a text and scaling and
    truncation give [cr], [cg], [cb] whose packing has a text. *)
Lemma set_ring_color_run r g b intensity time cr cg cb :
  prints time = true ->
  result_bind (Py.mul r intensity) Py.int = Val cr ->
  result_bind (Py.mul g intensity) Py.int = Val cg ->
  result_bind (Py.mul b intensity) Py.int = Val cb ->
  int_prints (Z.lor (Z.lor (Z.shiftl cr 16) (Z.shiftl cg 8)) cb) = true ->
  set_ring_color r g b intensity time =
    ([param_set_value "ring.fadeTime" (Py.text time);
      param_set_value "ring.fadeColor"
        (Py.decimal (Z.lor (Z.lor (Z.shiftl cr 16) (Z.shiftl cg 8)) cb))],
     Val tt).
Proof.
  intros Ht Hr Hg Hb Hc. unfold set_ring_color, eval. cbn [lift2 result_bind].
  rewrite (str_prints time Ht).
  destruct (Py.mul r intensity) as [r'|]; [|done].
  destruct (Py.mul g intensity) as [g'|]; [|done].
  destruct (Py.mul b intensity) as [b'|]; [|done].
  cbn [result_bind] in Hr, Hg, Hb.
  unfold Worker.bind, do. rewrite Hr, Hg, Hb.
  unfold Py.str. cbn [prints text]. by rewrite Hc.
Qed.

(** The same for channels whose packing is a 24-bit value. *)
Lemma set_ring_color_packed r g b intensity time cr cg cb :
  prints time = true ->
  result_bind (Py.mul r intensity) Py.int = Val cr ->
  result_bind (Py.mul g intensity) Py.int = Val cg ->
  result_bind (Py.mul b intensity) Py.int = Val cb ->
  0 <= cr <= 255 -> 0 <= cg <= 255 -> 0 <= cb <= 255 ->
  set_ring_color r g b intensity time =
    ([param_set_value "ring.fadeTime" (Py.text time);
      param_set_value "ring.fadeColor"
        (Py.decimal (Z.lor (Z.lor (Z.shiftl cr 16) (Z.shiftl cg 8)) cb))],
     Val tt).
Proof.
  intros Ht Hr Hg Hb Rr Rg Rb. apply set_ring_color_run; try done.
  apply int_prints_small.
  pose proof (packed_bound cr cg cb Rr Rg Rb) as Hp.
  assert (2 ^ 24 < 2 ^ 63) by done. lia.
Qed.

End WithRuntime.

End WorkerFacts.

(** * The claims

    The claims about the scheduler are on [Scheduler.run] and
    [Scheduler.clock_loop]; those about the worker are on
    [Worker.command_loop] and hold for every runtime. *)

Import Scheduler SchedulerFacts Worker WorkerFacts.

(** ** The end-to-end scenario of the specification *)

(** Both agents get [Takeoff] at tick 0 and [Land] at tick 2, then
    [Quit]; each worker, after its start-up parameter writes, takes off,
    lands and returns with nothing left in its queue. *)
Example scenario_end_to_end `{Runtime} (uri : string) :
  let takeoff := Takeoff (PFloat 0.5) (PInt 2) in
  let landing := Land (PInt 2) in
  (run Examples.scenario 2).2 = Ok tt /\
  dispatch_log 0 (run Examples.scenario 2).1.1 =
    [(0, 0%nat, takeoff); (0, 1%nat, takeoff);
     (2, 0%nat, landing); (2, 1%nat, landing);
     (2, 0%nat, Quit); (2, 1%nat, Quit)] /\
  Forall (fun control =>
            control = [takeoff; landing; Quit] /\
            crazyflie_control uri control =
              ([param_set_value "stabilizer.controller" "1";
                param_set_value "ring.fadeTime" "0";
                param_set_value "ring.fadeColor" "0";
                param_set_value "ring.effect" "14";
                commander_takeoff (PFloat 0.5) (PInt 2);
                commander_land (PFloat 0) (PInt 2)],
               Returned []))
         (run Examples.scenario 2).1.2.
Proof.
  intros takeoff landing. split; [done|]. split; [done|].
  repeat (apply Forall_cons_2; [by split|]). apply Forall_nil_2.
Qed.

(** ** C1: every agent receives its commands, then [Quit] *)

(** C1, as stated, fails: with an empty table the scheduler dies on its
    first read and the agent's queue stays empty, without a [Quit]; with
    an entry for agent 5 of two, it dies at that entry and neither agent
    gets a [Quit]; with a take-off height that is an int of 4301 digits,
    it dies of a [ValueError] when it formats the line that announces
    the dispatch, before the put, and the queue stays empty. *)
Lemma queue_without_quit_counterexample :
  run [] 1 = ([PrintStep 0], [[]], Raise IndexError) /\
  (run [] 1).1.2 !! 0%nat <>
    Some (map entry_command
            (filter (fun e => entry_cf_id e = Z.of_nat 0) []) ++ [Quit]) /\
  (run Examples.unknown_agent 2).1.2 =
    [[Takeoff (PFloat 0.5) (PInt 2)]; []] /\
  (run Examples.unknown_agent 2).2 = Raise IndexError /\
  run Examples.wordy_table 1 = ([PrintStep 0], [[]], Raise ValueError).
Proof.
  split; [done|]. split; [done|]. split; [done|]. split; [done|].
  vm_compute. reflexivity.
Qed.

(** C1, as amended. For every non-empty choreography table whose agent
    ids all lie in [0, agents) and whose entries can be printed (steps
    below 10^4300, and no int of more than 4300 digits among the agent
    ids and the fields of the commands), and for every agent, the
    scheduler ends normally and the commands enqueued on the agent's
    queue are exactly the commands of the table entries addressed to it,
    in table order, followed by one [Quit]; an agent that no entry
    addresses receives just the [Quit]. *)
Theorem queue_is_own_commands_then_quit (sequence : list entry) (agents a : nat) :
  sequence <> [] ->
  Forall (fun e => 0 <= entry_cf_id e < Z.of_nat agents) sequence ->
  Forall printed sequence ->
  (a < agents)%nat ->
  exists evs qs,
    run sequence agents = (evs, qs, Ok tt) /\
    qs !! a = Some (map entry_command
                      (filter (fun e => entry_cf_id e = Z.of_nat a) sequence)
                    ++ [Quit]) /\
    (Forall (fun e => entry_cf_id e <> Z.of_nat a) sequence ->
     qs !! a = Some [Quit]).
Proof.
  intros Hne Hids Hprinted Ha. unfold run.
  destruct (control_thread_deliverable sequence (fresh_queues agents) Hne)
    as (evs & _ & _ & Hrun).
  { rewrite fresh_queues_length. by apply deliverable_in_range. }
  rewrite Hrun. eexists _, _. split; [done|].
  assert (Hq : map (fun q => q ++ [Quit]) (deliver sequence (fresh_queues agents)) !! a =
               Some (map entry_command
                       (filter (fun e => entry_cf_id e = Z.of_nat a) sequence) ++ [Quit])).
  { rewrite list_lookup_fmap.
    rewrite (deliver_lookup _ _ a []) by by apply fresh_queues_lookup.
    rewrite fresh_queues_length, commands_for_in_range by done. done. }
  split; [done|].
  intros Hnone. rewrite Hq. do 2 f_equal.
  clear -Hnone. induction Hnone as [|e es He _ IH]; [done|].
  rewrite filter_cons, decide_False by done. done.
Qed.

Lemma queue_is_own_commands_then_quit_witness :
  Choreography.sequence <> [] /\
  Forall (fun e => 0 <= entry_cf_id e < Z.of_nat 9) Choreography.sequence /\
  Forall printed Choreography.sequence /\
  (1 < 9)%nat /\
  exists evs qs,
    run Choreography.sequence 9 = (evs, qs, Ok tt) /\
    qs !! 1%nat = Some (map entry_command
                         (filter (fun e => entry_cf_id e = Z.of_nat 1) Choreography.sequence)
                       ++ [Quit]) /\
    (Forall (fun e => entry_cf_id e <> Z.of_nat 1) Choreography.sequence ->
     qs !! 1%nat = Some [Quit]).
Proof.
  assert (Hids : Forall (fun e => 0 <= entry_cf_id e < Z.of_nat 9) Choreography.sequence).
  { unfold Choreography.sequence. repeat (apply Forall_cons_2; [unfold entry_cf_id; simpl; lia|]).
    apply Forall_nil_2. }
  assert (Hprinted : Forall printed Choreography.sequence).
  { unfold Choreography.sequence.
    repeat (apply Forall_cons_2; [split; vm_compute; reflexivity|]). apply Forall_nil_2. }
  split; [done|]. split; [exact Hids|]. split; [exact Hprinted|]. split; [lia|].
  apply (queue_is_own_commands_then_quit Choreography.sequence 9 1);
    [done|exact Hids|exact Hprinted|lia].
Defined.

(** ** C2: monotonic batches *)

(** C2. For every table sorted by non-decreasing step, the enqueue
    operations of the scheduler loop are those of a prefix of the table
    (all of it unless the run fails), in table order, each at the tick of
    its own step; so whenever an entry is enqueued, every entry of the
    table with a smaller step, the entries of step N-1 for an entry of
    step N among them, has been enqueued before it. *)
Theorem sorted_table_dispatches_in_step_order (sequence : list entry) (agents : nat) :
  StronglySorted (fun e1 e2 => entry_step e1 <= entry_step e2) sequence ->
  let log := dispatch_log 0 (clock_loop sequence (fresh_queues agents)).1.1 in
  let enqueued e :=
    (Z.max 0 (entry_step e), default 0%nat (slot agents e), entry_command e) in
  exists k,
    log = map enqueued (take k sequence) /\
    forall i j ei ej,
      sequence !! i = Some ei -> sequence !! j = Some ej ->
      (j < k)%nat -> entry_step ei < entry_step ej ->
      (i < j)%nat /\ log !! i = Some (enqueued ei).
Proof.
  intros Hs log enqueued.
  assert (Hord : forall i j ei ej,
            sequence !! i = Some ei -> sequence !! j = Some ej ->
            entry_step ei < entry_step ej -> (i < j)%nat).
  { intros i j ei ej Hi Hj Hlt.
    destruct (decide (i < j)%nat) as [|Hge]; [done|].
    pose proof (sorted_lookup_le sequence j i ej ei Hs ltac:(lia) Hj Hi). lia. }
  assert (Hk : exists k, log = map enqueued (take k sequence)).
  { subst log. destruct sequence as [|e0 es] eqn:Hseq.
    { by exists 0%nat. }
    rewrite <- Hseq in *.
    destruct (clock_loop_spec sequence (fresh_queues agents))
      as (evs & disp & rest' & out & Hsplit & _ & Hlog & Hrun & _); [by rewrite Hseq|].
    rewrite fresh_queues_length in Hlog.
    exists (length disp).
    rewrite Hrun. cbn [fst]. rewrite Hlog, Hsplit, take_app_length.
    apply timed_sorted. rewrite Hsplit in Hs.
    by apply StronglySorted_app_1_l in Hs. }
  destruct Hk as [k Hk]. exists k. split; [done|].
  intros i j ei ej Hi Hj Hjk Hlt.
  pose proof (Hord i j ei ej Hi Hj Hlt) as Hij. split; [done|].
  rewrite Hk, list_lookup_fmap, lookup_take_lt by lia. by rewrite Hi.
Qed.

Lemma sorted_table_dispatches_in_step_order_witness :
  StronglySorted (fun e1 e2 => entry_step e1 <= entry_step e2) Choreography.sequence /\
  let log := dispatch_log 0 (Scheduler.clock_loop Choreography.sequence (fresh_queues 9)).1.1 in
  let enqueued e :=
    (Z.max 0 (entry_step e), default 0%nat (slot 9 e), entry_command e) in
  exists k,
    log = map enqueued (take k Choreography.sequence) /\
    forall i j ei ej,
      Choreography.sequence !! i = Some ei -> Choreography.sequence !! j = Some ej ->
      (j < k)%nat -> entry_step ei < entry_step ej ->
      (i < j)%nat /\ log !! i = Some (enqueued ei).
Proof.
  assert (Hs : StronglySorted (fun e1 e2 => entry_step e1 <= entry_step e2) Choreography.sequence).
  { apply Sorted_StronglySorted.
    - intros x y z Hxy Hyz. lia.
    - unfold Choreography.sequence.
      repeat (apply Sorted_cons; [|first [apply HdRel_nil|apply HdRel_cons; unfold entry_step; simpl; lia]]).
      apply Sorted_nil. }
  split; [exact Hs|].
  apply (sorted_table_dispatches_in_step_order Choreography.sequence 9 Hs).
Defined.

(** ** C3: the Helix expansion *)


Section HelixExamples.

(** The examples run on the examples' runtime. *)
#[local] Existing Instance Examples.runtime.



End HelixExamples.

(** ** C4: the ring colour *)

(** C4, as amended. For a Ring whose channels are in [0, 255], whose
    intensity is in [0, 1] and whose fade time has a text (a float, or
    an int of at most 4300 digits), each channel times the intensity,
    truncated, is an int [cr], [cg], [cb] in [0, 255]; the worker writes
    the text of the fade time and then the decimal text of the colour
    [(cr << 16) | (cg << 8) | cb], a 24-bit value, with two parameter
    writes and no other call, and goes on with the rest of its queue. In
    particular (255, 0, 0, 1.0) gives 0xFF0000, written as 16711680, and
    (255, 255, 255, 0.5) gives 127, 127, 127 packed as 0x7F7F7F, written
    as 8355711. *)
Theorem ring_color_is_scaled_packed_and_written `{Runtime}
    (uri : string) (control : list command) (r g b intensity time : pynum) :
  Py.channel r -> Py.channel g -> Py.channel b -> Py.unit_interval intensity ->
  Py.prints time = true ->
  (exists cr cg cb : Z,
     result_bind (Py.mul r intensity) Py.int = Val cr /\
     result_bind (Py.mul g intensity) Py.int = Val cg /\
     result_bind (Py.mul b intensity) Py.int = Val cb /\
     0 <= cr <= 255 /\ 0 <= cg <= 255 /\ 0 <= cb <= 255 /\
     let color := Z.lor (Z.lor (Z.shiftl cr 16) (Z.shiftl cg 8)) cb in
     0 <= color < 2 ^ 24 /\
     command_loop uri (Ring r g b intensity time :: control) =
       (param_set_value "ring.fadeTime" (Py.text time)
          :: param_set_value "ring.fadeColor" (Py.decimal color)
          :: (command_loop uri control).1,
        (command_loop uri control).2)) /\
  set_ring_color (PInt 255) (PInt 0) (PInt 0) (PFloat 1) (PInt 2) =
    ([param_set_value "ring.fadeTime" "2";
      param_set_value "ring.fadeColor" "16711680"], Val tt) /\
  Py.decimal 0xFF0000 = "16711680"%string /\
  result_bind (Py.mul (PInt 255) (PFloat 0.5)) Py.int = Val 127 /\
  set_ring_color (PInt 255) (PInt 255) (PInt 255) (PFloat 0.5) (PInt 2) =
    ([param_set_value "ring.fadeTime" "2";
      param_set_value "ring.fadeColor" "8355711"], Val tt) /\
  Z.lor (Z.lor (Z.shiftl 127 16) (Z.shiftl 127 8)) 127 = 0x7F7F7F /\
  Py.decimal 0x7F7F7F = "8355711"%string.
Proof.
  intros Hr Hg Hb Hi Ht. split; [|by repeat split].
  destruct (PyFacts.scaled_channel r intensity Hr Hi) as (cr & Hcr & Rr).
  destruct (PyFacts.scaled_channel g intensity Hg Hi) as (cg & Hcg & Rg).
  destruct (PyFacts.scaled_channel b intensity Hb Hi) as (cb & Hcb & Rb).
  exists cr, cg, cb. repeat (split; [done|]).
  split; [by apply PyFacts.packed_bound|].
  rewrite (command_loop_ring uri r g b intensity time control _
             (set_ring_color_packed r g b intensity time cr cg cb
                Ht Hcr Hcg Hcb Rr Rg Rb)).
  done.
Qed.

Section RingExamples.

(** The examples run on the examples' runtime. *)
#[local] Existing Instance Examples.runtime.

(** C4, as stated, fails: with a fade time that is an int of 4301 digits
    the worker dies of a [ValueError] when it makes the text of the fade
    time, before it has written anything. *)
Lemma ring_fade_time_counterexample :
  Py.channel (PInt 255) /\ Py.channel (PInt 0) /\ Py.unit_interval (PFloat 1) /\
  set_ring_color (PInt 255) (PInt 0) (PInt 0) (PFloat 1) (PInt Examples.wordy) =
    ([], Exc ValueError) /\
  command_loop "" [Ring (PInt 255) (PInt 0) (PInt 0) (PFloat 1) (PInt Examples.wordy); Quit] =
    ([], Died ValueError).
Proof.
  split; [simpl; lia|]. split; [simpl; lia|]. split; [by split|].
  split; vm_compute; reflexivity.
Qed.

Lemma ring_color_is_scaled_packed_and_written_witness :
  Py.channel (PInt 255) /\ Py.unit_interval (PFloat 0.5) /\
  Py.prints (PInt 1) = true /\
  (exists cr cg cb : Z,
     result_bind (Py.mul (PInt 255) (PFloat 0.5)) Py.int = Val cr /\
     result_bind (Py.mul (PInt 255) (PFloat 0.5)) Py.int = Val cg /\
     result_bind (Py.mul (PInt 255) (PFloat 0.5)) Py.int = Val cb /\
     0 <= cr <= 255 /\ 0 <= cg <= 255 /\ 0 <= cb <= 255 /\
     let color := Z.lor (Z.lor (Z.shiftl cr 16) (Z.shiftl cg 8)) cb in
     0 <= color < 2 ^ 24 /\
     command_loop "uri"
       (Ring (PInt 255) (PInt 255) (PInt 255) (PFloat 0.5) (PInt 1) :: [Quit]) =
       (param_set_value "ring.fadeTime" (Py.text (PInt 1))
          :: param_set_value "ring.fadeColor" (Py.decimal color)
          :: (command_loop "uri" [Quit]).1,
        (command_loop "uri" [Quit]).2)) /\
  set_ring_color (PInt 255) (PInt 0) (PInt 0) (PFloat 1) (PInt 2) =
    ([param_set_value "ring.fadeTime" "2";
      param_set_value "ring.fadeColor" "16711680"], Val tt) /\
  Py.decimal 0xFF0000 = "16711680"%string /\
  result_bind (Py.mul (PInt 255) (PFloat 0.5)) Py.int = Val 127 /\
  set_ring_color (PInt 255) (PInt 255) (PInt 255) (PFloat 0.5) (PInt 2) =
    ([param_set_value "ring.fadeTime" "2";
      param_set_value "ring.fadeColor" "8355711"], Val tt) /\
  Z.lor (Z.lor (Z.shiftl 127 16) (Z.shiftl 127 8)) 127 = 0x7F7F7F /\
  Py.decimal 0x7F7F7F = "8355711"%string.
Proof.
  assert (Hc : Py.channel (PInt 255)) by (simpl; lia).
  assert (Hi : Py.unit_interval (PFloat 0.5)) by (split; reflexivity).
  assert (Ht : Py.prints (PInt 1) = true) by reflexivity.
  split; [exact Hc|]. split; [exact Hi|]. split; [exact Ht|].
  apply (ring_color_is_scaled_packed_and_written
           "uri" [Quit] (PInt 255) (PInt 255) (PInt 255) (PFloat 0.5) (PInt 1)
           Hc Hc Hc Hi Ht).
Defined.

End RingExamples.

(** ** C5: entries for unknown agents *)

(** C5, as stated, fails: an entry for agent 5 of two is not rejected
    before dispatch starts; the first entry of the table is enqueued at
    tick 0 and the scheduler dies at tick 1, in the middle of the run. An
    entry for agent -1 is not rejected at all: its command goes to the
    last agent. And an entry whose agent id is an int of 4301 digits
    makes the scheduler die in the middle of the run as well, of a
    [ValueError] when it formats the line that announces the entry. *)
Lemma unknown_agent_counterexample :
  run Examples.unknown_agent 2 =
    ([PrintStep 0;
      PrintRunning (Takeoff (PFloat 0.5) (PInt 2)) 0;
      QueuePut 0 (Takeoff (PFloat 0.5) (PInt 2));
      Sleep 1;
      PrintStep 1;
      PrintRunning (Takeoff (PFloat 0.5) (PInt 2)) 5],
     [[Takeoff (PFloat 0.5) (PInt 2)]; []],
     Raise IndexError) /\
  (run Examples.negative_agent 2).1.2 =
    [[Land (PInt 2); Quit]; [Takeoff (PFloat 0.5) (PInt 2); Quit]] /\
  (run Examples.negative_agent 2).2 = Ok tt /\
  run Examples.wordy_agent 2 =
    ([PrintStep 0;
      PrintRunning (Takeoff (PFloat 0.5) (PInt 2)) 0;
      QueuePut 0 (Takeoff (PFloat 0.5) (PInt 2));
      Sleep 1;
      PrintStep 1],
     [[Takeoff (PFloat 0.5) (PInt 2)]; []],
     Raise ValueError).
Proof.
  split; [done|]. split; [done|]. split; [done|]. vm_compute. reflexivity.
Qed.

(** C5, as amended. An entry whose agent id is not in [0, agents) is not
    detected before the scheduler starts. When all entries before it can
    be printed and address a queue, they are enqueued as usual, each at
    its tick; then, if the entry can be printed (its step is below
    10^4300 and neither its agent id nor a field of its command is an
    int of more than 4300 digits) and its id is below -agents or at
    least agents, the scheduler dies of an [IndexError] at that entry,
    in the middle of the run, the queues hold the commands enqueued so
    far and no [Quit] is added; and if it can be printed and its id is
    in [-agents, 0), the entry is accepted and its command is enqueued
    on the queue of agent [agents + id]. *)
Theorem unknown_agent_is_not_rejected (pre post : list entry) (bad : entry) (agents : nat) :
  Forall (deliverable agents) pre ->
  printed bad ->
  ~ (0 <= entry_cf_id bad < Z.of_nat agents) ->
  ((entry_cf_id bad < - Z.of_nat agents \/ Z.of_nat agents <= entry_cf_id bad) /\
   exists evs qs,
     run (pre ++ bad :: post) agents = (evs, qs, Raise IndexError) /\
     dispatch_log 0 evs = timed agents 0 pre /\
     forall a, (a < agents)%nat -> qs !! a = Some (commands_for agents a pre))
  \/
  (- Z.of_nat agents <= entry_cf_id bad < 0 /\
   exists t,
     dispatch_log 0 (run (pre ++ bad :: post) agents).1.1 !! length pre =
       Some (t, Z.to_nat (Z.of_nat agents + entry_cf_id bad), entry_command bad)).
Proof.
  intros Hpre [Hin Hann] Hout.
  destruct (Z.lt_ge_cases (entry_cf_id bad) (- Z.of_nat agents)) as [Hlow|Hlow];
    [left; split; [lia|] | ].
  2: destruct (Z.lt_ge_cases (entry_cf_id bad) 0) as [Hneg|Hneg];
       [right; split; [lia|] | left; split; [lia|] ].
  1, 3: unfold run;
    destruct (control_thread_unaddressable pre bad post (fresh_queues agents))
      as (evs & Hlog & _ & Hrun);
    [ by rewrite fresh_queues_length
    | done
    | done
    | rewrite fresh_queues_length; unfold addressable, slot;
      assert (Hnone : py_index agents (entry_cf_id bad) = None)
        by (apply py_index_None; lia);
      rewrite Hnone; by intros [? ?]
    | rewrite fresh_queues_length in Hlog;
      exists evs, (deliver pre (fresh_queues agents));
      split; [done|]; split; [done|];
      intros a Ha;
      rewrite (deliver_lookup _ _ a []) by (by apply fresh_queues_lookup);
      by rewrite fresh_queues_length ].
  unfold run.
  apply control_thread_reaches; rewrite ?fresh_queues_length; [done|done|done|].
  unfold slot, py_index.
  assert ((0 <=? entry_cf_id bad) = false) as -> by (apply Z.leb_gt; lia).
  assert ((- Z.of_nat agents <=? entry_cf_id bad) = true) as -> by (apply Z.leb_le; lia).
  assert ((entry_cf_id bad <? 0) = true) as -> by (apply Z.ltb_lt; lia).
  done.
Qed.

Lemma unknown_agent_is_not_rejected_witness :
  Forall (deliverable 2) [(0, 0, Takeoff (PFloat 0.5) (PInt 2))] /\
  printed (1, 5, Takeoff (PFloat 0.5) (PInt 2)) /\
  ~ (0 <= 5 < Z.of_nat 2) /\
  (((5 < - Z.of_nat 2 \/ Z.of_nat 2 <= 5) /\
    exists evs qs,
      run ([(0, 0, Takeoff (PFloat 0.5) (PInt 2))]
             ++ (1, 5, Takeoff (PFloat 0.5) (PInt 2)) :: [(2, 0, Land (PInt 2))]) 2 =
        (evs, qs, Raise IndexError) /\
      dispatch_log 0 evs = timed 2 0 [(0, 0, Takeoff (PFloat 0.5) (PInt 2))] /\
      forall a, (a < 2)%nat ->
        qs !! a = Some (commands_for 2 a [(0, 0, Takeoff (PFloat 0.5) (PInt 2))]))
   \/
   (- Z.of_nat 2 <= 5 < 0 /\
    exists t,
      dispatch_log 0
        (run ([(0, 0, Takeoff (PFloat 0.5) (PInt 2))]
                ++ (1, 5, Takeoff (PFloat 0.5) (PInt 2)) :: [(2, 0, Land (PInt 2))]) 2).1.1
        !! length [(0, 0, Takeoff (PFloat 0.5) (PInt 2))] =
        Some (t, Z.to_nat (Z.of_nat 2 + 5), Takeoff (PFloat 0.5) (PInt 2)))).
Proof.
  assert (Hpre : Forall (deliverable 2) [(0, 0, Takeoff (PFloat 0.5) (PInt 2))]).
  { apply Forall_cons_2; [|apply Forall_nil_2].
    split; [reflexivity|]. split; [reflexivity|]. by exists 0%nat. }
  assert (Hprinted : printed (1, 5, Takeoff (PFloat 0.5) (PInt 2))) by (split; reflexivity).
  assert (Hbad : ~ (0 <= 5 < Z.of_nat 2)) by lia.
  split; [exact Hpre|]. split; [exact Hprinted|]. split; [exact Hbad|].
  apply (unknown_agent_is_not_rejected
           [(0, 0, Takeoff (PFloat 0.5) (PInt 2))]
           [(2, 0, Land (PInt 2))]
           (1, 5, Takeoff (PFloat 0.5) (PInt 2)) 2 Hpre Hprinted Hbad).
Defined.

(** ** C6: out-of-order steps *)

(** C6. There is a table with out-of-order steps, a step-2 entry placed
    after a step-5 entry, on which the scheduler ends normally and
    nothing is enqueued at tick 2: the step-2 entry is enqueued at tick
    5, right after the step-5 entry, so the agent's queue is in table
    order and not in step order. *)
Theorem out_of_order_entry_is_delayed :
  exists (sequence : list entry) (agents : nat) (i j : nat) (ei ej : entry),
    sequence !! i = Some ei /\ sequence !! j = Some ej /\
    (i < j)%nat /\ entry_step ej < entry_step ei /\
    (Scheduler.clock_loop sequence (fresh_queues agents)).2 = Ok tt /\
    let log := dispatch_log 0 (Scheduler.clock_loop sequence (fresh_queues agents)).1.1 in
    Forall (fun d => d.1.1 <> entry_step ej) log /\
    log !! i = Some (entry_step ei, 0%nat, entry_command ei) /\
    log !! j = Some (entry_step ei, 0%nat, entry_command ej) /\
    (Scheduler.clock_loop sequence (fresh_queues agents)).1.2 =
      [[entry_command ei; entry_command ej]].
Proof.
  exists Examples.out_of_order, 1%nat, 0%nat, 1%nat,
    (5, 0, Takeoff (PFloat 0.5) (PInt 2)), (2, 0, Land (PInt 2)).
  split; [done|]. split; [done|]. split; [lia|]. split; [done|].
  split; [done|]. split; [|done].
  vm_compute dispatch_log. by repeat apply Forall_cons_2; [..|apply Forall_nil_2].
Qed.

(** ** C7: Quit, Takeoff, Land and Goto *)

(** C7. [Quit] makes the worker return at once, with no call, leaving the
    commands behind it unread in the queue; [Takeoff] calls the take-off
    primitive with its height and duration; [Land] calls the landing
    primitive with height 0.0 and its duration; [Goto] calls the go-to
    primitive with its position, yaw 0 and its duration; after each of
    the three the worker goes on with the rest of the queue. *)
Theorem basic_commands_call_their_primitive `{Runtime}
    (uri : string) (control : list command) (height x y z time : pynum) :
  command_loop uri (Quit :: control) = ([], Returned control) /\
  command_loop uri (Takeoff height time :: control) =
    (commander_takeoff height time :: (command_loop uri control).1,
     (command_loop uri control).2) /\
  command_loop uri (Land time :: control) =
    (commander_land (PFloat 0) time :: (command_loop uri control).1,
     (command_loop uri control).2) /\
  command_loop uri (Goto x y z time :: control) =
    (commander_go_to x y z (PInt 0) time :: (command_loop uri control).1,
     (command_loop uri control).2).
Proof.
  split; [done|].
  repeat split; cbn [command_loop]; unfold do;
    by destruct (command_loop uri control).
Qed.

(** ** C8: unknown commands *)

(** C8: here the code does not do what it sets out to do. For an object
    that is none of the known commands the worker takes the branch that
    is to print a warning with the object and the uri of the drone; to
    make the warning it reads [cf.uri], and the Crazyflie object has no
    such attribute (its uri is [cf.link_uri], which the first statement
    of [crazyflie_control] reads). The worker dies of an
    [AttributeError] before the warning is printed, and the commands
    behind the object are never executed: on a queue that holds the
    string hover, a landing and a [Quit], the worker makes its start-up
    writes and dies, without landing. *)
Theorem unknown_command_kills_the_worker `{Runtime}
    (uri repr : string) (control : list command) :
  command_loop uri (Other repr :: control) = ([], Died AttributeError) /\
  crazyflie_control uri [Other "hover"; Land (PInt 2); Quit] =
    ([param_set_value "stabilizer.controller" "1";
      param_set_value "ring.fadeTime" "0";
      param_set_value "ring.fadeColor" "0";
      param_set_value "ring.effect" "14"],
     Died AttributeError).
Proof. done. Qed.

(** ** C9: a Helix without steps *)

(** C9. A Helix whose [No_setpoints] is the int 0 makes the worker die of
    a [ZeroDivisionError] in [circle_period/No_setpoints], before any
    call; the commands behind it are never read. *)
Theorem helix_with_zero_steps_raises `{Runtime}
    (uri : string) (control : list command) (d z zf theta0 circle_period time : pynum) :
  command_loop uri (Helix d z zf theta0 circle_period (PInt 0) time :: control) =
    ([], Died ZeroDivisionError).
Proof.
  cbn [command_loop]. unfold helix, eval. cbn [lift2 result_bind].
  by destruct circle_period.
Qed.

(** ** C10: the empty table *)

(** C10. With an empty table the scheduler dies of an [IndexError] on
    its first read of the entry under the cursor, after printing the
    first step and before anything is enqueued: every queue stays empty
    and no agent receives [Quit]. *)
Theorem empty_table_raises_before_any_quit (agents : nat) :
  run [] agents = ([PrintStep 0], replicate agents [], Raise IndexError).
Proof. done. Qed.

(** * Further properties of the scheduler *)

Module ClockFacts.
Import Scheduler SchedulerFacts Trace.

Lemma last_step_app_max es1 es2 :
  last_step (es1 ++ es2) = Z.max (last_step es1) (last_step es2).
Proof.
  induction es1 as [|e es1 IH]; unfold last_step in *; simpl.
  - pose proof (last_step_nonneg es2). unfold last_step in *. lia.
  - rewrite IH. lia.
Qed.

Lemma last_step_due s es :
  0 <= s -> Forall (fun e => entry_step e <= s) es -> last_step es <= s.
Proof.
  intros Hs. induction 1 as [|e es He _ IH]; unfold last_step in *; simpl; lia.
Qed.

Lemma printed_steps_app evs1 evs2 :
  printed_steps (evs1 ++ evs2) = printed_steps evs1 ++ printed_steps evs2.
Proof. apply omap_app. Qed.

Lemma slept_app evs1 evs2 : slept (evs1 ++ evs2) = slept evs1 + slept evs2.
Proof.
  induction evs1 as [|ev evs1 IH]; [done|].
  unfold slept in *. destruct ev; simpl; lia.
Qed.

Lemma printed_steps_dispatch agents es : printed_steps (dispatch_events agents es) = [].
Proof. induction es as [|e es IH]; [done|]. done. Qed.

Lemma slept_dispatch agents es : slept (dispatch_events agents es) = 0.
Proof. induction es as [|e es IH]; [done|]. done. Qed.

(** The first entry that cannot be delivered, if there is one. *)
Lemma first_undeliverable agents (es : list entry) :
  Forall (deliverable agents) es \/
  exists pre bad post,
    es = pre ++ bad :: post /\ Forall (deliverable agents) pre /\
    ~ deliverable agents bad /\
    ((in_time 0 bad = true /\ announced bad = true /\ ~ addressable agents bad)
     \/ (in_time 0 bad = false \/ announced bad = false)).
Proof.
  induction es as [|e es IH]; [by left|].
  assert (Hdec : deliverable agents e \/
            ((in_time 0 e = true /\ announced e = true /\ ~ addressable agents e)
             \/ (in_time 0 e = false \/ announced e = false))).
  { unfold deliverable, addressable.
    destruct (in_time 0 e); [|right; right; by left].
    destruct (announced e); [|right; right; by right].
    destruct (slot agents e) as [i|]; [left; by repeat split|].
    right; left. repeat split; by intros [? ?]. }
  destruct Hdec as [He|Hno].
  - destruct IH as [Hall | (pre & bad & post & -> & Hpre & Hbad & Hwhy)].
    + left. by apply Forall_cons_2.
    + right. exists (e :: pre), bad, post. split; [done|].
      split; [by apply Forall_cons_2|done].
  - right. exists [], e, es. split; [done|]. split; [apply Forall_nil_2|].
    split; [|done].
    destruct Hno as [(_ & _ & Hbad)|Hno];
      [by apply not_deliverable_unaddressable|by apply not_deliverable_unprinted].
Qed.

Section Ticks.

Variable sequence : list entry.

(** The scheduler loop from any cursor and clock value, when every entry
    that is left can be delivered: it prints every step from the current
    one to the last step of the table, sleeps after each, and stops after
    the sleep that follows the last dispatch. *)
Lemma outer_while_ticks fuel : forall pre rest step qs,
  sequence = pre ++ rest ->
  rest <> [] ->
  Forall (deliverable (length qs)) rest ->
  0 <= step ->
  step < Py.str_limit ->
  (Z.to_nat (last_step rest - step) + 2 <= fuel)%nat ->
  exists body,
    outer_while sequence fuel (length pre) step false qs =
      (body ++ [PrintEnd; Sleep STEP_TIME], deliver rest qs, Ok tt) /\
    printed_steps body =
      seqZ step (Z.max step (last_step rest) - step + 1) /\
    slept body = (Z.max step (last_step rest) - step) * STEP_TIME /\
    PrintEnd ∉ body.
Proof.
  induction fuel as [|fuel IH];
    intros pre rest step qs Hseq Hne Hall Hstep Hlimit Hfuel; [lia|].
  rewrite outer_while_step.
  assert (Hprint : Py.int_prints step = true).
  { rewrite int_prints_nonneg by done. by apply Z.ltb_lt. }
  rewrite Hprint.
  destruct (inner_while_spec sequence rest pre step qs (S (length sequence)))
    as (disp & rest' & Hsplit & Hdisp & Hcases); [done|done| |].
  { rewrite Hseq, length_app. lia. }
  assert (Hdue : Forall (fun e => entry_step e <= step) disp).
  { eapply Forall_impl; [exact Hdisp|]. by intros e [? ?]. }
  assert (Hhead : forall e r, rest' = e :: r -> deliverable (length qs) e).
  { intros e r ->. rewrite Hsplit in Hall.
    apply Forall_app in Hall as [_ Hall]. by inversion Hall. }
  assert (Hnoend : forall es, PrintEnd ∉ dispatch_events (length qs) es).
  { intros es. induction es as [|e es IHes]; [apply not_elem_of_nil|].
    unfold dispatch_events in *. simpl.
    intros Hin. apply elem_of_cons in Hin as [?|Hin]; [done|].
    apply elem_of_cons in Hin as [?|Hin]; [done|]. done. }
  destruct Hcases as [[-> Hrun] | [(e1 & r1 & Hr & Hlt & Hrun)
    | [(e1 & r1 & Hr & Hle & _ & Hbad & _) | (e1 & r1 & Hr & Hle & Hno & _)]]].
  3:{ exfalso. by apply (not_deliverable_unaddressable (length qs) e1 Hbad), (Hhead e1 r1). }
  3:{ exfalso. apply (not_deliverable_unprinted (length qs) e1); [by right|].
      by apply (Hhead e1 r1). }
  all: rewrite Hrun.
  - (* end of the table *)
    destruct fuel as [|fuel]; [lia|]. rewrite outer_while_stopped.
    rewrite app_nil_r in Hsplit. subst disp.
    pose proof (last_step_due step rest Hstep Hdue) as Hlast.
    exists (PrintStep step :: dispatch_events (length qs) rest).
    split; [by rewrite <- !app_assoc|].
    rewrite Z.max_l by done. replace (step - step + 1) with 1 by lia.
    replace (step - step) with 0 by lia.
    split; [|split].
    + change (printed_steps (PrintStep step :: ?l)) with (step :: printed_steps l).
      by rewrite printed_steps_dispatch.
    + change (slept (PrintStep step :: ?l)) with (slept l). by rewrite slept_dispatch.
    + intros Hin. apply elem_of_cons in Hin as [?|Hin]; [done|]. by apply (Hnoend rest).
  - (* the next entry is not due yet: tick *)
    subst rest'.
    assert (Hall' : Forall (deliverable (length qs)) (e1 :: r1)).
    { rewrite Hsplit in Hall. by apply Forall_app in Hall as [_ ?]. }
    assert (Hnext : step + 1 < Py.str_limit).
    { destruct (Hhead e1 r1 eq_refl) as (Hin & _). unfold in_time in Hin.
      apply Z.ltb_lt in Hin. lia. }
    pose proof (last_step_cons e1 r1) as Hcons.
    pose proof (last_step_due step disp Hstep Hdue) as Hd.
    assert (Hlast : last_step rest = last_step (e1 :: r1)).
    { rewrite Hsplit, last_step_app_max. lia. }
    destruct (IH (pre ++ disp) (e1 :: r1) (step + 1) (deliver disp qs))
      as (body' & Hrun' & Hsteps' & Hslept' & Hend').
    { by rewrite <- app_assoc, <- Hsplit. }
    { done. }
    { by rewrite deliver_length. }
    { lia. }
    { done. }
    { lia. }
    rewrite Hrun'.
    exists (PrintStep step :: dispatch_events (length qs) disp ++ Sleep STEP_TIME :: body').
    split.
    { rewrite Hsplit, deliver_app. simpl. by rewrite <- app_assoc. }
    rewrite Hlast.
    rewrite !Z.max_r in * by lia.
    remember (last_step (e1 :: r1)) as T eqn:HT. clear HT.
    split; [|split].
    + change (printed_steps (PrintStep step :: ?l)) with (step :: printed_steps l).
      rewrite printed_steps_app, printed_steps_dispatch.
      change (printed_steps (Sleep STEP_TIME :: body')) with (printed_steps body').
      rewrite Hsteps'. simpl app.
      rewrite (seqZ_cons step) by lia. f_equal. f_equal; lia.
    + change (slept (PrintStep step :: ?l)) with (slept l).
      rewrite slept_app, slept_dispatch.
      change (slept (Sleep STEP_TIME :: body')) with (STEP_TIME + slept body').
      rewrite Hslept'. unfold STEP_TIME. lia.
    + intros Hin. apply elem_of_cons in Hin as [?|Hin]; [done|].
      apply elem_of_app in Hin as [Hin|Hin]; [by apply (Hnoend disp)|].
      apply elem_of_cons in Hin as [?|Hin]; [done|]. done.
Qed.

End Ticks.

(** The tick at which the clock reaches entry [j]: the largest of the
    clock's start value and the steps of the entries up to it. *)
Lemma timed_lookup_exact agents es : forall t j e,
  0 <= t ->
  es !! j = Some e ->
  timed agents t es !! j =
    Some (Z.max t (last_step (take (S j) es)), default 0%nat (slot agents e),
          entry_command e).
Proof.
  induction es as [|e0 es IH]; intros t j e Ht Hj; [done|].
  destruct j as [|j]; simpl in Hj.
  - injection Hj as ->. simpl. unfold last_step. simpl.
    do 3 f_equal. lia.
  - simpl timed. rewrite lookup_cons_ne_0 by done. simpl.
    rewrite (IH _ j e) by (done || lia).
    pose proof (last_step_nonneg (take (S j) es)).
    change (take (S (S j)) (e0 :: es)) with (e0 :: take (S j) es).
    unfold last_step in *. simpl. do 3 f_equal. lia.
Qed.

End ClockFacts.

Import ClockFacts Trace.

(** ** When the scheduler ends normally *)

(** The scheduler always ends. It ends normally exactly when the table
    is not empty and every entry can be delivered: its step is below
    10^4300, no int among its agent id and the fields of its command has
    more than 4300 digits, and its agent id is in [-agents, agents).
    Otherwise it dies: on the empty table of an [IndexError]; at the
    first entry that cannot be delivered, of an [IndexError] when that
    entry can be printed, so that its agent id addresses no queue, and of
    a [ValueError] when it cannot. *)
Theorem scheduler_ends_normally_iff_deliverable (sequence : list entry) (agents : nat) :
  ((run sequence agents).2 = Ok tt <->
     sequence <> [] /\ Forall (deliverable agents) sequence) /\
  (sequence = [] -> (run sequence agents).2 = Raise IndexError) /\
  (forall pre bad post,
     sequence = pre ++ bad :: post ->
     Forall (deliverable agents) pre -> ~ deliverable agents bad ->
     (run sequence agents).2 =
       if in_time 0 bad && announced bad then Raise IndexError else Raise ValueError).
Proof.
  assert (Hfail : forall pre bad post,
            Forall (deliverable agents) pre -> ~ deliverable agents bad ->
            (run (pre ++ bad :: post) agents).2 =
              if in_time 0 bad && announced bad then Raise IndexError else Raise ValueError).
  { intros pre bad post Hpre Hbad. unfold run.
    destruct (in_time 0 bad) eqn:Hin; [destruct (announced bad) eqn:Ha|]; simpl.
    - destruct (control_thread_unaddressable pre bad post (fresh_queues agents))
        as (evs & _ & _ & ->); rewrite ?fresh_queues_length; try done.
      intros Hadd. by apply Hbad.
    - destruct (control_thread_unprinted pre bad post (fresh_queues agents))
        as (evs & _ & _ & ->); rewrite ?fresh_queues_length; try done. by right.
    - destruct (control_thread_unprinted pre bad post (fresh_queues agents))
        as (evs & _ & _ & ->); rewrite ?fresh_queues_length; try done. by left. }
  split; [|split].
  - destruct sequence as [|e0 es]; [split; [done|by intros [? _]]|].
    destruct (first_undeliverable agents (e0 :: es))
      as [Hall | (pre & bad & post & Heq & Hpre & Hbad & _)].
    + unfold run.
      destruct (control_thread_deliverable (e0 :: es) (fresh_queues agents))
        as (evs & _ & _ & Hrun); [done|by rewrite fresh_queues_length|].
      rewrite Hrun. done.
    + rewrite Heq, (Hfail pre bad post Hpre Hbad). split.
      * by destruct (in_time 0 bad && announced bad).
      * intros [_ Hall]. apply Forall_app in Hall as [_ Hall]. by inversion Hall.
  - by intros ->.
  - intros pre bad post -> Hpre Hbad. by apply Hfail.
Qed.

Lemma scheduler_ends_normally_iff_deliverable_witness :
  Forall (deliverable 2) [(0, 0, Takeoff (PFloat 0.5) (PInt 2))] /\
  ~ deliverable 2 (1, 5, Takeoff (PFloat 0.5) (PInt 2)) /\
  (run Examples.unknown_agent 2).2 = Raise IndexError.
Proof.
  assert (Hpre : Forall (deliverable 2) [(0, 0, Takeoff (PFloat 0.5) (PInt 2))]).
  { apply Forall_cons_2; [|apply Forall_nil_2].
    split; [reflexivity|]. split; [reflexivity|]. by exists 0%nat. }
  assert (Hbad : ~ deliverable 2 (1, 5, Takeoff (PFloat 0.5) (PInt 2))).
  { intros (_ & _ & [i Hi]). vm_compute in Hi. discriminate Hi. }
  split; [exact Hpre|]. split; [exact Hbad|].
  apply (proj2 (proj2 (scheduler_ends_normally_iff_deliverable Examples.unknown_agent 2))
           [(0, 0, Takeoff (PFloat 0.5) (PInt 2))]
           (1, 5, Takeoff (PFloat 0.5) (PInt 2))
           [(2, 0, Land (PInt 2))] eq_refl Hpre Hbad).
Defined.

(** ** The clock of the scheduler *)

(** For a non-empty table whose entries can all be delivered, the
    scheduler prints every step from 0 to the largest step of the table
    (0 when no step is positive) once and in order, and sleeps
    [STEP_TIME] after each, idle steps included. It prints the end
    message once, after the last dispatch, sleeps once more, and only
    then enqueues the [Quit]s, one per queue in queue order. *)
Theorem clock_runs_from_zero_through_last_step (sequence : list entry) (agents : nat) :
  sequence <> [] ->
  Forall (deliverable agents) sequence ->
  exists body,
    (run sequence agents).1.1 =
      body ++ [PrintEnd; Sleep STEP_TIME]
        ++ map (fun i => QueuePut i Quit) (seq 0 agents) /\
    Forall (fun ev => ev <> PrintEnd) body /\
    printed_steps (run sequence agents).1.1 = seqZ 0 (last_step sequence + 1) /\
    slept (run sequence agents).1.1 = (last_step sequence + 1) * STEP_TIME.
Proof.
  intros Hne Hall. unfold run, control_thread, clock_loop.
  destruct (outer_while_ticks sequence (Z.to_nat (last_step sequence) + 2)
              [] sequence 0 (fresh_queues agents))
    as (body & Hrun & Hsteps & Hslept & Hend);
    [done|done|by rewrite fresh_queues_length|done|done|lia|].
  pose proof (last_step_nonneg sequence) as Hlast.
  rewrite Z.max_r in Hsteps, Hslept by done.
  rewrite Z.sub_0_r in Hsteps, Hslept.
  unfold Scheduler.bind. simpl length in Hrun. rewrite Hrun.
  unfold put_quit_all. rewrite deliver_length, fresh_queues_length.
  cbn [fst snd]. exists body.
  assert (Hquit : forall l, printed_steps (map (fun i => QueuePut i Quit) l) = [] /\
                            slept (map (fun i => QueuePut i Quit) l) = 0).
  { intros l. induction l as [|i l [IH1 IH2]]; [done|]. split; done. }
  destruct (Hquit (seq 0 agents)) as [Hq1 Hq2].
  split; [by rewrite <- app_assoc|].
  split; [apply Forall_forall; by intros ev Hin ->|].
  split.
  - rewrite !printed_steps_app, Hq1, Hsteps. by rewrite !app_nil_r.
  - rewrite !slept_app, Hq2, Hslept. unfold STEP_TIME. cbn. lia.
Qed.

Lemma clock_runs_from_zero_through_last_step_witness :
  MoreExamples.shuffled <> [] /\
  Forall (deliverable 2) MoreExamples.shuffled /\
  exists body,
    (run MoreExamples.shuffled 2).1.1 =
      body ++ [PrintEnd; Sleep STEP_TIME]
        ++ map (fun i => QueuePut i Quit) (seq 0 2) /\
    Forall (fun ev => ev <> PrintEnd) body /\
    printed_steps (run MoreExamples.shuffled 2).1.1 =
      seqZ 0 (last_step MoreExamples.shuffled + 1) /\
    slept (run MoreExamples.shuffled 2).1.1 =
      (last_step MoreExamples.shuffled + 1) * STEP_TIME.
Proof.
  assert (Hall : Forall (deliverable 2) MoreExamples.shuffled).
  { repeat (apply Forall_cons_2;
              [split; [reflexivity|]; split; [reflexivity|]; by eexists|]).
    apply Forall_nil_2. }
  split; [done|]. split; [exact Hall|].
  apply (clock_runs_from_zero_through_last_step MoreExamples.shuffled 2); [done|exact Hall].
Defined.

(** ** The tick of every dispatch *)

(** In any table, an entry that can be delivered and has only such
    entries before it is the scheduler's [j]-th put, on the queue it
    addresses, at the tick that is the largest of 0 and the steps of the
    entries up to and including it: never before its own step and never
    before tick 0, and later than its own step exactly when its step is
    negative or an entry before it has a larger step. *)
Theorem entry_is_enqueued_at_running_maximum
    (sequence : list entry) (agents j : nat) (e : entry) :
  sequence !! j = Some e ->
  Forall (deliverable agents) (take (S j) sequence) ->
  exists i,
    slot agents e = Some i /\
    dispatch_log 0 (run sequence agents).1.1 !! j =
      Some (last_step (take (S j) sequence), i, entry_command e) /\
    entry_step e <= last_step (take (S j) sequence) /\
    0 <= last_step (take (S j) sequence).
Proof.
  intros Hj Hall.
  assert (Hjlen : (j < length sequence)%nat) by (by eapply lookup_lt_Some).
  assert (Hne : sequence <> []) by (by destruct sequence).
  assert (He : deliverable agents e).
  { rewrite Forall_lookup in Hall. apply (Hall j).
    rewrite lookup_take_lt by lia. done. }
  destruct He as (_ & _ & [i Hi]). exists i. split; [done|].
  unfold run.
  destruct (clock_loop_spec sequence (fresh_queues agents) Hne)
    as (evs & disp & rest' & out & Hsplit & Hadd & Hlog & Hrun & Hcases).
  rewrite fresh_queues_length in Hadd, Hlog, Hcases.
  assert (Hlen : (j < length disp)%nat).
  { destruct (decide (j < length disp)%nat) as [|Hge]; [done|exfalso].
    assert (Hhead : forall b r, rest' = b :: r -> deliverable agents b).
    { intros b r ->. rewrite Forall_lookup in Hall. apply (Hall (length disp)).
      rewrite lookup_take_lt by lia. rewrite Hsplit. by apply list_lookup_middle. }
    destruct Hcases as [[-> _] | [(b & r & Hr & _ & _ & Hbad & _) | (b & r & Hr & Hno & _)]].
    - rewrite app_nil_r in Hsplit. subst disp. lia.
    - by apply (not_deliverable_unaddressable agents b Hbad), (Hhead b r).
    - by apply (not_deliverable_unprinted agents b Hno), (Hhead b r). }
  assert (Hd : disp !! j = Some e).
  { rewrite <- (lookup_app_l disp rest') by done. by rewrite <- Hsplit. }
  assert (Htake : take (S j) sequence = take (S j) disp).
  { rewrite Hsplit. apply take_app_le. lia. }
  pose proof (timed_lookup_exact agents disp 0 j e ltac:(lia) Hd) as Ht.
  rewrite Hi in Ht. simpl in Ht.
  pose proof (last_step_nonneg (take (S j) disp)) as Hnn.
  rewrite Z.max_r in Ht by done.
  assert (Hevs : exists tl, (control_thread sequence (fresh_queues agents)).1.1 = evs ++ tl).
  { unfold control_thread, Scheduler.bind. rewrite Hrun.
    destruct out as [[]|x|]; [by eexists|exists []; by rewrite app_nil_r..]. }
  destruct Hevs as [tl ->].
  rewrite dispatch_log_app, Hlog, Htake.
  split; [|split; [|done]].
  - rewrite lookup_app_l by (by rewrite timed_length). done.
  - rewrite (take_S_r disp j e Hd), last_step_app_max.
    unfold last_step at 2. simpl. lia.
Qed.

Lemma entry_is_enqueued_at_running_maximum_witness :
  MoreExamples.shuffled !! 2%nat = Some (2, 0, Land (PInt 2)) /\
  Forall (deliverable 2) (take 3 MoreExamples.shuffled) /\
  exists i,
    slot 2 (2, 0, Land (PInt 2)) = Some i /\
    dispatch_log 0 (run MoreExamples.shuffled 2).1.1 !! 2%nat =
      Some (last_step (take 3 MoreExamples.shuffled), i, entry_command (2, 0, Land (PInt 2))) /\
    entry_step (2, 0, Land (PInt 2)) <= last_step (take 3 MoreExamples.shuffled) /\
    0 <= last_step (take 3 MoreExamples.shuffled).
Proof.
  assert (Hall : Forall (deliverable 2) (take 3 MoreExamples.shuffled)).
  { simpl. repeat (apply Forall_cons_2;
                     [split; [reflexivity|]; split; [reflexivity|]; by eexists|]).
    apply Forall_nil_2. }
  split; [done|]. split; [exact Hall|].
  apply (entry_is_enqueued_at_running_maximum MoreExamples.shuffled 2 2
           (2, 0, Land (PInt 2)) eq_refl Hall).
Defined.

(** * Further properties of the worker *)

Module LoopFacts.
Import Py PyFacts Worker WorkerFacts Startup.

Lemma list_index_first (u : string) (uris : list string) : forall a,
  uris !! a = Some u ->
  exists k, list_index u uris = Val k /\ (k <= a)%nat /\ uris !! k = Some u /\
    forall j, (j < k)%nat -> uris !! j <> Some u.
Proof.
  induction uris as [|y uris IH]; intros a Ha; [done|].
  simpl. destruct (String.eqb y u) eqn:Hy.
  - apply String.eqb_eq in Hy as ->. exists 0%nat.
    split; [done|]. split; [lia|]. split; [done|]. intros j Hj. lia.
  - apply String.eqb_neq in Hy.
    destruct a as [|a]; simpl in Ha; [by injection Ha|].
    destruct (IH a Ha) as (k & -> & Hk & Hu & Hfirst).
    exists (S k). split; [done|]. split; [lia|]. split; [done|].
    intros [|j] Hj; simpl; [by intros [= ?]|]. apply Hfirst. lia.
Qed.

Lemma list_index_absent (u : string) (uris : list string) :
  Forall (fun y => y <> u) uris -> list_index u uris = Exc ValueError.
Proof.
  induction 1 as [|y uris Hy _ IH]; [done|].
  simpl. apply String.eqb_neq in Hy. by rewrite Hy, IH.
Qed.

Section WithRuntime.
Context `{Runtime}.

(** The calls every worker starts with. *)
Lemma crazyflie_control_startup uri control :
  crazyflie_control uri control =
    ([param_set_value "stabilizer.controller" "1";
      param_set_value "ring.fadeTime" "0";
      param_set_value "ring.fadeColor" "0";
      param_set_value "ring.effect" "14"] ++ (command_loop uri control).1,
     (command_loop uri control).2).
Proof.
  unfold crazyflie_control. cbn. by destruct (command_loop uri control).
Qed.

(** The two branches of the loop whose body can raise. *)
Ltac split_body :=
  lazymatch goal with
  | |- context [helix ?d ?z ?zf ?t ?p ?n ?tm] =>
      destruct (helix d z zf t p n tm) as [? [?|?]]
  | |- context [set_ring_color ?r ?g ?b ?i ?t] =>
      destruct (set_ring_color r g b i t) as [? [?|?]]
  | _ => unfold do
  end.

(** A command that, alone on the queue, is executed and leaves the worker
    waiting, is executed in the same way with commands behind it. *)
Lemma command_loop_cons_blocked uri c rest :
  (command_loop uri [c]).2 = Blocked ->
  command_loop uri (c :: rest) =
    ((command_loop uri [c]).1 ++ (command_loop uri rest).1,
     (command_loop uri rest).2).
Proof.
  destruct c; cbn [command_loop]; try done; split_body; cbn [fst snd]; try done;
    intros _; rewrite ?app_nil_r; by destruct (command_loop uri rest).
Qed.

(** A command that kills the worker kills it whatever is behind it. *)
Lemma command_loop_cons_died uri c rest e :
  (command_loop uri [c]).2 = Died e ->
  command_loop uri (c :: rest) = ((command_loop uri [c]).1, Died e).
Proof.
  destruct c; cbn [command_loop]; try done; split_body; cbn [fst snd]; try done;
    by intros [= <-].
Qed.

Lemma command_loop_app uri cs rest :
  Forall (fun c => (command_loop uri [c]).2 = Blocked) cs ->
  command_loop uri (cs ++ rest) =
    (flat_map (fun c => (command_loop uri [c]).1) cs ++ (command_loop uri rest).1,
     (command_loop uri rest).2).
Proof.
  induction 1 as [|c cs Hc _ IH]; [simpl; by destruct (command_loop uri rest)|].
  simpl app. rewrite command_loop_cons_blocked by done. rewrite IH.
  cbn [fst snd flat_map]. by rewrite app_assoc.
Qed.

End WithRuntime.

End LoopFacts.

Import Startup LoopFacts.

(** ** The worker's loop, command by command *)

(** The worker keeps no state between commands. When each command of [cs],
    alone on a queue, is executed without an exception and is not [Quit],
    the worker's calls on a queue that starts with [cs] are the calls of
    each command of [cs], in order, followed by what it does on the rest:
    on [cs] alone it then waits for ever; at a [Quit] it returns and
    leaves everything behind the [Quit] unread; at a command that raises
    it dies after the calls that command made before raising, and nothing
    behind it is executed. *)
Theorem worker_executes_commands_one_by_one `{Runtime}
    (uri : string) (cs rest : list command) :
  Forall (fun c => (command_loop uri [c]).2 = Blocked) cs ->
  let calls := flat_map (fun c => (command_loop uri [c]).1) cs in
  command_loop uri (cs ++ rest) =
    (calls ++ (command_loop uri rest).1, (command_loop uri rest).2) /\
  command_loop uri cs = (calls, Blocked) /\
  command_loop uri (cs ++ Quit :: rest) = (calls, Returned rest) /\
  forall c e,
    (command_loop uri [c]).2 = Died e ->
    command_loop uri (cs ++ c :: rest) = (calls ++ (command_loop uri [c]).1, Died e).
Proof.
  intros Hcs calls. split; [by apply command_loop_app|]. split; [|split].
  - rewrite <- (app_nil_r cs) at 1. rewrite command_loop_app by done.
    cbn. by rewrite app_nil_r.
  - rewrite command_loop_app by done. cbn. by rewrite app_nil_r.
  - intros c e Hc. rewrite command_loop_app by done.
    by rewrite (command_loop_cons_died uri c rest e Hc).
Qed.

Section LoopExamples.

#[local] Existing Instance Examples.runtime.

Lemma worker_executes_commands_one_by_one_witness :
  Forall (fun c => (command_loop "uri" [c]).2 = Blocked)
    [Takeoff (PFloat 0.5) (PInt 2); Examples.show_helix] /\
  let calls := flat_map (fun c => (command_loop "uri" [c]).1)
                 [Takeoff (PFloat 0.5) (PInt 2); Examples.show_helix] in
  command_loop "uri" ([Takeoff (PFloat 0.5) (PInt 2); Examples.show_helix]
                        ++ [Land (PInt 2)]) =
    (calls ++ (command_loop "uri" [Land (PInt 2)]).1,
     (command_loop "uri" [Land (PInt 2)]).2) /\
  command_loop "uri" [Takeoff (PFloat 0.5) (PInt 2); Examples.show_helix] =
    (calls, Blocked) /\
  command_loop "uri" ([Takeoff (PFloat 0.5) (PInt 2); Examples.show_helix]
                        ++ Quit :: [Land (PInt 2)]) =
    (calls, Returned [Land (PInt 2)]) /\
  forall c e,
    (command_loop "uri" [c]).2 = Died e ->
    command_loop "uri" ([Takeoff (PFloat 0.5) (PInt 2); Examples.show_helix]
                          ++ c :: [Land (PInt 2)]) =
      (calls ++ (command_loop "uri" [c]).1, Died e).
Proof.
  assert (Hcs : Forall (fun c => (command_loop "uri" [c]).2 = Blocked)
                  [Takeoff (PFloat 0.5) (PInt 2); Examples.show_helix]).
  { apply Forall_cons_2; [reflexivity|].
    apply Forall_cons_2; [vm_compute; reflexivity|apply Forall_nil_2]. }
  split; [exact Hcs|].
  apply (worker_executes_commands_one_by_one "uri"
           [Takeoff (PFloat 0.5) (PInt 2); Examples.show_helix] [Land (PInt 2)] Hcs).
Defined.

End LoopExamples.

(** The worker returns only at a [Quit]: when it has returned and left
    [rest] unread, its queue was some commands without a [Quit], then a
    [Quit], then [rest]. On a queue that never gets a [Quit] it does not
    return: it waits for ever or dies. *)
Theorem worker_returns_only_at_quit `{Runtime}
    (uri : string) (control rest : list command) :
  (command_loop uri control).2 = Returned rest ->
  exists cs,
    control = cs ++ Quit :: rest /\
    Forall (fun c => c <> Quit) cs /\
    Forall (fun c => (command_loop uri [c]).2 = Blocked) cs.
Proof.
  revert rest. induction control as [|c control IH]; intros rest; [done|].
  assert (c = Quit \/ c <> Quit) as [->|Hc] by (destruct c; (by left) || (by right)).
  { cbn. intros [= ->]. exists []. by repeat split. }
  destruct (command_loop uri [c]).2 as [unread| |e] eqn:Hone.
  - exfalso. revert Hone.
    destruct c as [| | |cr cg cb intensity time
                   |d z zf theta0 circle_period No_setpoints time| |];
      cbn [command_loop]; try done.
    + by destruct (set_ring_color cr cg cb intensity time) as [? [?|?]].
    + by destruct (helix d z zf theta0 circle_period No_setpoints time) as [? [?|?]].
  - rewrite command_loop_cons_blocked by done. cbn [snd].
    intros Hret. destruct (IH rest Hret) as (cs & -> & Hq & Hb).
    exists (c :: cs). split; [done|]. split; by apply Forall_cons_2.
  - rewrite (command_loop_cons_died uri c control e Hone). done.
Qed.

Section ReturnExamples.

#[local] Existing Instance Examples.runtime.

Lemma worker_returns_only_at_quit_witness :
  (command_loop "uri" [Takeoff (PFloat 0.5) (PInt 2); Quit; Land (PInt 2)]).2 =
    Returned [Land (PInt 2)] /\
  exists cs,
    [Takeoff (PFloat 0.5) (PInt 2); Quit; Land (PInt 2)] = cs ++ Quit :: [Land (PInt 2)] /\
    Forall (fun c => c <> Quit) cs /\
    Forall (fun c => (command_loop "uri" [c]).2 = Blocked) cs.
Proof.
  split; [reflexivity|].
  apply (worker_returns_only_at_quit "uri"
           [Takeoff (PFloat 0.5) (PInt 2); Quit; Land (PInt 2)] [Land (PInt 2)] eq_refl).
Defined.

End ReturnExamples.

(** ** Which queue a worker reads *)

(** A worker whose link uri is in [uris] reads the queue at the position
    of the first occurrence of that uri: its own queue when the uris are
    distinct. When a uri is listed twice, the worker of the second
    occurrence reads the queue of the first, and the queue at its own
    position is read by nobody. *)
Theorem worker_reads_queue_of_first_matching_uri
    (uris : list string) (a : nat) (link_uri : string) :
  uris !! a = Some link_uri ->
  exists k,
    control_queue uris (length uris) link_uri = Val k /\
    (k <= a)%nat /\
    uris !! k = Some link_uri /\
    (forall j, (j < k)%nat -> uris !! j <> Some link_uri) /\
    (NoDup uris -> k = a).
Proof.
  intros Ha. destruct (list_index_first link_uri uris a Ha) as (k & Hk & Hle & Hu & Hfirst).
  exists k. unfold control_queue. rewrite Hk. cbn [result_bind].
  assert (Hlt : (k < length uris)%nat) by (by eapply lookup_lt_Some).
  rewrite SchedulerFacts.py_index_nonneg by lia. rewrite Nat2Z.id.
  repeat (split; [done|]).
  intros Hnd. by eapply NoDup_lookup.
Qed.

Lemma worker_reads_queue_of_first_matching_uri_witness :
  MoreExamples.shared_uris !! 1%nat = Some "radio://a"%string /\
  exists k,
    control_queue MoreExamples.shared_uris (length MoreExamples.shared_uris) "radio://a" = Val k /\
    (k <= 1)%nat /\
    MoreExamples.shared_uris !! k = Some "radio://a"%string /\
    (forall j, (j < k)%nat -> MoreExamples.shared_uris !! j <> Some "radio://a"%string) /\
    (NoDup MoreExamples.shared_uris -> k = 1%nat).
Proof.
  split; [reflexivity|].
  apply (worker_reads_queue_of_first_matching_uri MoreExamples.shared_uris 1 "radio://a" eq_refl).
Defined.

(** A worker whose link uri is not in [uris] dies of a [ValueError] in
    its first statement: it makes no call at all, not even the start-up
    parameter writes. *)
Theorem worker_with_unlisted_uri_dies_at_once `{Runtime}
    (uris : list string) (controlQueues : list (list command)) (link_uri uri : string) :
  Forall (fun u => u <> link_uri) uris ->
  worker uris controlQueues link_uri uri = ([], Died ValueError).
Proof.
  intros Habs. unfold worker, control_queue.
  by rewrite (list_index_absent link_uri uris Habs).
Qed.

Section UriExamples.

#[local] Existing Instance Examples.runtime.

Lemma worker_with_unlisted_uri_dies_at_once_witness :
  Forall (fun u => u <> "radio://0/80/2M/E7E7E7E703"%string) Choreography.uris /\
  worker Choreography.uris (run Choreography.sequence 9).1.2
    "radio://0/80/2M/E7E7E7E703" "radio://0/80/2M/E7E7E7E703" = ([], Died ValueError).
Proof.
  assert (Habs : Forall (fun u => u <> "radio://0/80/2M/E7E7E7E703"%string) Choreography.uris).
  { unfold Choreography.uris. repeat (apply Forall_cons_2; [done|]). apply Forall_nil_2. }
  split; [exact Habs|].
  apply (worker_with_unlisted_uri_dies_at_once Choreography.uris
           (run Choreography.sequence 9).1.2
           "radio://0/80/2M/E7E7E7E703" "radio://0/80/2M/E7E7E7E703" Habs).
Defined.

End UriExamples.

(** ** Scheduler and worker together *)

(** With distinct uris and a non-empty table whose agent ids are all in
    [0, number of uris) and whose entries can all be printed (steps below
    10^4300, no int of more than 4300 digits among the agent ids and the
    fields of the commands), the scheduler ends normally and the worker of
    every listed drone, when none of the table's commands for it raises
    and none is a [Quit], makes the four start-up parameter writes
    (controller 1, ring fade time 0, ring colour 0, ring effect 14), then
    the calls of each of its own commands in table order and nothing of
    any other agent's, and returns at the scheduler's [Quit] with an
    empty queue. *)
Theorem each_worker_executes_its_own_commands_then_returns `{Runtime}
    (uris : list string) (sequence : list entry) (a : nat) (link_uri uri : string) :
  NoDup uris ->
  sequence <> [] ->
  Forall (fun e => 0 <= entry_cf_id e < Z.of_nat (length uris)) sequence ->
  Forall printed sequence ->
  uris !! a = Some link_uri ->
  let own := map entry_command (filter (fun e => entry_cf_id e = Z.of_nat a) sequence) in
  Forall (fun c => (command_loop uri [c]).2 = Blocked) own ->
  (run sequence (length uris)).2 = Ok tt /\
  worker uris (run sequence (length uris)).1.2 link_uri uri =
    ([param_set_value "stabilizer.controller" "1";
      param_set_value "ring.fadeTime" "0";
      param_set_value "ring.fadeColor" "0";
      param_set_value "ring.effect" "14"]
       ++ flat_map (fun c => (command_loop uri [c]).1) own,
     Returned []).
Proof.
  intros Hnd Hne Hids Hprinted Ha own Hown.
  assert (Hlt : (a < length uris)%nat) by (by eapply lookup_lt_Some).
  unfold run.
  destruct (control_thread_deliverable sequence (fresh_queues (length uris)) Hne)
    as (evs & _ & _ & Hrun).
  { rewrite fresh_queues_length. by apply deliverable_in_range. }
  rewrite Hrun. cbn [fst snd]. split; [done|].
  unfold worker.
  rewrite length_map, deliver_length, fresh_queues_length.
  destruct (list_index_first link_uri uris a Ha) as (k & Hk & Hle & Hu & _).
  assert (k = a) as -> by (by eapply NoDup_lookup).
  unfold control_queue. rewrite Hk. cbn [result_bind].
  rewrite SchedulerFacts.py_index_nonneg by lia. rewrite Nat2Z.id.
  rewrite list_lookup_fmap.
  rewrite (deliver_lookup _ _ a []) by by apply fresh_queues_lookup.
  rewrite fresh_queues_length, commands_for_in_range by done.
  cbn [fmap option_fmap option_map app].
  rewrite crazyflie_control_startup. fold own.
  rewrite command_loop_app by done. cbn [command_loop fst snd].
  by rewrite app_nil_r.
Qed.

Section ShowExamples.

#[local] Existing Instance Examples.runtime.

Lemma each_worker_executes_its_own_commands_then_returns_witness :
  NoDup Choreography.uris /\
  Choreography.sequence <> [] /\
  Forall (fun e => 0 <= entry_cf_id e < Z.of_nat (length Choreography.uris))
    Choreography.sequence /\
  Forall printed Choreography.sequence /\
  Choreography.uris !! 5%nat = Some "radio://0/80/2M/E7E7E7E707"%string /\
  let own := map entry_command
               (filter (fun e => entry_cf_id e = Z.of_nat 5) Choreography.sequence) in
  Forall (fun c => (command_loop "radio://0/80/2M/E7E7E7E707" [c]).2 = Blocked) own /\
  (run Choreography.sequence (length Choreography.uris)).2 = Ok tt /\
  worker Choreography.uris (run Choreography.sequence (length Choreography.uris)).1.2
    "radio://0/80/2M/E7E7E7E707" "radio://0/80/2M/E7E7E7E707" =
    ([param_set_value "stabilizer.controller" "1";
      param_set_value "ring.fadeTime" "0";
      param_set_value "ring.fadeColor" "0";
      param_set_value "ring.effect" "14"]
       ++ flat_map (fun c => (command_loop "radio://0/80/2M/E7E7E7E707" [c]).1) own,
     Returned []).
Proof.
  assert (Hnd : NoDup Choreography.uris).
  { unfold Choreography.uris.
    repeat (apply NoDup_cons_2; [by vm_compute; intros Hin; repeat
              (apply elem_of_cons in Hin as [?|Hin]; [done|]); inversion Hin|]).
    apply NoDup_nil_2. }
  assert (Hids : Forall (fun e => 0 <= entry_cf_id e < Z.of_nat (length Choreography.uris))
                   Choreography.sequence).
  { unfold Choreography.sequence.
    repeat (apply Forall_cons_2; [unfold entry_cf_id; simpl; lia|]). apply Forall_nil_2. }
  assert (Hprinted : Forall printed Choreography.sequence).
  { unfold Choreography.sequence.
    repeat (apply Forall_cons_2; [split; vm_compute; reflexivity|]). apply Forall_nil_2. }
  assert (Hown : Forall (fun c => (command_loop "radio://0/80/2M/E7E7E7E707" [c]).2 = Blocked)
                   (map entry_command
                      (filter (fun e => entry_cf_id e = Z.of_nat 5) Choreography.sequence))).
  { assert (Hb : forallb (fun c =>
                            match (command_loop "radio://0/80/2M/E7E7E7E707" [c]).2 with
                            | Blocked => true
                            | _ => false
                            end)
                   (map entry_command
                      (filter (fun e => entry_cf_id e = Z.of_nat 5) Choreography.sequence))
                 = true) by (vm_compute; reflexivity).
    rewrite forallb_forall in Hb. apply Forall_forall. intros c Hc.
    apply list_elem_of_In in Hc. specialize (Hb c Hc).
    by destruct (command_loop "radio://0/80/2M/E7E7E7E707" [c]).2. }
  split; [exact Hnd|]. split; [done|]. split; [exact Hids|]. split; [exact Hprinted|].
  split; [reflexivity|]. split; [exact Hown|].
  apply (each_worker_executes_its_own_commands_then_returns
           Choreography.uris Choreography.sequence 5
           "radio://0/80/2M/E7E7E7E707" "radio://0/80/2M/E7E7E7E707"
           Hnd ltac:(done) Hids Hprinted eq_refl Hown).
Defined.

End ShowExamples.

(** The reserved [Quit] is not kept out of the table: with distinct
    uris and a non-empty table whose agent ids are all in [0, number of
    uris) and whose entries can all be printed, the scheduler forwards a
    [Quit] of the table like any command. The worker whose commands of the
    table are [cs], that [Quit] and [rest], where no command of [cs]
    raises or is a [Quit], then executes its commands
    up to that [Quit] and returns there; the commands of the table behind
    it, and the scheduler's own [Quit], stay in the queue and are never
    executed. *)
Theorem commands_behind_a_table_quit_are_never_executed `{Runtime}
    (uris : list string) (sequence : list entry) (a : nat) (link_uri uri : string)
    (cs rest : list command) :
  NoDup uris ->
  sequence <> [] ->
  Forall (fun e => 0 <= entry_cf_id e < Z.of_nat (length uris)) sequence ->
  Forall printed sequence ->
  uris !! a = Some link_uri ->
  map entry_command (filter (fun e => entry_cf_id e = Z.of_nat a) sequence) =
    cs ++ Quit :: rest ->
  Forall (fun c => (command_loop uri [c]).2 = Blocked) cs ->
  worker uris (run sequence (length uris)).1.2 link_uri uri =
    ([param_set_value "stabilizer.controller" "1";
      param_set_value "ring.fadeTime" "0";
      param_set_value "ring.fadeColor" "0";
      param_set_value "ring.effect" "14"]
       ++ flat_map (fun c => (command_loop uri [c]).1) cs,
     Returned (rest ++ [Quit])).
Proof.
  intros Hnd Hne Hids Hprinted Ha Hown Hcs.
  assert (Hlt : (a < length uris)%nat) by (by eapply lookup_lt_Some).
  unfold run.
  destruct (control_thread_deliverable sequence (fresh_queues (length uris)) Hne)
    as (evs & _ & _ & Hrun).
  { rewrite fresh_queues_length. by apply deliverable_in_range. }
  rewrite Hrun. cbn [fst snd].
  unfold worker.
  rewrite length_map, deliver_length, fresh_queues_length.
  destruct (list_index_first link_uri uris a Ha) as (k & Hk & Hle & Hu & _).
  assert (k = a) as -> by (by eapply NoDup_lookup).
  unfold control_queue. rewrite Hk. cbn [result_bind].
  rewrite SchedulerFacts.py_index_nonneg by lia. rewrite Nat2Z.id.
  rewrite list_lookup_fmap.
  rewrite (deliver_lookup _ _ a []) by by apply fresh_queues_lookup.
  rewrite fresh_queues_length, commands_for_in_range by done.
  cbn [fmap option_fmap option_map app].
  rewrite crazyflie_control_startup, Hown.
  rewrite <- app_assoc. rewrite command_loop_app by done.
  cbn [command_loop fst snd app]. by rewrite app_nil_r.
Qed.

Section QuitExamples.

#[local] Existing Instance Examples.runtime.

Lemma commands_behind_a_table_quit_are_never_executed_witness :
  NoDup ["radio://a"%string] /\
  MoreExamples.early_quit <> [] /\
  Forall (fun e => 0 <= entry_cf_id e < Z.of_nat (length ["radio://a"%string]))
    MoreExamples.early_quit /\
  Forall printed MoreExamples.early_quit /\
  ["radio://a"%string] !! 0%nat = Some "radio://a"%string /\
  map entry_command (filter (fun e => entry_cf_id e = Z.of_nat 0) MoreExamples.early_quit) =
    [Takeoff (PFloat 0.5) (PInt 2)] ++ Quit :: [Land (PInt 2)] /\
  Forall (fun c => (command_loop "radio://a" [c]).2 = Blocked)
    [Takeoff (PFloat 0.5) (PInt 2)] /\
  worker ["radio://a"%string] (run MoreExamples.early_quit (length ["radio://a"%string])).1.2
    "radio://a" "radio://a" =
    ([param_set_value "stabilizer.controller" "1";
      param_set_value "ring.fadeTime" "0";
      param_set_value "ring.fadeColor" "0";
      param_set_value "ring.effect" "14"]
       ++ flat_map (fun c => (command_loop "radio://a" [c]).1) [Takeoff (PFloat 0.5) (PInt 2)],
     Returned ([Land (PInt 2)] ++ [Quit])).
Proof.
  assert (Hnd : NoDup ["radio://a"%string]).
  { apply NoDup_cons_2; [apply not_elem_of_nil|apply NoDup_nil_2]. }
  assert (Hids : Forall (fun e => 0 <= entry_cf_id e < Z.of_nat (length ["radio://a"%string]))
                   MoreExamples.early_quit).
  { repeat (apply Forall_cons_2; [unfold entry_cf_id; simpl; lia|]). apply Forall_nil_2. }
  assert (Hprinted : Forall printed MoreExamples.early_quit).
  { repeat (apply Forall_cons_2; [split; vm_compute; reflexivity|]). apply Forall_nil_2. }
  assert (Hcs : Forall (fun c => (command_loop "radio://a" [c]).2 = Blocked)
                  [Takeoff (PFloat 0.5) (PInt 2)]).
  { apply Forall_cons_2; [reflexivity|apply Forall_nil_2]. }
  split; [exact Hnd|]. split; [done|]. split; [exact Hids|]. split; [exact Hprinted|].
  split; [reflexivity|]. split; [reflexivity|]. split; [exact Hcs|].
  apply (commands_behind_a_table_quit_are_never_executed
           ["radio://a"%string] MoreExamples.early_quit 0 "radio://a" "radio://a"
           [Takeoff (PFloat 0.5) (PInt 2)] [Land (PInt 2)]
           Hnd ltac:(done) Hids Hprinted eq_refl eq_refl Hcs).
Defined.

End QuitExamples.

(** * Further properties of the Helix and Ring branches *)

Module BranchFacts.
Import Py PyFacts Worker WorkerFacts.

Section WithRuntime.
Context `{Runtime}.

Lemma counters_nonpositive n : n <= 0 -> counters n = [].
Proof. intros Hn. unfold counters. by rewrite Z2Nat.nonpos. Qed.

(** The Helix branch with a negative int for the number of set-points,
    when nothing raises: the range of the sweep is empty. *)
Lemma helix_negative_run d z zf theta0 period n time :
  n < 0 ->
  (helix d z zf theta0 period (PInt n) time).2 = Val tt ->
  helix d z zf theta0 period (PInt n) time =
    ([helix_entry d z theta0 time; time_sleep (succ time)], Val tt).
Proof.
  intros Hn Hrun. rewrite (helix_val _ _ _ _ _ _ _ Hrun).
  unfold helix_expansion. by rewrite counters_nonpositive by lia.
Qed.

Lemma bind_eval {A B} (r : result A) (k : A -> act B) :
  Worker.bind (eval r) k =
    match r with
    | Val a => k a
    | Exc e => ([], Exc e)
    end.
Proof. unfold Worker.bind, eval. destruct r as [a|e]; [by destruct (k a)|done]. Qed.

(** The Helix branch with a float for the number of set-points never
    completes: at the latest, [range] refuses the float. *)
Lemma helix_float_dies d z zf theta0 period f time :
  exists cs e,
    helix d z zf theta0 period (PFloat f) time = (cs, Exc e) /\
    (cs = [] \/ cs = [helix_entry d z theta0 time] \/
     cs = [helix_entry d z theta0 time; time_sleep (succ time)] /\ e = TypeError).
Proof.
  unfold helix.
  rewrite bind_eval. destruct (_ / _)%py as [sp|e]; [|exists [], e; by split; [|left]].
  rewrite bind_eval.
  destruct (#d / #(PFloat 2) * cos (#theta0))%py as [x|e] eqn:Hx;
    [|exists [], e; by split; [|left]].
  rewrite bind_eval.
  destruct (#d / #(PFloat 2) * sin (#theta0))%py as [y|e] eqn:Hy;
    [|exists [], e; by split; [|left]].
  rewrite bind_eval.
  destruct (#theta0 - #(PFloat pi) / #(PFloat 2))%py as [psi|e] eqn:Hpsi;
    [|exists [], e; by split; [|left]].
  apply (helix_coordinate_val Py.cos libm_cos d _ (as_float theta0)) in Hx;
    [|apply cos_val|by intros a [= <-]].
  apply (helix_coordinate_val Py.sin libm_sin d _ (as_float theta0)) in Hy;
    [|apply sin_val|by intros a [= <-]].
  cbn [lift2 result_bind] in Hpsi. rewrite half_pi in Hpsi. cbn [result_bind] in Hpsi.
  apply sub_float_r_val in Hpsi. subst x y psi.
  fold (helix_entry d z theta0 time).
  cbn [lift2 result_bind]. rewrite add_succ.
  unfold Worker.bind at 1, do at 1. rewrite bind_eval.
  unfold Worker.bind at 1, sleep.
  destruct (sleep_error (succ time)) as [e|].
  - exists [helix_entry d z theta0 time], e. split; [done|]. right. by left.
  - exists [helix_entry d z theta0 time; time_sleep (succ time)], TypeError.
    split; [|right; by right]. done.
Qed.

(** When the diameter, the start angle and the period are floats or ints
    that convert to a float, the float is not zero, the cosine and the
    sine of the start angle are defined and the pause is one the clock
    accepts, the branch raises at [range]. *)
Lemma helix_float_run d z zf theta0 period f time :
  converts d -> converts theta0 -> converts period ->
  (f =? 0)%float = false ->
  sleep_error (succ time) = None ->
  trig_defined (as_float theta0) ->
  helix d z zf theta0 period (PFloat f) time =
    ([helix_entry d z theta0 time; time_sleep (succ time)], Exc TypeError).
Proof.
  intros Hd Ht Hp Hf Hs Htrig.
  destruct (helix_float_dies d z zf theta0 period f time) as (cs & e & Hrun & Hcs).
  rewrite Hrun. revert Hrun. unfold helix.
  rewrite bind_eval. cbn [lift2 result_bind].
  rewrite (truediv_float_r period) by done.
  rewrite bind_eval. cbn [lift2 result_bind].
  rewrite (truediv_float_r d) by done.
  cbn [result_bind]. rewrite cos_converts by done.
  cbn [lift2 result_bind]. rewrite mul_float_l by apply converts_float.
  rewrite bind_eval. cbn [lift2 result_bind].
  rewrite sin_converts by done.
  cbn [lift2 result_bind]. rewrite mul_float_l by apply converts_float.
  rewrite bind_eval. cbn [lift2 result_bind].
  rewrite half_pi. cbn [result_bind]. rewrite sub_float_r by done.
  unfold Worker.bind at 1, do at 1. rewrite bind_eval, add_succ.
  rewrite (sleep_ok _ Hs). unfold Worker.bind at 1. rewrite bind_eval, add_succ.
  cbn. intros [= <- <-]. done.
Qed.

End WithRuntime.

End BranchFacts.

Import BranchFacts.

(** ** A Helix whose sweep does not run *)



Section SweepExamples.

#[local] Existing Instance Examples.runtime.



End SweepExamples.

(** ** The ring colour at the edges *)

Module RingFacts.
Import Py PyFacts Worker WorkerFacts.

Lemma land_shiftl_low a b n :
  0 <= n -> 0 <= b < 2 ^ n -> Z.land (Z.shiftl a n) b = 0.
Proof.
  intros Hn Hb. apply Z.bits_inj'. intros k Hk.
  rewrite Z.land_spec, Z.bits_0.
  destruct (Z.lt_ge_cases k n) as [Hlt|Hge].
  - by rewrite Z.shiftl_spec_low.
  - apply andb_false_iff. right.
    destruct (decide (b = 0)) as [->|Hb0]; [apply Z.bits_0|].
    apply Z.bits_above_log2; [lia|].
    assert (Z.log2 b < n) by (apply Z.log2_lt_pow2; lia). lia.
Qed.

Lemma lor_shiftl_add a b n :
  0 <= n -> 0 <= b < 2 ^ n -> Z.lor (Z.shiftl a n) b = a * 2 ^ n + b.
Proof.
  intros Hn Hb. pose proof (Z.add_lor_land (Z.shiftl a n) b) as Hadd.
  rewrite land_shiftl_low in Hadd by done.
  rewrite Z.shiftl_mul_pow2 in * by done. lia.
Qed.

(** Three channels in [0, 255] are read back from the packed colour by
    shifting and masking. *)
Lemma packed_decode cr cg cb :
  0 <= cr <= 255 -> 0 <= cg <= 255 -> 0 <= cb <= 255 ->
  let color := Z.lor (Z.lor (Z.shiftl cr 16) (Z.shiftl cg 8)) cb in
  Z.land (Z.shiftr color 16) 255 = cr /\
  Z.land (Z.shiftr color 8) 255 = cg /\
  Z.land color 255 = cb.
Proof.
  intros Hr Hg Hb color.
  assert (Hcolor : color = cr * 65536 + cg * 256 + cb).
  { unfold color.
    replace (Z.lor (Z.shiftl cr 16) (Z.shiftl cg 8))
      with (Z.shiftl (Z.lor (Z.shiftl cr 8) cg) 8).
    - rewrite lor_shiftl_add by (change (2 ^ 8) with 256; lia).
      rewrite lor_shiftl_add by (change (2 ^ 8) with 256; lia).
      change (2 ^ 8) with 256. lia.
    - rewrite Z.shiftl_lor, Z.shiftl_shiftl by lia. done. }
  change 255 with (Z.ones 8). rewrite !Z.land_ones, !Z.shiftr_div_pow2 by lia.
  rewrite Hcolor. change (2 ^ 16) with 65536. change (2 ^ 8) with 256.
  repeat split.
  - assert ((cr * 65536 + cg * 256 + cb) / 65536 = cr) as ->
      by (symmetry; apply (Z.div_unique _ _ _ (cg * 256 + cb)); lia).
    apply Z.mod_small. lia.
  - assert ((cr * 65536 + cg * 256 + cb) / 256 = cr * 256 + cg) as ->
      by (symmetry; apply (Z.div_unique _ _ _ cb); lia).
    rewrite Z.add_comm, Z.mod_add by lia. apply Z.mod_small. lia.
  - replace (cr * 65536 + cg * 256 + cb) with (cb + (cr * 256 + cg) * 256) by lia.
    rewrite Z.mod_add by lia. apply Z.mod_small. lia.
Qed.

(** A float that is a NaN, and a float that is equal to zero, as
    binary64 data. *)
Lemma SFcompare_refl x : x <> S754_nan -> SFcompare x x = Some Eq.
Proof.
  destruct x as [s|s| |s m e]; [by destruct s..|done|].
  intros _. simpl. rewrite Z.compare_refl, Pos.compare_cont_refl. by destruct s.
Qed.

Lemma is_nan_spec f : is_nan f = true -> Prim2SF f = S754_nan.
Proof.
  unfold is_nan. rewrite FloatAxioms.eqb_spec. unfold SFeqb. intros Hf.
  destruct (Prim2SF f) as [s|s| |s m e] eqn:Hp; [| |done|];
    by rewrite SFcompare_refl in Hf.
Qed.

Lemma eqb_zero_spec f : (f =? 0)%float = true -> exists s, Prim2SF f = S754_zero s.
Proof.
  rewrite FloatAxioms.eqb_spec. unfold SFeqb.
  assert (Hz : Prim2SF 0 = S754_zero false) by done. rewrite Hz.
  destruct (Prim2SF f) as [s|s| |s m e]; [by eexists| | |].
  - by destruct s.
  - done.
  - by destruct s.
Qed.

Lemma mul_nan x i : is_nan i = true -> Prim2SF (x * i) = S754_nan.
Proof.
  intros Hi. rewrite FloatAxioms.mul_spec, (is_nan_spec i Hi).
  unfold SF64mul, SFmul. by destruct (Prim2SF x).
Qed.

Lemma mul_zero_r x y :
  (0 <=? x)%float = true -> (x <=? 255)%float = true ->
  (y =? 0)%float = true ->
  exists s, Prim2SF (x * y) = S754_zero s.
Proof.
  intros Hx0 Hx Hy.
  pose proof (FloatFacts.float_between x 255 8972014882652160 (-45)
                eq_refl ltac:(done) Hx0 Hx) as Rx.
  destruct (eqb_zero_spec y Hy) as [sy Hsy].
  rewrite FloatAxioms.mul_spec, Hsy. unfold SF64mul, SFmul.
  destruct (Prim2SF x) as [sx|sx| |sx mx ex]; [by eexists|done|done|by eexists].
Qed.

(** A channel in [0, 255] times an intensity equal to zero, truncated,
    is 0. *)
Lemma dark_channel r i :
  channel r -> is_zero i = true -> result_bind (mul r i) int = Val 0.
Proof.
  intros Hr Hi. destruct r as [n|x], i as [k|y]; simpl in Hr, Hi.
  - apply Z.eqb_eq in Hi as ->. simpl. f_equal. lia.
  - destruct (exact_channel n Hr) as [Hn0 Hn].
    rewrite mul_float_r by (by apply converts_int, channel_bound).
    rewrite as_float_int by (by apply channel_bound).
    cbn [result_bind int].
    destruct (mul_zero_r (exact_float n) y Hn0 Hn Hi) as [s ->]. done.
  - apply Z.eqb_eq in Hi as ->. destruct Hr as [Hx0 Hx].
    rewrite mul_float_l by by apply converts_int.
    rewrite as_float_int by done.
    cbn [result_bind int].
    destruct (mul_zero_r x (exact_float 0) Hx0 Hx eq_refl) as [s ->]. done.
  - destruct Hr as [Hx0 Hx]. unfold mul, float_op. cbn [to_float result_bind int].
    destruct (mul_zero_r x y Hx0 Hx Hi) as [s ->]. done.
Qed.

Section WithRuntime.
Context `{Runtime}.

(** [set_ring_color] when the scaled red channel is a NaN. *)
Lemma set_ring_color_nan r g b i time :
  prints time = true ->
  converts r -> converts g -> converts b -> is_nan i = true ->
  set_ring_color r g b (PFloat i) time =
    ([param_set_value "ring.fadeTime" (Py.text time)], Exc ValueError).
Proof.
  intros Htime Hr Hg Hb Hi. unfold set_ring_color, eval. cbn [lift2 result_bind].
  rewrite (str_prints time Htime).
  rewrite !mul_float_r by done.
  unfold Worker.bind, do. cbn [int].
  by rewrite (mul_nan (as_float r) i Hi).
Qed.

End WithRuntime.

End RingFacts.

Import RingFacts.

(** The colour that [set_ring_color] writes can be taken apart again:
    for channels in [0, 255], an intensity in [0, 1] and a fade time that
    has a text (a float, or an int of at most 4300 digits), the written
    value shifted right by 16 and by 8 and masked with 255 gives back the
    scaled and truncated red and green channels, and masked with 255 the
    blue one. No channel spills into another. *)
Theorem ring_color_decodes_to_its_channels `{Runtime}
    (r g b intensity time : pynum) :
  Py.channel r -> Py.channel g -> Py.channel b -> Py.unit_interval intensity ->
  Py.prints time = true ->
  exists color : Z,
    set_ring_color r g b intensity time =
      ([param_set_value "ring.fadeTime" (Py.text time);
        param_set_value "ring.fadeColor" (Py.decimal color)], Val tt) /\
    result_bind (Py.mul r intensity) Py.int = Val (Z.land (Z.shiftr color 16) 255) /\
    result_bind (Py.mul g intensity) Py.int = Val (Z.land (Z.shiftr color 8) 255) /\
    result_bind (Py.mul b intensity) Py.int = Val (Z.land color 255).
Proof.
  intros Hr Hg Hb Hi Htime.
  destruct (PyFacts.scaled_channel r intensity Hr Hi) as (cr & Hcr & Rr).
  destruct (PyFacts.scaled_channel g intensity Hg Hi) as (cg & Hcg & Rg).
  destruct (PyFacts.scaled_channel b intensity Hb Hi) as (cb & Hcb & Rb).
  destruct (packed_decode cr cg cb Rr Rg Rb) as (Dr & Dg & Db).
  exists (Z.lor (Z.lor (Z.shiftl cr 16) (Z.shiftl cg 8)) cb).
  split; [by apply set_ring_color_packed|].
  by rewrite Dr, Dg, Db.
Qed.

(** An intensity that is a NaN, with a fade time that has a text and
    three channels that each are a float or an int that converts to a
    float, kills the worker with a [ValueError] when the scaled red
    channel is truncated: the fade time has been written by then, the
    colour is not written, and the commands behind the Ring are never
    executed. *)
Theorem ring_with_nan_intensity_dies_after_the_fade_time `{Runtime}
    (uri : string) (control : list command) (r g b time : pynum) (intensity : float) :
  Py.prints time = true ->
  Py.converts r -> Py.converts g -> Py.converts b ->
  is_nan intensity = true ->
  command_loop uri (Ring r g b (PFloat intensity) time :: control) =
    ([param_set_value "ring.fadeTime" (Py.text time)], Died ValueError).
Proof.
  intros Htime Hr Hg Hb Hi. cbn [command_loop].
  by rewrite set_ring_color_nan by done.
Qed.

(** An intensity equal to zero (the int 0, or the float 0.0 or -0.0)
    switches the ring off whatever the channels in [0, 255] are, when the
    fade time has a text: the colour written is 0, and the worker goes on
    with the rest of its queue. *)
Theorem ring_with_zero_intensity_is_switched_off `{Runtime}
    (uri : string) (control : list command) (r g b intensity time : pynum) :
  Py.channel r -> Py.channel g -> Py.channel b ->
  Py.is_zero intensity = true ->
  Py.prints time = true ->
  command_loop uri (Ring r g b intensity time :: control) =
    (param_set_value "ring.fadeTime" (Py.text time)
       :: param_set_value "ring.fadeColor" "0"
       :: (command_loop uri control).1,
     (command_loop uri control).2).
Proof.
  intros Hr Hg Hb Hi Htime.
  rewrite (command_loop_ring uri r g b intensity time control _
             (set_ring_color_packed r g b intensity time 0 0 0 Htime
                (dark_channel r intensity Hr Hi) (dark_channel g intensity Hg Hi)
                (dark_channel b intensity Hb Hi) ltac:(lia) ltac:(lia) ltac:(lia))).
  done.
Qed.

Section RingEdgeExamples.

#[local] Existing Instance Examples.runtime.

Lemma ring_color_decodes_to_its_channels_witness :
  Py.channel (PInt 255) /\ Py.channel (PFloat 127.5) /\ Py.channel (PInt 3) /\
  Py.unit_interval (PFloat 0.5) /\
  Py.prints (PInt 1) = true /\
  exists color : Z,
    set_ring_color (PInt 255) (PFloat 127.5) (PInt 3) (PFloat 0.5) (PInt 1) =
      ([param_set_value "ring.fadeTime" (Py.text (PInt 1));
        param_set_value "ring.fadeColor" (Py.decimal color)], Val tt) /\
    result_bind (Py.mul (PInt 255) (PFloat 0.5)) Py.int =
      Val (Z.land (Z.shiftr color 16) 255) /\
    result_bind (Py.mul (PFloat 127.5) (PFloat 0.5)) Py.int =
      Val (Z.land (Z.shiftr color 8) 255) /\
    result_bind (Py.mul (PInt 3) (PFloat 0.5)) Py.int = Val (Z.land color 255).
Proof.
  assert (Hr : Py.channel (PInt 255)) by (simpl; lia).
  assert (Hg : Py.channel (PFloat 127.5)) by (split; reflexivity).
  assert (Hb : Py.channel (PInt 3)) by (simpl; lia).
  assert (Hi : Py.unit_interval (PFloat 0.5)) by (split; reflexivity).
  assert (Htime : Py.prints (PInt 1) = true) by (vm_compute; reflexivity).
  split; [exact Hr|]. split; [exact Hg|]. split; [exact Hb|]. split; [exact Hi|].
  split; [exact Htime|].
  apply (ring_color_decodes_to_its_channels
           (PInt 255) (PFloat 127.5) (PInt 3) (PFloat 0.5) (PInt 1) Hr Hg Hb Hi Htime).
Defined.

Lemma ring_with_nan_intensity_dies_after_the_fade_time_witness :
  Py.prints (PInt 1) = true /\
  Py.converts (PInt 255) /\ Py.converts (PInt 0) /\ Py.converts (PFloat 12.5) /\
  is_nan nan = true /\
  command_loop "uri" (Ring (PInt 255) (PInt 0) (PFloat 12.5) (PFloat nan) (PInt 1) :: [Quit]) =
    ([param_set_value "ring.fadeTime" (Py.text (PInt 1))], Died ValueError).
Proof.
  assert (Htime : Py.prints (PInt 1) = true) by (vm_compute; reflexivity).
  split; [exact Htime|].
  split; [reflexivity|]. split; [reflexivity|]. split; [reflexivity|].
  split; [reflexivity|].
  apply (ring_with_nan_intensity_dies_after_the_fade_time "uri" [Quit]
           (PInt 255) (PInt 0) (PFloat 12.5) (PInt 1) nan
           Htime eq_refl eq_refl eq_refl eq_refl).
Defined.

Lemma ring_with_zero_intensity_is_switched_off_witness :
  Py.channel (PInt 255) /\ Py.channel (PFloat 127.5) /\ Py.channel (PInt 3) /\
  Py.is_zero (PFloat (-0)) = true /\
  Py.prints (PInt 1) = true /\
  command_loop "uri" (Ring (PInt 255) (PFloat 127.5) (PInt 3) (PFloat (-0)) (PInt 1) :: [Quit]) =
    (param_set_value "ring.fadeTime" (Py.text (PInt 1))
       :: param_set_value "ring.fadeColor" "0"
       :: (command_loop "uri" [Quit]).1,
     (command_loop "uri" [Quit]).2).
Proof.
  assert (Hr : Py.channel (PInt 255)) by (simpl; lia).
  assert (Hg : Py.channel (PFloat 127.5)) by (split; reflexivity).
  assert (Hb : Py.channel (PInt 3)) by (simpl; lia).
  assert (Htime : Py.prints (PInt 1) = true) by (vm_compute; reflexivity).
  split; [exact Hr|]. split; [exact Hg|]. split; [exact Hb|]. split; [reflexivity|].
  split; [exact Htime|].
  apply (ring_with_zero_intensity_is_switched_off "uri" [Quit]
           (PInt 255) (PFloat 127.5) (PInt 3) (PFloat (-0)) (PInt 1)
           Hr Hg Hb eq_refl Htime).
Defined.

End RingEdgeExamples.

(** ** The parameters a worker writes *)

Module CallFacts.
Import Worker Calls.

Lemma parameters_written_app cs1 cs2 :
  parameters_written (cs1 ++ cs2) = parameters_written cs1 ++ parameters_written cs2.
Proof. apply omap_app. Qed.

Section Written.

Variable Q : string -> Prop.

Lemma written_bind {A B} (m : act A) (k : A -> act B) :
  Forall Q (parameters_written m.1) ->
  (forall a, Forall Q (parameters_written (k a).1)) ->
  Forall Q (parameters_written (Worker.bind m k).1).
Proof.
  intros Hm Hk. unfold Worker.bind. destruct m as [cs [a|e]]; [|done].
  specialize (Hk a). destruct (k a) as [cs' r]. cbn [fst] in *.
  rewrite parameters_written_app. by apply Forall_app.
Qed.

Lemma written_eval {A} (r : result A) : Forall Q (parameters_written (eval r).1).
Proof. apply Forall_nil_2. Qed.

Lemma written_sleep seconds : Forall Q (parameters_written (sleep seconds).1).
Proof. unfold sleep. destruct (Py.sleep_error seconds); apply Forall_nil_2. Qed.

Lemma written_for_each {A} (xs : list A) (body : A -> act unit) :
  (forall x, Forall Q (parameters_written (body x).1)) ->
  Forall Q (parameters_written (for_each xs body).1).
Proof.
  intros Hbody. induction xs as [|x xs IH]; [apply Forall_nil_2|].
  cbn [for_each]. apply written_bind; [apply Hbody|done].
Qed.

End Written.

Section WithRuntime.
Context `{Runtime}.

Lemma helix_writes_no_parameter Q d z zf theta0 circle_period No_setpoints time :
  Forall Q (parameters_written (helix d z zf theta0 circle_period No_setpoints time).1).
Proof.
  unfold helix.
  repeat first
    [ apply written_eval
    | apply written_sleep
    | apply Forall_nil_2
    | apply written_for_each; intros ?; unfold helix_setpoint
    | apply written_bind; [|intros ?] ].
Qed.

Lemma set_ring_color_writes_the_fade Q r g b intensity time :
  Q "ring.fadeTime"%string -> Q "ring.fadeColor"%string ->
  Forall Q (parameters_written (set_ring_color r g b intensity time).1).
Proof.
  intros Ht Hc. unfold set_ring_color.
  repeat first
    [ apply written_eval
    | by apply Forall_cons_2; [|apply Forall_nil_2]
    | apply written_bind; [|intros ?] ].
Qed.

Lemma command_loop_writes_the_fade Q uri control :
  Q "ring.fadeTime"%string -> Q "ring.fadeColor"%string ->
  Forall Q (parameters_written (command_loop uri control).1).
Proof.
  intros Ht Hc. induction control as [|c control IH]; [apply Forall_nil_2|].
  destruct c as [| | |cr cg cb intensity time
                 |d z zf theta0 circle_period No_setpoints time| |];
    cbn [command_loop]; try apply Forall_nil_2;
    try (destruct (command_loop uri control) as [? ?]; exact IH).
  - pose proof (set_ring_color_writes_the_fade Q cr cg cb intensity time Ht Hc) as Hr.
    destruct (set_ring_color cr cg cb intensity time) as [cs [v|e]]; [|done].
    destruct (command_loop uri control) as [cs' x]. cbn [fst] in *.
    rewrite parameters_written_app. by apply Forall_app.
  - pose proof (helix_writes_no_parameter Q d z zf theta0 circle_period No_setpoints time) as Hh.
    destruct (helix d z zf theta0 circle_period No_setpoints time) as [cs [v|e]]; [|done].
    destruct (command_loop uri control) as [cs' x]. cbn [fst] in *.
    rewrite parameters_written_app. by apply Forall_app.
Qed.

End WithRuntime.

End CallFacts.

Import Calls CallFacts.

(** Whatever its queue holds, and however it ends, a worker writes the
    controller parameter once, first, with the value 1, then the ring
    fade time, the ring colour and the ring effect; after that the only
    parameters it ever writes are the ring fade time and the ring colour.
    No command makes it write the controller or the ring effect again,
    and a Helix writes no parameter at all. *)
Theorem worker_writes_only_the_ring_fade_after_start_up `{Runtime}
    (uri : string) (control : list command) :
  exists later,
    parameters_written (crazyflie_control uri control).1 =
      ["stabilizer.controller"; "ring.fadeTime"; "ring.fadeColor"; "ring.effect"]%string
        ++ later /\
    later = parameters_written (command_loop uri control).1 /\
    Forall (fun name => name = "ring.fadeTime"%string \/ name = "ring.fadeColor"%string) later.
Proof.
  exists (parameters_written (command_loop uri control).1).
  split; [|split; [done|]].
  - rewrite crazyflie_control_startup. cbn [fst].
    by rewrite parameters_written_app.
  - apply command_loop_writes_the_fade; [by left|by right].
Qed.

(** ** Dimming an int channel *)

Module DimFacts.
Import Py PyFacts.

(** An int in [0, 255] as binary64 data: zero, or a positive float with
    exactly that value. *)
Lemma exact_channel_repr n :
  0 <= n <= 255 ->
  match Prim2SF (exact_float n) with
  | S754_zero _ => n = 0
  | S754_finite s m e => s = false /\ e <= 0 /\ Zpos m = n * 2 ^ (- e)
  | _ => False
  end.
Proof.
  intros Hn.
  pose (repr (k : Z) :=
          match Prim2SF (exact_float k) with
          | S754_zero _ => k =? 0
          | S754_finite s m e => negb s && (e <=? 0) && (Zpos m =? k * 2 ^ (- e))
          | _ => false
          end).
  assert (Hall : forallb (fun k => repr (Z.of_nat k)) (seq 0 256) = true)
    by (vm_compute; reflexivity).
  rewrite forallb_forall in Hall.
  specialize (Hall (Z.to_nat n)). rewrite Z2Nat.id in Hall by lia.
  assert (Hn' : repr n = true) by (apply Hall, in_seq; lia).
  unfold repr in Hn'.
  destruct (Prim2SF (exact_float n)) as [s|s| |s m e]; [lia|done|done|].
  apply andb_prop in Hn' as [Hn' Hm]. apply andb_prop in Hn' as [Hs He].
  destruct s; [done|]. split; [done|]. split; lia.
Qed.

Lemma int_of_bounded_by B f :
  0 <= B ->
  match Prim2SF f with
  | S754_zero _ => True
  | S754_finite s m e => s = false /\ e <= 0 /\ Zpos m <= B * 2 ^ (- e)
  | _ => False
  end ->
  exists c, int (PFloat f) = Val c /\ 0 <= c <= B.
Proof.
  intros HB. unfold int. destruct (Prim2SF f) as [s|s| |s m e]; [|done|done|].
  - intros _. exists 0. split; [done|lia].
  - intros (-> & He & Hm). exists (Z.shiftl (Zpos m) e). split; [done|].
    rewrite Z.shiftl_div_pow2 by done.
    assert (0 < 2 ^ (- e)) by (apply Z.pow_pos_nonneg; lia).
    split; [apply Z.div_pos; lia|].
    apply Z.div_le_upper_bound; lia.
Qed.

(** The float of an int channel times an intensity in [0, 1] is a zero
    or a positive float that is at most the channel. *)
Lemma mul_dimmed n (y : float) :
  0 <= n <= 255 ->
  (0 <=? y)%float = true -> (y <=? 1)%float = true ->
  match Prim2SF (exact_float n * y) with
  | S754_zero _ => True
  | S754_finite s m e => s = false /\ e <= 0 /\ Zpos m <= n * 2 ^ (- e)
  | _ => False
  end.
Proof.
  intros Hn Hy0 Hy.
  pose proof (exact_channel_repr n Hn) as Rx.
  pose proof (FloatFacts.float_between y 1 4503599627370496 (-52)
                eq_refl ltac:(done) Hy0 Hy) as Ry.
  rewrite FloatAxioms.mul_spec. unfold SF64mul, SFmul.
  destruct (Prim2SF (exact_float n)) as [sx|sx| |sx mx ex]; [|done|done|];
    destruct (Prim2SF y) as [sy|sy| |sy my ey]; try done.
  destruct Rx as (-> & Hex & Hmx), Ry as (-> & Hey & Hmy). simpl xorb.
  pose proof (FloatFacts.binary_round_aux_le n (Zpos (mx * my)) (ex + ey)) as Hr.
  assert (H53 : 255 < 2 ^ 53) by done.
  destruct (binary_round_aux prec emax false (Zpos (mx * my)) (ex + ey) loc_Exact)
    as [s|s| |s m e]; [done|..]; apply Hr; try done; try lia.
  all: rewrite Pos2Z.inj_mul, Hmx.
  all: replace (- (ex + ey)) with (- ex + ((- 52 - ey) + 52)) by lia.
  all: rewrite (FloatFacts.pow2_split (- ex)) by lia.
  all: rewrite (FloatFacts.pow2_split (- 52 - ey)) by lia.
  all: assert (0 < 2 ^ (- ex)) by (apply Z.pow_pos_nonneg; lia).
  all: assert (0 < 2 ^ (- 52 - ey)) by (apply Z.pow_pos_nonneg; lia).
  all: change (2 ^ 52) with 4503599627370496 in *.
  all: nia.
Qed.

(** An int channel scaled by an intensity in [0, 1] and truncated is an
    int between 0 and the channel. *)
Lemma dimmed_channel n i :
  0 <= n <= 255 -> unit_interval i ->
  exists c, result_bind (mul (PInt n) i) int = Val c /\ 0 <= c <= n.
Proof.
  intros Hn Hi. destruct i as [k|y]; simpl in Hi.
  - exists (n * k). split; [done|nia].
  - rewrite mul_float_r by (by apply converts_int, channel_bound).
    rewrite as_float_int by (by apply channel_bound).
    cbn [result_bind]. apply int_of_bounded_by; [lia|].
    apply mul_dimmed; tauto.
Qed.

End DimFacts.

Import DimFacts.

(** Dimming never brightens: for int channels in [0, 255], an
    intensity in [0, 1], int or float, and a fade time that has a text,
    each channel of the colour that is written is between 0 and the
    channel that was given, also after the rounding of the product to
    binary64 and the truncation. *)
Theorem ring_channels_are_never_brightened `{Runtime}
    (r g b : Z) (intensity time : pynum) :
  0 <= r <= 255 -> 0 <= g <= 255 -> 0 <= b <= 255 ->
  Py.unit_interval intensity ->
  Py.prints time = true ->
  exists cr cg cb : Z,
    set_ring_color (PInt r) (PInt g) (PInt b) intensity time =
      ([param_set_value "ring.fadeTime" (Py.text time);
        param_set_value "ring.fadeColor"
          (Py.decimal (Z.lor (Z.lor (Z.shiftl cr 16) (Z.shiftl cg 8)) cb))],
       Val tt) /\
    0 <= cr <= r /\ 0 <= cg <= g /\ 0 <= cb <= b.
Proof.
  intros Hr Hg Hb Hi Htime.
  destruct (dimmed_channel r intensity Hr Hi) as (cr & Hcr & Rr).
  destruct (dimmed_channel g intensity Hg Hi) as (cg & Hcg & Rg).
  destruct (dimmed_channel b intensity Hb Hi) as (cb & Hcb & Rb).
  exists cr, cg, cb. split; [apply set_ring_color_packed; (done || lia)|done].
Qed.

(** A number of set-points that is the float zero, 0.0 or -0.0, kills
    the worker with a [ZeroDivisionError] in
    [circle_period/No_setpoints], before any call, as the int 0 does;
    the commands behind the Helix are never executed. *)
Theorem helix_with_zero_float_steps_raises `{Runtime}
    (uri : string) (control : list command)
    (d z zf theta0 circle_period time : pynum) (steps : float) :
  Py.converts circle_period ->
  (steps =? 0)%float = true ->
  command_loop uri (Helix d z zf theta0 circle_period (PFloat steps) time :: control) =
    ([], Died ZeroDivisionError).
Proof.
  intros Hp Hs. cbn [command_loop]. unfold helix, eval. cbn [lift2 result_bind].
  destruct circle_period as [n|f]; unfold Py.truediv;
    rewrite Hp; cbn [result_bind Py.to_float Py.is_zero]; by rewrite Hs.
Qed.

Section DimExamples.

#[local] Existing Instance Examples.runtime.

Lemma ring_channels_are_never_brightened_witness :
  0 <= 255 <= 255 /\ 0 <= 1 <= 255 /\ 0 <= 77 <= 255 /\
  Py.unit_interval (PFloat 0.3) /\
  Py.prints (PInt 1) = true /\
  exists cr cg cb : Z,
    set_ring_color (PInt 255) (PInt 1) (PInt 77) (PFloat 0.3) (PInt 1) =
      ([param_set_value "ring.fadeTime" (Py.text (PInt 1));
        param_set_value "ring.fadeColor"
          (Py.decimal (Z.lor (Z.lor (Z.shiftl cr 16) (Z.shiftl cg 8)) cb))],
       Val tt) /\
    0 <= cr <= 255 /\ 0 <= cg <= 1 /\ 0 <= cb <= 77.
Proof.
  assert (Hi : Py.unit_interval (PFloat 0.3)) by (split; reflexivity).
  assert (Htime : Py.prints (PInt 1) = true) by (vm_compute; reflexivity).
  split; [lia|]. split; [lia|]. split; [lia|]. split; [exact Hi|]. split; [exact Htime|].
  apply (ring_channels_are_never_brightened 255 1 77 (PFloat 0.3) (PInt 1)
           ltac:(lia) ltac:(lia) ltac:(lia) Hi Htime).
Defined.

Lemma helix_with_zero_float_steps_raises_witness :
  Py.converts (PInt 10) /\ ((-0) =? 0)%float = true /\
  command_loop "uri"
    (Helix (PFloat 1.5) (PFloat 0.3) (PFloat 1.3) (PInt 0) (PInt 10) (PFloat (-0)) (PInt 3)
       :: [Quit]) = ([], Died ZeroDivisionError).
Proof.
  split; [reflexivity|]. split; [reflexivity|].
  apply (helix_with_zero_float_steps_raises "uri" [Quit]
           (PFloat 1.5) (PFloat 0.3) (PFloat 1.3) (PInt 0) (PInt 10) (PInt 3) (-0)%float
           eq_refl eq_refl).
Defined.

End DimExamples.

(** ** The log of a scheduler that fails *)

Module FailureFacts.
Import Scheduler SchedulerFacts.

Section Failure.

Variable sequence : list entry.

(** When the scheduler loop dies of an [IndexError], the last event of
    its log is the announcement of the entry that addresses no queue. *)
Lemma outer_while_failure fuel : forall pre rest step qs evs qs',
  sequence = pre ++ rest ->
  rest <> [] ->
  0 <= step ->
  outer_while sequence fuel (length pre) step false qs = (evs, qs', Raise IndexError) ->
  exists disp e r body,
    rest = disp ++ e :: r /\
    Forall (deliverable (length qs)) disp /\
    ~ addressable (length qs) e /\
    evs = body ++ [PrintRunning (entry_command e) (entry_cf_id e)].
Proof.
  induction fuel as [|fuel IH]; intros pre rest step qs evs qs' Hseq Hne Hstep Hrun; [done|].
  rewrite outer_while_step in Hrun.
  destruct (Py.int_prints step) eqn:Hprints; [|done].
  destruct (inner_while_spec sequence rest pre step qs (S (length sequence)))
    as (disp & rest' & Hsplit & Hall & Hcases); [done|done| |].
  { rewrite Hseq, length_app. lia. }
  assert (Hadd : Forall (deliverable (length qs)) disp).
  { eapply Forall_impl; [exact Hall|]. intros e (Hdue & Ha & Hslot).
    split; [|by split].
    pose proof (in_time_due step e Hstep Hprints Hdue) as Hin.
    unfold in_time in *. apply Z.ltb_lt. apply Z.ltb_lt in Hin. lia. }
  destruct Hcases
    as [[-> Hin] | [(e1 & r1 & -> & Hlt & Hin) | [(e1 & r1 & -> & Hle & Ha & Hbad & Hin)
                                                  | (e1 & r1 & -> & Hle & Ha & Hin)]]];
    rewrite Hin in Hrun.
  - destruct fuel as [|fuel]; [done|]. by rewrite outer_while_stopped in Hrun.
  - destruct (outer_while sequence fuel (length (pre ++ disp)) (step + 1) false
                (deliver disp qs)) as [[evs1 qs1] r1'] eqn:Hrec.
    injection Hrun as <- <- ->.
    destruct (IH (pre ++ disp) (e1 :: r1) (step + 1) (deliver disp qs) evs1 qs1)
      as (disp' & e & r & body & Hsplit' & Hadd' & Hbad' & ->);
      [by rewrite <- app_assoc, <- Hsplit|done|lia|done|].
    rewrite deliver_length in Hadd', Hbad'.
    exists (disp ++ disp'), e, r.
    eexists (PrintStep step :: dispatch_events (length qs) disp ++ Sleep STEP_TIME :: body).
    split; [by rewrite Hsplit, Hsplit', <- app_assoc|].
    split; [by apply Forall_app|]. split; [done|].
    simpl. by rewrite <- app_assoc.
  - injection Hrun as <- <-.
    exists disp, e1, r1. eexists (PrintStep step :: dispatch_events (length qs) disp).
    done.
  - done.
Qed.

End Failure.

End FailureFacts.

Import FailureFacts.

(** When the scheduler dies at the first entry that cannot be delivered,
    and that entry can be printed, so that what fails is its agent id,
    which addresses no queue, the last line the scheduler has printed
    announces that entry as running, although its command was never
    enqueued: the scheduler has died of an [IndexError], the log holds as
    many puts as there are entries before it, and nothing follows the
    announcement, neither a sleep nor the [Quit]s. *)
Theorem failing_scheduler_announces_the_entry_it_cannot_enqueue
    (pre post : list entry) (bad : entry) (agents : nat) :
  Forall (deliverable agents) pre ->
  printed bad ->
  ~ addressable agents bad ->
  exists body,
    run (pre ++ bad :: post) agents =
      (body ++ [PrintRunning (entry_command bad) (entry_cf_id bad)],
       deliver pre (fresh_queues agents), Raise IndexError) /\
    length (dispatch_log 0 (run (pre ++ bad :: post) agents).1.1) = length pre.
Proof.
  intros Hpre [Hin Ha] Hbad. unfold run.
  destruct (control_thread_unaddressable pre bad post (fresh_queues agents))
    as (evs & Hlog & Hloop & Hrun); rewrite ?fresh_queues_length; try done.
  rewrite fresh_queues_length in Hlog.
  unfold clock_loop in Hloop.
  destruct (outer_while_failure (pre ++ bad :: post) _ [] (pre ++ bad :: post) 0
              (fresh_queues agents) evs _ eq_refl ltac:(by destruct pre) ltac:(lia) Hloop)
    as (disp & e & r & body & Hsplit & Hadd & He & ->).
  rewrite fresh_queues_length in Hadd, He.
  destruct (first_bad_unique (deliverable agents) disp pre (e :: r) bad post)
    as [-> [= -> ->]]; [done|done|done| | |].
  { by apply not_deliverable_unaddressable. }
  { right. exists e, r. split; [done|]. by apply not_deliverable_unaddressable. }
  rewrite Hrun. cbn [fst snd]. exists body. split; [done|].
  by rewrite Hlog, timed_length.
Qed.

Lemma failing_scheduler_announces_the_entry_it_cannot_enqueue_witness :
  Forall (deliverable 2) [(0, 0, Takeoff (PFloat 0.5) (PInt 2))] /\
  printed (1, 5, Takeoff (PFloat 0.5) (PInt 2)) /\
  ~ addressable 2 (1, 5, Takeoff (PFloat 0.5) (PInt 2)) /\
  exists body,
    run ([(0, 0, Takeoff (PFloat 0.5) (PInt 2))]
           ++ (1, 5, Takeoff (PFloat 0.5) (PInt 2)) :: [(2, 0, Land (PInt 2))]) 2 =
      (body ++ [PrintRunning (entry_command (1, 5, Takeoff (PFloat 0.5) (PInt 2)))
                  (entry_cf_id (1, 5, Takeoff (PFloat 0.5) (PInt 2)))],
       deliver [(0, 0, Takeoff (PFloat 0.5) (PInt 2))] (fresh_queues 2), Raise IndexError) /\
    length (dispatch_log 0
              (run ([(0, 0, Takeoff (PFloat 0.5) (PInt 2))]
                      ++ (1, 5, Takeoff (PFloat 0.5) (PInt 2)) :: [(2, 0, Land (PInt 2))]) 2).1.1) =
      length [(0, 0, Takeoff (PFloat 0.5) (PInt 2))].
Proof.
  assert (Hpre : Forall (deliverable 2) [(0, 0, Takeoff (PFloat 0.5) (PInt 2))]).
  { apply Forall_cons_2; [|apply Forall_nil_2].
    split; [reflexivity|]. split; [reflexivity|]. by exists 0%nat. }
  assert (Hprinted : printed (1, 5, Takeoff (PFloat 0.5) (PInt 2)))
    by (split; reflexivity).
  assert (Hbad : ~ addressable 2 (1, 5, Takeoff (PFloat 0.5) (PInt 2))).
  { intros [i Hi]. vm_compute in Hi. discriminate Hi. }
  split; [exact Hpre|]. split; [exact Hprinted|]. split; [exact Hbad|].
  apply (failing_scheduler_announces_the_entry_it_cannot_enqueue
           [(0, 0, Takeoff (PFloat 0.5) (PInt 2))]
           [(2, 0, Land (PInt 2))]
           (1, 5, Takeoff (PFloat 0.5) (PInt 2)) 2 Hpre Hprinted Hbad).
Defined.
